(** * Big Wiz Auto Mix: the audio processing core, embedded and verified

    A shallow embedding of the macro-to-DSP parameter mapper
    (macroProcessor.ts), the per-role chain enhancer, the masking analyzer
    stub of the processing chain manager, the saturation curve of the
    effect chain (audioEffectsEngine.ts), the sidechain ducker and the
    rule-based stem role classifier (stemAnalysis.ts).

    Number model.  A TypeScript [number] that carries a slider value, a
    gain, a score or a time constant is modelled as a rational [Q] with
    exact arithmetic; [==] is equality of values.  [Math.max] and
    [Math.min] are [Qmax] and [Qmin], [a > b] is [Qltb b a].  The
    saturation curve calls [Math.tanh], so that one function is embedded
    over the reals [R]. *)

From Stdlib Require Import ZArith QArith Qminmax Qabs Qround Lqa.
From Stdlib Require Import List String Bool Arith Lia.
From Stdlib Require Import Reals Lra.
Import ListNotations.

Local Open Scope Q_scope.

(** ** Comparisons of numbers as the source writes them *)

(** [a < b] on numbers. *)
Definition Qltb (a b : Q) : bool := negb (Qle_bool b a).
(** [a > b] on numbers. *)
Definition Qgtb (a b : Q) : bool := Qltb b a.
(** [a >= b] on numbers. *)
Definition Qgeb (a b : Q) : bool := Qle_bool b a.
(** [a !== b] on numbers. *)
Definition Qneqb (a b : Q) : bool := negb (Qeq_bool a b).

(** ** types.ts *)

Inductive StemRole : Type :=
  | KICK | SNARE | HIHAT | DRUMS | PERCUSSION | BASS | LEAD
  | PAD | ARPEGGIO | VOCAL | HARMONY | FX | OTHER.

Definition StemRole_eqb (a b : StemRole) : bool :=
  match a, b with
  | KICK, KICK | SNARE, SNARE | HIHAT, HIHAT | DRUMS, DRUMS
  | PERCUSSION, PERCUSSION | BASS, BASS | LEAD, LEAD | PAD, PAD
  | ARPEGGIO, ARPEGGIO | VOCAL, VOCAL | HARMONY, HARMONY | FX, FX
  | OTHER, OTHER => true
  | _, _ => false
  end.

Record MixerSettings : Type := mkMixerSettings {
  previewLUFS : Q;
  streamLUFS : Q;
  peakCeiling : Q;
  punch : Q;
  warmth : Q;
  clarity : Q;
  air : Q;
  width : Q;
  reverb : Q
}.

(** ** macroProcessor.ts *)

Module MacroProcessor.

Inductive EQType : Type := bell | highshelf | lowshelf | highpass | lowpass.

Record EQBand : Type := mkEQBand {
  frequency : Q;
  gain : Q;
  q : Q;
  type : EQType;
  eq_enabled : bool
}.

Record CompressionSettings : Type := mkCompression {
  threshold : Q;
  ratio : Q;
  attack : Q;
  release : Q;
  makeupGain : Q;
  comp_enabled : bool
}.

Inductive Character : Type := tube | tape | transistor.

Record SaturationSettings : Type := mkSaturation {
  drive : Q;
  character : Character;
  mix : Q;
  sat_enabled : bool
}.

Record StereoWidthSettings : Type := mkStereoWidth {
  sw_width : Q;
  bassMonoFreq : Q;
  sideLowCut : Q;
  sw_enabled : bool
}.

Record LimiterSettings : Type := mkLimiter {
  ceiling : Q;
  lim_release : Q;
  lookahead : Q;
  lim_enabled : bool
}.

Record MacroProcessingResult : Type := mkResult {
  eqCurve : list EQBand;
  compression : CompressionSettings;
  saturation : SaturationSettings;
  stereoWidth : StereoWidthSettings;
  limiterSettings : LimiterSettings;
  reverbSend : Q
}.

(** Field assignments [chain.compression.attack = v] and the like. *)
Definition set_attack (v : Q) (c : CompressionSettings) : CompressionSettings :=
  mkCompression (threshold c) (ratio c) v (release c) (makeupGain c) (comp_enabled c).
Definition set_release (v : Q) (c : CompressionSettings) : CompressionSettings :=
  mkCompression (threshold c) (ratio c) (attack c) v (makeupGain c) (comp_enabled c).
Definition set_ratio (v : Q) (c : CompressionSettings) : CompressionSettings :=
  mkCompression (threshold c) v (attack c) (release c) (makeupGain c) (comp_enabled c).
Definition set_threshold (v : Q) (c : CompressionSettings) : CompressionSettings :=
  mkCompression v (ratio c) (attack c) (release c) (makeupGain c) (comp_enabled c).
Definition set_drive (v : Q) (s : SaturationSettings) : SaturationSettings :=
  mkSaturation v (character s) (mix s) (sat_enabled s).
Definition set_character (v : Character) (s : SaturationSettings) : SaturationSettings :=
  mkSaturation (drive s) v (mix s) (sat_enabled s).
Definition set_width (v : Q) (s : StereoWidthSettings) : StereoWidthSettings :=
  mkStereoWidth v (bassMonoFreq s) (sideLowCut s) (sw_enabled s).

Definition with_eqCurve (e : list EQBand) (r : MacroProcessingResult) :=
  mkResult e (compression r) (saturation r) (stereoWidth r)
           (limiterSettings r) (reverbSend r).
Definition with_compression (c : CompressionSettings) (r : MacroProcessingResult) :=
  mkResult (eqCurve r) c (saturation r) (stereoWidth r)
           (limiterSettings r) (reverbSend r).
Definition with_saturation (s : SaturationSettings) (r : MacroProcessingResult) :=
  mkResult (eqCurve r) (compression r) s (stereoWidth r)
           (limiterSettings r) (reverbSend r).
Definition with_stereoWidth (s : StereoWidthSettings) (r : MacroProcessingResult) :=
  mkResult (eqCurve r) (compression r) (saturation r) s
           (limiterSettings r) (reverbSend r).

(** [eqCurve.push(b)] and [eqCurve.unshift(b)]. *)
Definition push (b : EQBand) (r : MacroProcessingResult) :=
  with_eqCurve (eqCurve r ++ [b]) r.
Definition unshift (b : EQBand) (r : MacroProcessingResult) :=
  with_eqCurve (b :: eqCurve r) r.

Definition mapRange (value inMin inMax outMin outMax : Q) : Q :=
  outMin + (value - inMin) * (outMax - outMin) / (inMax - inMin).

Definition isPercussive (role : option StemRole) : bool :=
  match role with
  | Some KICK | Some SNARE | Some DRUMS | Some PERCUSSION | Some HIHAT => true
  | _ => false
  end.

Definition getDefaultCompression : CompressionSettings :=
  mkCompression 0 1 30 100 0 false.

Definition getDefaultSaturation : SaturationSettings :=
  mkSaturation 0 tube 0 false.

Definition getDefaultStereoWidth : StereoWidthSettings :=
  mkStereoWidth 100 120 100 false.

Definition getDefaultLimiter : LimiterSettings :=
  mkLimiter (-0.1) 50 5 true.

(** The six numbered blocks of [processSettingsToChain], each a step on
    the result under construction. *)

Definition stepClarity (settings : MixerSettings) (result : MacroProcessingResult) :=
  if Qgtb (clarity settings) 0 then
    let clarityGain := mapRange (clarity settings) 0 100 0 4 in
    let result := push (mkEQBand 8000 clarityGain 0.7 highshelf true) result in
    if Qgtb (clarity settings) 50 then
      let mudCut := mapRange (clarity settings) 50 100 0 (-2) in
      push (mkEQBand 350 mudCut 1.2 bell true) result
    else result
  else result.

Definition stepPunch (settings : MixerSettings) (stemRole : option StemRole)
           (result : MacroProcessingResult) :=
  if Qgtb (punch settings) 0 then
    with_compression
      (mkCompression
         (mapRange (punch settings) 0 100 (-3) (-15))
         (mapRange (punch settings) 0 100 1.3 2.1)
         (if isPercussive stemRole
          then mapRange (punch settings) 0 100 30 10
          else mapRange (punch settings) 0 100 30 15)
         (mapRange (punch settings) 0 100 50 150)
         (mapRange (punch settings) 0 100 0 3)
         (Qgtb (punch settings) 5))
      result
  else result.

Definition stepWarmth (settings : MixerSettings) (result : MacroProcessingResult) :=
  if Qgtb (warmth settings) 0 then
    let lowBoost := mapRange (warmth settings) 0 100 0 2 in
    let result := push (mkEQBand 160 lowBoost 0.7 lowshelf true) result in
    let midCut := mapRange (warmth settings) 0 100 0 (-3) in
    let result := push (mkEQBand 4000 midCut 1.0 bell true) result in
    with_saturation
      (mkSaturation
         (mapRange (warmth settings) 0 100 0 2)
         tube
         (mapRange (warmth settings) 0 100 0 25)
         (Qgtb (warmth settings) 10))
      result
  else result.

Definition stepWidth (settings : MixerSettings) (result : MacroProcessingResult) :=
  if Qneqb (width settings) 0 then
    with_stereoWidth
      (mkStereoWidth (mapRange (width settings) 0 100 50 150) 120 100 true)
      result
  else result.

Definition stepAir (settings : MixerSettings) (result : MacroProcessingResult) :=
  if Qneqb (air settings) 0 then
    let airGain := mapRange (air settings) 0 100 0 3 in
    push (mkEQBand 14000 airGain 0.5 highshelf true) result
  else result.

Definition stepGlue (settings : MixerSettings) (result : MacroProcessingResult) :=
  if Qgtb (punch settings) 0 then
    let c := compression result in
    let c := set_attack (Qmax (attack c) 20) c in
    let c := set_release (Qmax (release c) 100) c in
    let s := saturation result in
    let s := set_drive (Qmax (drive s) 0.5) s in
    let s := set_character tape s in
    with_saturation s (with_compression c result)
  else result.

Definition processSettingsToChain (settings : MixerSettings)
           (stemRole : option StemRole) : MacroProcessingResult :=
  let result :=
    mkResult [] getDefaultCompression getDefaultSaturation
             getDefaultStereoWidth getDefaultLimiter (reverb settings) in
  let result := stepClarity settings result in
  let result := stepPunch settings stemRole result in
  let result := stepWarmth settings result in
  let result := stepWidth settings result in
  let result := stepAir settings result in
  let result := stepGlue settings result in
  result.

Definition enhanceForKick (chain : MacroProcessingResult) (settings : MixerSettings) :=
  let chain :=
    unshift (mkEQBand 60 (mapRange (punch settings) 0 100 0 2) 1.0 bell true) chain in
  let chain :=
    if Qgtb (clarity settings) 50 then
      push (mkEQBand 4000 (mapRange (clarity settings) 50 100 0 1.5) 1.5 bell true) chain
    else chain in
  let c := compression chain in
  let c := set_attack (Qmin (attack c) 5) c in
  let c := set_ratio (Qmax (ratio c) 3) c in
  with_compression c chain.

Definition enhanceForSnare (chain : MacroProcessingResult) (settings : MixerSettings) :=
  let chain :=
    unshift (mkEQBand 250 (mapRange (punch settings) 0 100 0 2) 1.2 bell true) chain in
  if Qgtb (clarity settings) 30 then
    push (mkEQBand 5000 (mapRange (clarity settings) 30 100 0 3) 2.0 bell true) chain
  else chain.

Definition enhanceForBass (chain : MacroProcessingResult) (settings : MixerSettings) :=
  let chain :=
    with_stereoWidth
      (set_width (Qmin (sw_width (stereoWidth chain)) 100) (stereoWidth chain)) chain in
  let chain :=
    unshift (mkEQBand 100 (mapRange (warmth settings) 0 100 0 2) 1.0 bell true) chain in
  if Qgtb (clarity settings) 40 then
    push (mkEQBand 800 (mapRange (clarity settings) 40 100 0 1.5) 1.0 bell true) chain
  else chain.

Definition enhanceForVocal (chain : MacroProcessingResult) (settings : MixerSettings) :=
  let chain :=
    unshift (mkEQBand 3000 (mapRange (clarity settings) 0 100 0 3) 1.2 bell
                      (Qgtb (clarity settings) 20)) chain in
  let chain :=
    if Qgtb (clarity settings) 70 then
      push (mkEQBand 7000 (-1.5) 2.0 bell true) chain
    else chain in
  let c := compression chain in
  let c := set_threshold (Qmax (threshold c) (-12)) c in
  let c := set_ratio (Qmin (ratio c) 3) c in
  let c := set_attack (Qmax (attack c) 5) c in
  with_compression c chain.

Definition enhanceForDrums (chain : MacroProcessingResult) (settings : MixerSettings) :=
  let chain :=
    if Qgtb (punch settings) 50 then
      with_compression
        (set_attack (Qmin (attack (compression chain)) 3) (compression chain)) chain
    else chain in
  if Qgtb (air settings) 60 then
    push (mkEQBand 10000 (-1) 1.5 bell true) chain
  else chain.

Definition getPerRoleChain (role : StemRole) (settings : MixerSettings)
  : MacroProcessingResult :=
  let baseChain := processSettingsToChain settings (Some role) in
  match role with
  | KICK => enhanceForKick baseChain settings
  | SNARE => enhanceForSnare baseChain settings
  | BASS => enhanceForBass baseChain settings
  | VOCAL | LEAD => enhanceForVocal baseChain settings
  | DRUMS => enhanceForDrums baseChain settings
  | _ => baseChain
  end.

Definition set_makeupGain (v : Q) (c : CompressionSettings) : CompressionSettings :=
  mkCompression (threshold c) (ratio c) (attack c) (release c) v (comp_enabled c).

Definition calculateGainCompensation (settings : MixerSettings) : Q :=
  let compensation := 0 in
  let compensation := compensation - clarity settings * 0.02 in
  let compensation := compensation - warmth settings * 0.015 in
  let compensation := compensation - air settings * 0.02 in
  let compensation := compensation - punch settings * 0.025 in
  let compensation := compensation - warmth settings * 0.01 in
  Qmax (-6) (Qmin 6 compensation).

End MacroProcessor.

(** ** previewEngine.ts: how a stem's parameters are obtained *)

Module PreviewEngine.

Import MacroProcessor.

(** The parameters [play] and [updateSettings] hand to the effects engine
    for one stem: [role] is the role of the stem's data, if the stem has
    data; gain matching is on when [gainMatchReference > 0]. *)
Definition stemProcessingResult (role : option StemRole) (gainMatchReference : Q)
           (currentSettings : MixerSettings) : MacroProcessingResult :=
  let processingResult :=
    match role with
    | Some r => getPerRoleChain r currentSettings
    | None => processSettingsToChain currentSettings None
    end in
  if Qgtb gainMatchReference 0 then
    let compensation := calculateGainCompensation currentSettings in
    with_compression
      (set_makeupGain (makeupGain (compression processingResult) + compensation)
                      (compression processingResult))
      processingResult
  else processingResult.

End PreviewEngine.

(** ** processingChainManager.ts: the masking analyzer *)

Module MaskingAnalyzer.

Inductive ConflictLevel : Type := low | medium | high.

Record MaskingHeatmap : Type := mkHeatmap {
  stems : list string;
  frequencies : list Q;
  maskingMatrix : list (list Q);
  conflictLevel : ConflictLevel
}.

(** [analyze()] takes no argument and reads no field of the analyzer. *)
Definition analyze : MaskingHeatmap :=
  mkHeatmap
    ["kick"%string; "bass"%string; "vocal"%string]
    [20; 50; 100; 200; 500; 1000; 2000; 5000; 10000; 20000]
    [ [0; 0.2; 0.1; 0.0; 0.0; 0.0; 0.0; 0.0; 0.0; 0.0];
      [0.3; 0; 0.5; 0.2; 0.0; 0.0; 0.0; 0.0; 0.0; 0.0];
      [0.0; 0.0; 0.1; 0.2; 0.3; 0.4; 0.2; 0.1; 0.0; 0.0] ]
    medium.

(** The vocabulary of the masking scenario: a stem with its spectrum
    (energy per frequency bin), and two spectra being disjoint when no
    bin carries energy in both. *)
Record StemSpectrum : Type := mkStemSpectrum {
  id : string;
  spectrum : list Q
}.

Definition disjoint_spectra (a b : StemSpectrum) : Prop :=
  forall bin : nat,
    nth bin (spectrum a) 0 == 0 \/ nth bin (spectrum b) 0 == 0.

Definition all_entries (P : Q -> Prop) (m : list (list Q)) : Prop :=
  Forall (Forall P) m.

End MaskingAnalyzer.

(** ** audioEffectsEngine.ts: the saturation curve of the effect chain *)

Module EffectChain.

Local Open Scope R_scope.

Definition samples : nat := Z.to_nat 44100.

(** [Math.sign]. *)
Definition sign (x : R) : R :=
  if Rlt_dec 0 x then 1 else if Rlt_dec x 0 then -1 else 0.

(** The abscissa of sample [i]: [x = (i * 2) / samples - 1]. *)
Definition sample_x (i : nat) : R := (INR i * 2) / INR samples - 1.

(** The body of the loop of [createSaturationCurve]: the value stored at
    index [i].  The [switch] is on the character's name and keeps its
    [default] branch. *)
Definition curve_at (drive : R) (character : string) (i : nat) : R :=
  let x := sample_x i in
  if String.eqb character "tube" then
    sign x * tanh (Rabs x * (1 + drive * 0.5))
  else if String.eqb character "tape" then
    tanh (x * (1 + drive * 0.3))
  else if String.eqb character "transistor" then
    sign x * Rmin (Rabs x * (1 + drive * 0.8)) 0.95
  else x.

Definition createSaturationCurve (drive : R) (character : string) : list R :=
  map (curve_at drive character) (seq 0 samples).

(** The name under which a [SaturationSettings.character] reaches
    [createSaturationCurve]. *)
Definition character_name (c : MacroProcessor.Character) : string :=
  match c with
  | MacroProcessor.tube => "tube"
  | MacroProcessor.tape => "tape"
  | MacroProcessor.transistor => "transistor"
  end.

End EffectChain.

(** ** audioEffectsEngine.ts: the chain built from the mapper's result *)

Module AudioEffectsEngine.

Import MacroProcessor.

(** The [type] of a biquad filter node. *)
Inductive BiquadType : Type :=
  | bq_peaking | bq_highpass | bq_lowpass | bq_highshelf | bq_lowshelf.

(** The nodes [buildChain] puts on the signal path, with the parameters it
    sets on them.  [MakeupGain db] is the gain node holding
    [dbToLinear(db)].  [Mixer wet dry] is the node that sums the saturated
    signal through a gain [wet] and the signal from before the saturator
    through a gain [dry].  [StereoWidth m] is the mid/side network from
    splitter to merger, with the side gain set to [m].  Times are in
    seconds, as they are set on the nodes. *)
Inductive Node : Type :=
  | InputNode
  | EqNode (type : BiquadType) (frequency gain q : Q)
  | Compressor (threshold ratio attack release : Q)
  | MakeupGain (db : Q)
  | SaturationNode (drive : Q) (character : Character)
  | Mixer (wet dry : Q)
  | StereoWidth (widthMultiplier : Q)
  | GainCompensation
  | Limiter (threshold ratio attack release : Q)
  | OutputNode.

(** The signal path under construction: the nodes connected in series so
    far; [currentNode] is the last one. *)
Definition Path : Type := list Node.

Definition biquadType (t : EQType) : BiquadType :=
  match t with
  | highpass => bq_highpass
  | lowpass => bq_lowpass
  | highshelf => bq_highshelf
  | lowshelf => bq_lowshelf
  | bell => bq_peaking
  end.

Definition buildEQChain (path : Path) (eqCurve : list EQBand) : Path :=
  fold_left
    (fun currentPath band =>
       if eq_enabled band then
         currentPath ++ [EqNode (biquadType (type band)) (frequency band) (gain band) (q band)]
       else currentPath)
    eqCurve path.

Definition buildCompressor (path : Path) (settings : CompressionSettings) : Path :=
  let path :=
    path ++ [Compressor (threshold settings) (ratio settings)
                        (attack settings / 1000) (release settings / 1000)] in
  if Qneqb (makeupGain settings) 0 then path ++ [MakeupGain (makeupGain settings)]
  else path.

Definition buildSaturation (path : Path) (settings : SaturationSettings) : Path :=
  let path := path ++ [SaturationNode (drive settings) (character settings)] in
  if Qltb (mix settings) 100 then
    path ++ [Mixer (mix settings / 100) ((100 - mix settings) / 100)]
  else path.

Definition buildStereoWidth (path : Path) (settings : StereoWidthSettings) : Path :=
  path ++ [StereoWidth (sw_width settings / 100)].

Definition buildLimiter (path : Path) (settings : LimiterSettings) : Path :=
  path ++ [Limiter (ceiling settings) 20 0.001 (lim_release settings / 1000)].

Definition buildChain (processingResult : MacroProcessingResult) : Path :=
  let currentNode := [InputNode] in
  let currentNode := buildEQChain currentNode (eqCurve processingResult) in
  let currentNode :=
    if comp_enabled (compression processingResult)
    then buildCompressor currentNode (compression processingResult)
    else currentNode in
  let currentNode :=
    if sat_enabled (saturation processingResult)
    then buildSaturation currentNode (saturation processingResult)
    else currentNode in
  let currentNode :=
    if sw_enabled (stereoWidth processingResult)
    then buildStereoWidth currentNode (stereoWidth processingResult)
    else currentNode in
  let currentNode := currentNode ++ [GainCompensation] in
  let currentNode := buildLimiter currentNode (limiterSettings processingResult) in
  currentNode ++ [OutputNode].

(** What the mid/side network of [buildStereoWidth] does to one stereo
    sample [(l, r)]: every gain node outputs its gain times the sum of its
    inputs. *)
Definition stereoWidthSample (settings : StereoWidthSettings) (l r : Q) : Q * Q :=
  let leftGain := l in
  let rightGain := r in
  let midLeft := 0.5 * (leftGain + rightGain) in
  let sideLeft := 0.5 * leftGain in
  let sideRight := -0.5 * rightGain in
  let midGain := midLeft in
  let widthMultiplier := sw_width settings / 100 in
  let sideGain := widthMultiplier * (sideLeft + sideRight) in
  let sideInvert := -1 * sideGain in
  let outLeft := midGain + sideGain in
  let outRight := midGain + sideInvert in
  (outLeft, outRight).

(** *** The engine's registry of chains

    [effectChains] is the [Map] from stem ids to chains, in insertion
    order.  A chain is identified by the result it was built from;
    [disposed] lists the chains [dispose()] has been called on, the
    latest first. *)
Definition Chain : Type := MacroProcessingResult.

Record Engine : Type := mkEngine {
  effectChains : list (string * Chain);
  disposed : list Chain
}.

Definition emptyEngine : Engine := mkEngine [] [].

(** [Map.get], [Map.set], [Map.delete]. *)
Fixpoint map_get (key : string) (m : list (string * Chain)) : option Chain :=
  match m with
  | [] => None
  | (k, v) :: rest => if String.eqb k key then Some v else map_get key rest
  end.

Fixpoint map_set (key : string) (value : Chain) (m : list (string * Chain))
  : list (string * Chain) :=
  match m with
  | [] => [(key, value)]
  | (k, v) :: rest =>
      if String.eqb k key then (k, value) :: rest
      else (k, v) :: map_set key value rest
  end.

Fixpoint map_delete (key : string) (m : list (string * Chain))
  : list (string * Chain) :=
  match m with
  | [] => []
  | (k, v) :: rest =>
      if String.eqb k key then rest else (k, v) :: map_delete key rest
  end.

Definition getEffectChain (stemId : string) (e : Engine) : option Chain :=
  map_get stemId (effectChains e).

Definition createEffectChain (stemId : string) (processingResult : MacroProcessingResult)
           (e : Engine) : Engine :=
  let disposed :=
    match map_get stemId (effectChains e) with
    | Some existingChain => existingChain :: disposed e
    | None => disposed e
    end in
  let chain := processingResult in
  mkEngine (map_set stemId chain (effectChains e)) disposed.

Definition removeEffectChain (stemId : string) (e : Engine) : Engine :=
  match map_get stemId (effectChains e) with
  | Some chain => mkEngine (map_delete stemId (effectChains e)) (chain :: disposed e)
  | None => e
  end.

Definition dispose (e : Engine) : Engine :=
  mkEngine [] (rev (map snd (effectChains e)) ++ disposed e).

(** The calls made on an engine. *)
Inductive Call : Type :=
  | CreateEffectChain (stemId : string) (processingResult : MacroProcessingResult)
  | RemoveEffectChain (stemId : string)
  | Dispose.

Definition call (e : Engine) (c : Call) : Engine :=
  match c with
  | CreateEffectChain stemId r => createEffectChain stemId r e
  | RemoveEffectChain stemId => removeEffectChain stemId e
  | Dispose => dispose e
  end.

Definition calls (cs : list Call) : Engine := fold_left call cs emptyEngine.

Definition created (cs : list Call) : nat :=
  List.length (filter (fun c => match c with CreateEffectChain _ _ => true | _ => false end) cs).

End AudioEffectsEngine.

(** ** sidechainDucker.ts *)

Module SidechainDucker.

Record DuckingSettings : Type := mkDucking {
  enabled : bool;
  sourceFreqMin : Q;
  sourceFreqMax : Q;
  targetStem : string;
  sourceStem : string;
  assistantValue : Q;
  threshold : Q;
  ratio : Q;
  attack : Q;
  release : Q
}.

Definition set_enabled (b : bool) (s : DuckingSettings) : DuckingSettings :=
  mkDucking b (sourceFreqMin s) (sourceFreqMax s) (targetStem s) (sourceStem s)
            (assistantValue s) (threshold s) (ratio s) (attack s) (release s).

(** One call [gain.setTargetAtTime(target, startTime, timeConstant)]. *)
Record SetTarget : Type := mkSetTarget {
  target : Q;
  startTime : Q;
  timeConstant : Q
}.

(** A gain node the ducker created: the automation calls made on its
    [gain] parameter so far, the latest first.  A fresh node has none. *)
Definition GainNode : Type := list SetTarget.

(** The only function the ducker ever stores in
    [envelopeFollower.onLevelChange]: the closure of [updateDucking].  It
    captures [this], so it reads the settings and the target node the
    ducker has when it is called. *)
Inductive Callback : Type := duckTarget.

Record EnvelopeFollower : Type := mkFollower {
  sensitivity : Q;
  onLevelChange : option Callback
}.

(** The fields of the ducker that decide the target's gain; the filters
    and the companion compressor never touch it. *)
Record Ducker : Type := mkDucker {
  settings : DuckingSettings;
  sourceStemNode : option GainNode;
  targetStemNode : option GainNode;
  envelopeFollower : EnvelopeFollower;
  isActive : bool
}.

Definition constructor (initialSettings : DuckingSettings) : Ducker :=
  mkDucker initialSettings None None (mkFollower 0.8 None) false.

Definition updateDucking (d : Ducker) : Ducker :=
  match enabled (settings d), sourceStemNode d, targetStemNode d with
  | true, Some _, Some _ =>
      mkDucker (settings d) (sourceStemNode d) (targetStemNode d)
               (mkFollower (sensitivity (envelopeFollower d)) (Some duckTarget))
               true
  | _, _, _ => d
  end.

Definition disconnect (d : Ducker) : Ducker :=
  mkDucker (settings d) None None (envelopeFollower d) false.

Definition connectSource (d : Ducker) : Ducker :=
  let d := match sourceStemNode d with Some _ => disconnect d | None => d end in
  updateDucking
    (mkDucker (settings d) (Some []) (targetStemNode d) (envelopeFollower d)
              (isActive d)).

Definition connectTarget (d : Ducker) : Ducker :=
  updateDucking
    (mkDucker (settings d) (sourceStemNode d) (Some []) (envelopeFollower d)
              (isActive d)).

Definition enable (d : Ducker) : Ducker :=
  updateDucking
    (mkDucker (set_enabled true (settings d)) (sourceStemNode d)
              (targetStemNode d) (envelopeFollower d) (isActive d)).

(** [disable()], called when [audioContext.currentTime] is [now]. *)
Definition disable (now : Q) (d : Ducker) : Ducker :=
  mkDucker (set_enabled false (settings d)) (sourceStemNode d)
           (match targetStemNode d with
            | Some g => Some (mkSetTarget 1 now 0.05 :: g)
            | None => None
            end)
           (envelopeFollower d) false.

(** The body of the closure installed by [updateDucking], called with
    [level] at time [now]. *)
Definition levelChanged (now level : Q) (d : Ducker) : Ducker :=
  match targetStemNode d with
  | None => d
  | Some g =>
      let duckingAmount := level * assistantValue (settings d) in
      let targetGain := 1 - duckingAmount in
      mkDucker (settings d) (sourceStemNode d)
               (Some (mkSetTarget (Qmax 0.1 targetGain) now 0.01 :: g))
               (envelopeFollower d) (isActive d)
  end.

(** One firing of the envelope follower's 10 ms interval timer, at time
    [now], when the analyser's data has root mean square [rms]. *)
Definition monitor (now rms : Q) (d : Ducker) : Ducker :=
  match onLevelChange (envelopeFollower d) with
  | None => d
  | Some duckTarget =>
      let scaledLevel := rms * sensitivity (envelopeFollower d) in
      levelChanged now scaledLevel d
  end.

(** What happens to a ducker: its methods and the timer. *)
Inductive Event : Type :=
  | EConnectSource | EConnectTarget | EEnable | EDisconnect
  | EDisable (now : Q)
  | EMonitor (now rms : Q).

Definition step (d : Ducker) (e : Event) : Ducker :=
  match e with
  | EConnectSource => connectSource d
  | EConnectTarget => connectTarget d
  | EEnable => enable d
  | EDisconnect => disconnect d
  | EDisable now => disable now d
  | EMonitor now rms => monitor now rms d
  end.

Definition run (d : Ducker) (es : list Event) : Ducker := fold_left step es d.

(** The value the target's gain is heading for: the target of the latest
    [setTargetAtTime] call, or the default gain 1 of a fresh node. *)
Definition headingFor (g : GainNode) : Q :=
  match g with
  | [] => 1
  | e :: _ => target e
  end.

(** The settings the processing chain manager starts from
    ([createDefaultDucking]). *)
Definition createDefaultDucking : DuckingSettings :=
  mkDucking false 1000 4000 "" "" 0.8 (-20) 4 1 100.

(** *** [configure]

    A [Partial<DuckingSettings>]: the fields the caller passes. *)
Record PartialDucking : Type := mkPartial {
  p_enabled : option bool;
  p_sourceFreqMin : option Q;
  p_sourceFreqMax : option Q;
  p_targetStem : option string;
  p_sourceStem : option string;
  p_assistantValue : option Q;
  p_threshold : option Q;
  p_ratio : option Q;
  p_attack : option Q;
  p_release : option Q
}.

Definition orKeep {A : Type} (new : option A) (old : A) : A :=
  match new with
  | Some v => v
  | None => old
  end.

(** [Object.assign(this.settings, newSettings)]. *)
Definition assign (s : DuckingSettings) (p : PartialDucking) : DuckingSettings :=
  mkDucking (orKeep (p_enabled p) (enabled s))
            (orKeep (p_sourceFreqMin p) (sourceFreqMin s))
            (orKeep (p_sourceFreqMax p) (sourceFreqMax s))
            (orKeep (p_targetStem p) (targetStem s))
            (orKeep (p_sourceStem p) (sourceStem s))
            (orKeep (p_assistantValue p) (assistantValue s))
            (orKeep (p_threshold p) (threshold s))
            (orKeep (p_ratio p) (ratio s))
            (orKeep (p_attack p) (attack s))
            (orKeep (p_release p) (release s)).

(** [EnvelopeFollower.setSensitivity]. *)
Definition setSensitivity (sensitivity : Q) (f : EnvelopeFollower) : EnvelopeFollower :=
  mkFollower (Qmax 0 (Qmin 1 sensitivity)) (onLevelChange f).

(** [configure(newSettings)]: the settings are merged and the follower's
    sensitivity is set from the assistant value; the filter and compressor
    parameters it also schedules do not reach the target's gain. *)
Definition configure (newSettings : PartialDucking) (d : Ducker) : Ducker :=
  let settings := assign (settings d) newSettings in
  mkDucker settings (sourceStemNode d) (targetStemNode d)
           (setSensitivity (assistantValue settings) (envelopeFollower d))
           (isActive d).

(** The calls made on a ducker, [configure] included, and the timer. *)
Inductive Action : Type :=
  | AEvent (e : Event)
  | AConfigure (newSettings : PartialDucking).

Definition act (d : Ducker) (a : Action) : Ducker :=
  match a with
  | AEvent e => step d e
  | AConfigure p => configure p d
  end.

Definition perform (d : Ducker) (actions : list Action) : Ducker :=
  fold_left act actions d.

(** [getAnalysisData().duckingActive]. *)
Definition duckingActive (d : Ducker) : bool := isActive d && enabled (settings d).

End SidechainDucker.

(** ** processingChainManager.ts: construction of the manager *)

Module ProcessingChainManager.

(** A statement either completes with a value or throws. *)
Inductive Completion (A : Type) : Type :=
  | Normal (value : A)
  | Throw (error : string).
Arguments Normal {A} value.
Arguments Throw {A} error.

Definition bind {A B : Type} (c : Completion A) (k : A -> Completion B) : Completion B :=
  match c with
  | Normal a => k a
  | Throw e => Throw e
  end.

Inductive Value : Type :=
  | VNum (n : Q)
  | VBool (b : bool)
  | VStr (s : string).

Record EQBand : Type := mkBand {
  band_id : string;
  band_frequency : Q;
  band_gain : Q;
  band_q : Q;
  band_type : MacroProcessor.EQType;
  band_enabled : bool;
  isDynamic : bool;
  band_threshold : Q;
  band_ratio : Q;
  band_attack : Q;
  band_release : Q;
  midSideMode : string
}.

(** A module of the chain; the dynamic EQ module has bands as well. *)
Record ProcessingModule : Type := mkModule {
  module_id : string;
  module_name : string;
  module_enabled : bool;
  parameters : list (string * Value);
  bands : list EQBand
}.

Record GlobalSnapshot : Type := mkSnapshot {
  snapshot_id : string;
  snapshot_name : string;
  timestamp : Q;
  snapshot_chain : list ProcessingModule
}.

Record GlobalSettings : Type := mkGlobal {
  snapshots : list GlobalSnapshot;
  currentSnapshot : nat;
  gainMatch : bool;
  ducking : SidechainDucker.DuckingSettings
}.

Record ProcessingChain : Type := mkChain {
  modules : list ProcessingModule;
  globalSettings : GlobalSettings
}.

Definition createHPFModule : ProcessingModule :=
  mkModule "hpf" "High Pass Filter" false
           [("frequency", VNum 20); ("slope", VNum 12); ("resonance", VNum 0.707)]%string [].

Definition createEQBand (id : string) (frequency gain q : Q) (type : MacroProcessor.EQType)
  : EQBand :=
  mkBand id frequency gain q type false false (-20) 2 10 100 "stereo".

Definition createDynamicEQModule : ProcessingModule :=
  mkModule "eq" "Dynamic EQ" true []
           [createEQBand "low" 80 0 0.707 MacroProcessor.highpass;
            createEQBand "low-mid" 200 0 1.0 MacroProcessor.bell;
            createEQBand "mid" 1000 0 1.0 MacroProcessor.bell;
            createEQBand "high-mid" 3000 0 1.0 MacroProcessor.bell;
            createEQBand "presence" 8000 0 1.0 MacroProcessor.bell;
            createEQBand "air" 12000 0 0.707 MacroProcessor.highshelf].

Definition createCompressorModule : ProcessingModule :=
  mkModule "compressor" "Compressor" false
           [("threshold", VNum (-12)); ("ratio", VNum 4); ("attack", VNum 10);
            ("release", VNum 100); ("knee", VNum 2); ("makeupGain", VNum 0);
            ("lookahead", VNum 5); ("sidechain", VBool false)]%string [].

Definition createSaturatorModule : ProcessingModule :=
  mkModule "saturator" "Saturator" false
           [("drive", VNum 0); ("character", VStr "warm"); ("mix", VNum 100);
            ("outputGain", VNum 0)]%string [].

Definition createStereoWidthModule : ProcessingModule :=
  mkModule "stereo_width" "Stereo Width" false
           [("width", VNum 100); ("bassMonoFreq", VNum 120);
            ("bassMonoEnabled", VBool true); ("correlation", VNum 0.5)]%string [].

Definition createLimiterModule : ProcessingModule :=
  mkModule "limiter" "Limiter" true
           [("ceiling", VNum (-0.1)); ("release", VNum 50); ("isr", VNum 4);
            ("character", VStr "transparent")]%string [].

(** [name.toLowerCase()] on the letters A to Z. *)
Fixpoint toLowerCase (name : string) : string :=
  match name with
  | EmptyString => EmptyString
  | String c rest =>
      let n := Ascii.nat_of_ascii c in
      String (if ((65 <=? n) && (n <=? 90))%nat then Ascii.ascii_of_nat (n + 32) else c)
             (toLowerCase rest)
  end.

(** [createDefaultSnapshot(name)], called when [this.chain] is [chain]
    ([None] when the field is still undefined) and [Date.now()] is [now]:
    reading [this.chain.modules] throws on an undefined [this.chain]. *)
Definition createDefaultSnapshot (chain : option ProcessingChain) (now : Q) (name : string)
  : Completion GlobalSnapshot :=
  match chain with
  | None => Throw "TypeError: Cannot read properties of undefined (reading 'modules')"
  | Some c =>
      Normal (mkSnapshot ("snapshot_" ++ toLowerCase name) ("Snapshot " ++ name) now
                         (modules c))
  end.

(** [createDefaultChain()]: the properties of the literal are evaluated in
    the order they are written. *)
Definition createDefaultChain (chain : option ProcessingChain) (now : Q)
  : Completion ProcessingChain :=
  let modules :=
    [createHPFModule; createDynamicEQModule; createCompressorModule;
     createSaturatorModule; createStereoWidthModule; createLimiterModule] in
  bind (createDefaultSnapshot chain now "A") (fun a =>
  bind (createDefaultSnapshot chain now "B") (fun b =>
  bind (createDefaultSnapshot chain now "C") (fun c =>
  Normal (mkChain modules
                  (mkGlobal [a; b; c] 0 true SidechainDucker.createDefaultDucking))))).

(** The constructor: the analyser node and the two analyzers are created,
    then [this.chain = this.createDefaultChain()] runs while [this.chain]
    has not been assigned yet. *)
Definition constructor (now : Q) : Completion ProcessingChain :=
  let chain : option ProcessingChain := None in
  createDefaultChain chain now.

End ProcessingChainManager.

(** ** stemAnalysis.ts *)

Module StemAnalyzer.

Record EnergyDistribution : Type := mkEnergy {
  subBass : Q;
  bass : Q;
  lowMid : Q;
  mid : Q;
  highMid : Q;
  presence : Q;
  brilliance : Q
}.

Record AudioFeatures : Type := mkFeatures {
  spectralCentroid : Q;
  spectralRolloff : Q;
  zeroCrossingRate : Q;
  mfcc : list Q;
  chromaFeatures : list Q;
  tempoPeaks : list Q;
  dynamicRange : Q;
  fundamentalFreq : Q;
  harmonicRatio : Q;
  percussiveRatio : Q;
  energyDistribution : EnergyDistribution
}.

Record StemAnalysisResult : Type := mkAnalysis {
  stemId : string;
  detectedRole : StemRole;
  confidence : Q;
  features : AudioFeatures;
  reasoning : string
}.

(** [Object.values(energyDistribution)], in the order the fields are
    written. *)
Definition values (e : EnergyDistribution) : list Q :=
  [subBass e; bass e; lowMid e; mid e; highMid e; presence e; brilliance e].

Definition hasVocalFormants (f : AudioFeatures) : bool :=
  let e := energyDistribution f in
  Qgtb (mid e) 0.25 && Qgtb (highMid e) 0.2 && Qgtb (presence e) 0.15.

Definition isFullSpectrum (e : EnergyDistribution) : bool :=
  let bands := values e in
  let nonZeroBands := List.length (filter (fun val => Qgtb val 0.05) bands) in
  (5 <=? nonZeroBands)%nat.

Definition hasMultiplePercussiveElements (f : AudioFeatures) : bool :=
  let e := energyDistribution f in
  let percussiveBands :=
    List.length (filter (fun b : bool => b)
                   [Qgtb (bass e) 0.2; Qgtb (lowMid e) 0.2; Qgtb (brilliance e) 0.2]) in
  (2 <=? percussiveBands)%nat && (3 <? List.length (tempoPeaks f))%nat.

(** The [scores] object: its keys in insertion order with their values. *)
Definition Scores : Type := list (StemRole * Q).

Definition initialScores : Scores :=
  [(KICK, 0); (SNARE, 0); (HIHAT, 0); (BASS, 0); (VOCAL, 0); (LEAD, 0);
   (PAD, 0); (DRUMS, 0); (PERCUSSION, 0); (OTHER, 0.1)].

(** [scores[role] += w] on a key the object has. *)
Fixpoint add_score (role : StemRole) (w : Q) (scores : Scores) : Scores :=
  match scores with
  | [] => []
  | (k, v) :: rest =>
      if StemRole_eqb k role then (k, v + w) :: rest
      else (k, v) :: add_score role w rest
  end.

(** [if (cond) scores[role] += w]. *)
Definition when (cond : bool) (role : StemRole) (w : Q) (scores : Scores) : Scores :=
  if cond then add_score role w scores else scores.

Definition computeScores (f : AudioFeatures) : Scores :=
  let e := energyDistribution f in
  let spectralCentroid := spectralCentroid f in
  let dynamicRange := dynamicRange f in
  let percussiveRatio := percussiveRatio f in
  let fundamentalFreq := fundamentalFreq f in
  let scores := initialScores in
  (* KICK *)
  let scores := when (Qgtb (subBass e) 0.3 && Qgtb (bass e) 0.4) KICK 0.6 scores in
  let scores := when (Qltb spectralCentroid 200 && Qgtb percussiveRatio 0.7) KICK 0.4 scores in
  let scores := when (Qgeb fundamentalFreq 40 && Qle_bool fundamentalFreq 80) KICK 0.3 scores in
  (* SNARE *)
  let scores := when (Qgtb (lowMid e) 0.3 && Qgtb (presence e) 0.3) SNARE 0.5 scores in
  let scores := when (Qgeb spectralCentroid 200 && Qle_bool spectralCentroid 1000
                      && Qgtb percussiveRatio 0.6) SNARE 0.4 scores in
  let scores := when (Qgtb dynamicRange 20) SNARE 0.2 scores in
  (* HIHAT *)
  let scores := when (Qgtb (brilliance e) 0.4 && Qgtb (presence e) 0.3) HIHAT 0.6 scores in
  let scores := when (Qgtb spectralCentroid 3000 && Qgtb percussiveRatio 0.8) HIHAT 0.4 scores in
  (* BASS *)
  let scores := when (Qgtb (bass e) 0.5 && Qgtb (subBass e) 0.2) BASS 0.6 scores in
  let scores := when (Qgeb fundamentalFreq 40 && Qle_bool fundamentalFreq 200
                      && Qltb percussiveRatio 0.4) BASS 0.4 scores in
  let scores := when (Qltb spectralCentroid 300) BASS 0.3 scores in
  (* VOCAL *)
  let scores := when (Qgtb (mid e) 0.3 && Qgtb (highMid e) 0.3) VOCAL 0.5 scores in
  let scores := when (Qgeb spectralCentroid 500 && Qle_bool spectralCentroid 2000)
                     VOCAL 0.4 scores in
  let scores := when (hasVocalFormants f) VOCAL 0.4 scores in
  (* LEAD *)
  let scores := when (Qgtb (mid e) 0.25 && Qgtb (highMid e) 0.25) LEAD 0.4 scores in
  let scores := when (Qgeb spectralCentroid 400 && Qle_bool spectralCentroid 3000)
                     LEAD 0.3 scores in
  let scores := when (Qgtb (harmonicRatio f) 0.6) LEAD 0.3 scores in
  (* PAD *)
  let scores := when (Qltb percussiveRatio 0.2 && Qltb dynamicRange 10) PAD 0.5 scores in
  let scores := when (isFullSpectrum e) PAD 0.4 scores in
  (* DRUMS *)
  let scores := when (Qgtb percussiveRatio 0.6 && Qgtb dynamicRange 15) DRUMS 0.4 scores in
  let scores := when (hasMultiplePercussiveElements f) DRUMS 0.5 scores in
  scores.

(** The callback of [Object.entries(scores).forEach], on the pair
    [(maxScore, detectedRole)]. *)
Definition pick (acc : Q * StemRole) (entry : StemRole * Q) : Q * StemRole :=
  let '(maxScore, detectedRole) := acc in
  let '(role, score) := entry in
  if Qgtb score maxScore then (score, role) else (maxScore, detectedRole).

Definition detectRole (f : AudioFeatures) : StemRole :=
  snd (fold_left pick (computeScores f) (0, OTHER)).

Definition calculateConfidence (f : AudioFeatures) (role : StemRole) : Q :=
  let e := energyDistribution f in
  let confidence := 0.5 in
  let confidence :=
    match role with
    | KICK =>
        let c := if Qgtb (subBass e) 0.4 then confidence + 0.3 else confidence in
        if Qltb (spectralCentroid f) 150 then c + 0.2 else c
    | SNARE =>
        let c := if Qgtb (lowMid e) 0.3 && Qgtb (presence e) 0.2
                 then confidence + 0.3 else confidence in
        if Qgtb (percussiveRatio f) 0.7 then c + 0.2 else c
    | BASS =>
        let c := if Qgtb (bass e) 0.5 then confidence + 0.3 else confidence in
        if Qltb (spectralCentroid f) 250 then c + 0.2 else c
    | VOCAL =>
        let c := if hasVocalFormants f then confidence + 0.4 else confidence in
        if Qgtb (mid e) 0.3 then c + 0.1 else c
    | _ => 0.3
    end in
  Qmin 1.0 (Qmax 0.1 confidence).

Definition getDefaultFeatures : AudioFeatures :=
  mkFeatures 1000 5000 0.1 (repeat 0 13) (repeat 0.083 12) [] 20 440 0.5 0.3
             (mkEnergy 0.1 0.15 0.15 0.25 0.15 0.1 0.1).

(** *** Feature extraction helpers

    A [Float32Array] is a list of samples; the loops below index inside
    the array only. *)

(** The loop of [calculateZeroCrossingRate] from index [i] on, with
    [data\[i - 1\] = prev]: the number of crossings it counts. *)
Fixpoint countCrossings (prev : Q) (rest : list Q) : nat :=
  match rest with
  | [] => 0
  | x :: rest' =>
      (if Bool.eqb (Qgeb x 0) (Qgeb prev 0) then 0 else 1) + countCrossings x rest'
  end.

(** [crossings / data.length]; on an empty array JavaScript divides 0 by
    0, which no rational stands for. *)
Definition calculateZeroCrossingRate (data : list Q) : Q :=
  let crossings :=
    match data with
    | [] => 0%nat
    | first :: rest => countCrossings first rest
    end in
  inject_Z (Z.of_nat crossings) / inject_Z (Z.of_nat (List.length data)).

(** The FFT of the source: real part the sample, imaginary part 0. *)
Definition performFFT (data : list Q) : list Q :=
  flat_map (fun x => [x; 0]) data.

(** The [if] chain of the loop of [calculateEnergyDistribution]: the
    magnitude is added to the band the frequency falls in. *)
Definition addToBand (bands : EnergyDistribution) (frequency magnitude : Q)
  : EnergyDistribution :=
  if Qltb frequency 60 then
    mkEnergy (subBass bands + magnitude) (bass bands) (lowMid bands) (mid bands)
             (highMid bands) (presence bands) (brilliance bands)
  else if Qltb frequency 250 then
    mkEnergy (subBass bands) (bass bands + magnitude) (lowMid bands) (mid bands)
             (highMid bands) (presence bands) (brilliance bands)
  else if Qltb frequency 500 then
    mkEnergy (subBass bands) (bass bands) (lowMid bands + magnitude) (mid bands)
             (highMid bands) (presence bands) (brilliance bands)
  else if Qltb frequency 2000 then
    mkEnergy (subBass bands) (bass bands) (lowMid bands) (mid bands + magnitude)
             (highMid bands) (presence bands) (brilliance bands)
  else if Qltb frequency 4000 then
    mkEnergy (subBass bands) (bass bands) (lowMid bands) (mid bands)
             (highMid bands + magnitude) (presence bands) (brilliance bands)
  else if Qltb frequency 6000 then
    mkEnergy (subBass bands) (bass bands) (lowMid bands) (mid bands)
             (highMid bands) (presence bands + magnitude) (brilliance bands)
  else
    mkEnergy (subBass bands) (bass bands) (lowMid bands) (mid bands)
             (highMid bands) (presence bands) (brilliance bands + magnitude).

(** The inner loop of [estimateFundamentalFreq]: the correlation of the
    window with itself shifted by [period]. *)
Definition autocorrelation (data : list Q) (period : nat) : Q :=
  fold_left
    (fun correlation i => correlation + nth i data 0 * nth (i + period) data 0)
    (seq 0 (List.length data - period)) 0.

(** The outer loop from [period] on, at most [fuel] iterations: it runs
    while [period <= maxPeriod && period < data.length / 2] and keeps the
    first period with the largest correlation seen. *)
Fixpoint periodLoop (fuel period maxPeriod : nat) (data : list Q)
         (best : nat * Q) : nat * Q :=
  match fuel with
  | O => best
  | S fuel' =>
      if ((period <=? maxPeriod) && (2 * period <? List.length data))%nat then
        let correlation := autocorrelation data period in
        let best :=
          if Qgtb correlation (snd best) then (period, correlation) else best in
        periodLoop fuel' (S period) maxPeriod data best
      else best
  end.

(** [estimateFundamentalFreq], for a sample rate that is not negative;
    [Math.floor] is [Qfloor]. *)
Definition estimateFundamentalFreq (data : list Q) (sampleRate : Q) : Q :=
  let minPeriod := Z.to_nat (Qfloor (sampleRate / 800)) in
  let maxPeriod := Z.to_nat (Qfloor (sampleRate / 50)) in
  let best := periodLoop (S maxPeriod - minPeriod) minPeriod maxPeriod data (minPeriod, 0) in
  let bestPeriod := fst best in
  sampleRate / inject_Z (Z.of_nat bestPeriod).

Section Spectral.

(** [Math.sqrt]. *)
Variable sqrt : Q -> Q.

(** [Math.sqrt(fft\[i * 2\] ** 2 + fft\[i * 2 + 1\] ** 2)]. *)
Definition magnitudeAt (fft : list Q) (i : nat) : Q :=
  sqrt (nth (i * 2) fft 0 ^ 2 + nth (i * 2 + 1) fft 0 ^ 2).

Definition calculateSpectralCentroid (data : list Q) (sampleRate : Q) : Q :=
  let fft := performFFT data in
  let sums :=
    fold_left
      (fun (acc : Q * Q) (i : nat) =>
         let frequency :=
           (inject_Z (Z.of_nat i) * sampleRate) / inject_Z (Z.of_nat (List.length fft)) in
         let magnitude := magnitudeAt fft i in
         (fst acc + frequency * magnitude, snd acc + magnitude))
      (seq 0 (List.length fft / 2)) (0, 0) in
  let weightedSum := fst sums in
  let magnitudeSum := snd sums in
  if Qgtb magnitudeSum 0 then weightedSum / magnitudeSum else 0.

Definition calculateEnergyDistribution (data : list Q) (sampleRate : Q)
  : EnergyDistribution :=
  let fft := performFFT data in
  let binSize := sampleRate / inject_Z (Z.of_nat (List.length fft)) in
  let bands :=
    fold_left
      (fun (bands : EnergyDistribution) (i : nat) =>
         let frequency := inject_Z (Z.of_nat i) * binSize in
         let magnitude := magnitudeAt fft i in
         addToBand bands frequency magnitude)
      (seq 0 (List.length fft / 2)) (mkEnergy 0 0 0 0 0 0 0) in
  let total := fold_left (fun sum val => sum + val) (values bands) 0 in
  if Qgtb total 0 then
    mkEnergy (subBass bands / total) (bass bands / total) (lowMid bands / total)
             (mid bands / total) (highMid bands / total) (presence bands / total)
             (brilliance bands / total)
  else bands.

End Spectral.

Record Stem (AudioBuffer : Type) : Type := mkStem {
  id : string;
  buffer : AudioBuffer
}.
Arguments mkStem {AudioBuffer} _ _.
Arguments id {AudioBuffer} _.
Arguments buffer {AudioBuffer} _.

Section Analysis.

(** The decoded audio of a stem, the value thrown by a failing
    extraction, and [extractAudioFeatures]: the method builds an
    offline audio context and typed arrays over the buffer and either
    returns the features or throws. *)
Variable AudioBuffer : Type.
Variable Error : Type.
Variable extractAudioFeatures : AudioBuffer -> Error + AudioFeatures.

(** [x.toFixed(digits)]. *)
Variable toFixed : nat -> Q -> string.

Definition generateReasoning (f : AudioFeatures) (role : StemRole) : string :=
  let e := energyDistribution f in
  let spectralCentroid := spectralCentroid f in
  let percussiveRatio := percussiveRatio f in
  match role with
  | KICK =>
      "Strong sub-bass energy (" ++ toFixed 1 (subBass e * 100)
      ++ "%), low spectral centroid (" ++ toFixed 0 spectralCentroid
      ++ "Hz), high percussive content (" ++ toFixed 1 (percussiveRatio * 100)
      ++ "%)"
  | SNARE =>
      "Mid-range energy with presence peaks, percussive transients ("
      ++ toFixed 1 (percussiveRatio * 100) ++ "%), spectral centroid at "
      ++ toFixed 0 spectralCentroid ++ "Hz"
  | BASS =>
      "Dominant bass frequencies (" ++ toFixed 1 (bass e * 100)
      ++ "%), low spectral centroid (" ++ toFixed 0 spectralCentroid
      ++ "Hz), sustained character"
  | VOCAL =>
      "Mid-frequency dominance with vocal formant structure, spectral centroid at "
      ++ toFixed 0 spectralCentroid ++ "Hz, harmonic content"
  | HIHAT =>
      "High-frequency dominance (" ++ toFixed 1 (brilliance e * 100)
      ++ "%), very percussive (" ++ toFixed 1 (percussiveRatio * 100)
      ++ "%), spectral centroid > 3kHz"
  | _ =>
      "Mixed frequency content, spectral centroid at "
      ++ toFixed 0 spectralCentroid ++ "Hz, moderate characteristics"
  end%string.

(** The [try] block of the loop body. *)
Definition analyzed (stem : Stem AudioBuffer) (f : AudioFeatures)
  : StemAnalysisResult :=
  let role := detectRole f in
  let confidence := calculateConfidence f role in
  let reasoning := generateReasoning f role in
  mkAnalysis (id stem) role confidence f reasoning.

(** The [catch] block of the loop body. *)
Definition fallback (stem : Stem AudioBuffer) : StemAnalysisResult :=
  mkAnalysis (id stem) OTHER 0.1 getDefaultFeatures
             "Analysis failed, assigned generic role".

(** One iteration of the loop of [analyzeStems]: the result pushed for
    [stem].  (The [console.error] of the [catch] block is not part of
    the returned value.) *)
Definition analyzeStem (stem : Stem AudioBuffer) : StemAnalysisResult :=
  match extractAudioFeatures (buffer stem) with
  | inr f => analyzed stem f
  | inl _ => fallback stem
  end.

Definition analyzeStems (audioBuffers : list (Stem AudioBuffer))
  : list StemAnalysisResult :=
  fold_left (fun results stem => results ++ [analyzeStem stem]) audioBuffers [].

End Analysis.

Arguments analyzed {AudioBuffer} toFixed stem f.
Arguments fallback {AudioBuffer} stem.
Arguments analyzeStem {AudioBuffer Error} extractAudioFeatures toFixed stem.
Arguments analyzeStems {AudioBuffer Error} extractAudioFeatures toFixed audioBuffers.

End StemAnalyzer.

(** ** The clamp of the specification

    The specification speaks of macros clamped into [0,100] at the mapper
    boundary.  The source has no such function; these two definitions
    follow the specification's words, to be compared with the mapper. *)

Definition spec_clampMacro (x : Q) : Q :=
  if Qltb x 0 then 0 else if Qgtb x 100 then 100 else x.

Definition spec_clampMacros (s : MixerSettings) : MixerSettings :=
  mkMixerSettings (previewLUFS s) (streamLUFS s) (peakCeiling s)
                  (spec_clampMacro (punch s)) (spec_clampMacro (warmth s))
                  (spec_clampMacro (clarity s)) (spec_clampMacro (air s))
                  (spec_clampMacro (width s)) (spec_clampMacro (reverb s)).

Definition macro_in_range (x : Q) : Prop := 0 <= x /\ x <= 100.

Definition macros_in_range (s : MixerSettings) : Prop :=
  macro_in_range (punch s) /\ macro_in_range (warmth s) /\
  macro_in_range (clarity s) /\ macro_in_range (air s) /\
  macro_in_range (width s) /\ macro_in_range (reverb s).

(** The settings the application starts from (App.tsx), and sample
    settings used below. *)
Definition initialSettings : MixerSettings :=
  mkMixerSettings (-18) (-14) (-1) 0 0 0 0 0 0.

Definition clubReady : MixerSettings :=
  mkMixerSettings (-16) (-12) (-0.5) 100 40 60 60 70 30.

Definition punch200 : MixerSettings :=
  mkMixerSettings (-18) (-14) (-1) 200 0 0 0 0 0.

Definition negativeGated : MixerSettings :=
  mkMixerSettings (-18) (-14) (-1) (-10) (-10) (-10) 30 70 50.

Definition allMacros200 : MixerSettings :=
  mkMixerSettings (-18) (-14) (-1) 200 200 200 200 200 200.

Definition warmAndPunchy : MixerSettings :=
  mkMixerSettings (-18) (-14) (-1) 40 20 0 0 0 0.

Definition warmOnly : MixerSettings :=
  mkMixerSettings (-18) (-14) (-1) 0 20 0 0 0 0.

(** Two stems with disjoint spectra: each has energy in one bin only. *)
Definition lowStem : MaskingAnalyzer.StemSpectrum :=
  MaskingAnalyzer.mkStemSpectrum "kick" [1; 0].

Definition highStem : MaskingAnalyzer.StemSpectrum :=
  MaskingAnalyzer.mkStemSpectrum "vocal" [0; 1].

(** ** Vocabulary of the classifier's proofs *)

(** The roles a scoring rule adds to. *)
Definition scored (r : StemRole) : Prop :=
  In r [KICK; SNARE; HIHAT; BASS; VOCAL; LEAD; PAD; DRUMS].

(** The invariant of the [scores] object while the rules run: 'other'
    keeps its baseline 0.1, 'percussion' stays at 0, a scored role is
    either at 0 or has collected at least 0.2, and there is no other
    key. *)
Definition score_ok (entry : StemRole * Q) : Prop :=
  match fst entry with
  | OTHER => snd entry == 0.1
  | PERCUSSION => snd entry == 0
  | KICK | SNARE | HIHAT | BASS | VOCAL | LEAD | PAD | DRUMS =>
      snd entry == 0 \/ 0.2 <= snd entry
  | ARPEGGIO | HARMONY | FX => False
  end.

(** The feature set of the classifier boundary test of the
    specification. *)
Definition kickFeatures : StemAnalyzer.AudioFeatures :=
  StemAnalyzer.mkFeatures 100 5000 0.1 [] [] [] 20 60 0.5 0.9
    (StemAnalyzer.mkEnergy 0.5 0.5 0 0 0 0 0).

(** A feature set on which no rule fires. *)
Definition silentFeatures : StemAnalyzer.AudioFeatures :=
  StemAnalyzer.mkFeatures 5000 5000 0.1 [] [] [] 12 1000 0.5 0.5
    (StemAnalyzer.mkEnergy 0 0 0 0 0 0 0).

(** ** A sample run of the stem analysis

    Buffers are lists of samples; extraction throws on a buffer without
    samples and yields the kick feature set otherwise; numbers are not
    printed. *)
Definition sampleExtract (b : list Q) : string + StemAnalyzer.AudioFeatures :=
  match b with
  | [] => inl "empty channel data"%string
  | _ => inr kickFeatures
  end.

Definition sampleToFixed (digits : nat) (x : Q) : string := ""%string.

Definition sampleStems : list (StemAnalyzer.Stem (list Q)) :=
  [StemAnalyzer.mkStem "stem-1" [0.5; -0.5];
   StemAnalyzer.mkStem "stem-2" [];
   StemAnalyzer.mkStem "stem-3" [0.25]].

(** ** A sample session of the sidechain ducker

    A ducker built enabled from the default ducking settings, with source
    and target connected; the follower measures 0.5 before and after
    [disable()] is called at time 1. *)
Definition enabledDucking : SidechainDucker.DuckingSettings :=
  SidechainDucker.set_enabled true SidechainDucker.createDefaultDucking.

Definition duckerSession : list SidechainDucker.Event :=
  [SidechainDucker.EConnectSource; SidechainDucker.EConnectTarget;
   SidechainDucker.EMonitor 0.99 0.5].

Definition duckingDucker : SidechainDucker.Ducker :=
  SidechainDucker.run (SidechainDucker.constructor enabledDucking) duckerSession.

(** ** Vocabulary of the mapper's proofs *)

(** The bands each macro contributes to the EQ curve. *)
Definition clarityBands (s : MixerSettings) : list MacroProcessor.EQBand :=
  if Qgtb (clarity s) 0 then
    MacroProcessor.mkEQBand 8000 (MacroProcessor.mapRange (clarity s) 0 100 0 4) 0.7
                            MacroProcessor.highshelf true
    :: (if Qgtb (clarity s) 50 then
          [MacroProcessor.mkEQBand 350 (MacroProcessor.mapRange (clarity s) 50 100 0 (-2))
                                   1.2 MacroProcessor.bell true]
        else [])
  else [].

Definition warmthBands (s : MixerSettings) : list MacroProcessor.EQBand :=
  if Qgtb (warmth s) 0 then
    [MacroProcessor.mkEQBand 160 (MacroProcessor.mapRange (warmth s) 0 100 0 2) 0.7
                             MacroProcessor.lowshelf true;
     MacroProcessor.mkEQBand 4000 (MacroProcessor.mapRange (warmth s) 0 100 0 (-3)) 1.0
                             MacroProcessor.bell true]
  else [].

Definition airBands (s : MixerSettings) : list MacroProcessor.EQBand :=
  if Qneqb (air s) 0 then
    [MacroProcessor.mkEQBand 14000 (MacroProcessor.mapRange (air s) 0 100 0 3) 0.5
                             MacroProcessor.highshelf true]
  else [].

(** The gain of the clarity shelf (8000 Hz) of an EQ curve, 0 dB when the
    curve has no such band. *)
Definition clarityShelfGain (curve : list MacroProcessor.EQBand) : Q :=
  match find (fun b => Qeq_bool (MacroProcessor.frequency b) 8000) curve with
  | Some b => MacroProcessor.gain b
  | None => 0
  end.

(** The gain of the air shelf (14000 Hz) of an EQ curve, 0 dB when the
    curve has no such band. *)
Definition airShelfGain (curve : list MacroProcessor.EQBand) : Q :=
  match find (fun b => Qeq_bool (MacroProcessor.frequency b) 14000) curve with
  | Some b => MacroProcessor.gain b
  | None => 0
  end.

(** The settings on which the specification's clamp cannot be observed
    through the mapper: punch, warmth and clarity at most 100, and air,
    width and reverb in [0,100]. *)
Definition clamp_unobservable (s : MixerSettings) : Prop :=
  punch s <= 100 /\ warmth s <= 100 /\ clarity s <= 100 /\
  macro_in_range (air s) /\ macro_in_range (width s) /\ macro_in_range (reverb s).

Definition allMacrosZero (s : MixerSettings) : Prop :=
  punch s == 0 /\ warmth s == 0 /\ clarity s == 0 /\
  air s == 0 /\ width s == 0 /\ reverb s == 0.

Definition warmAndWide : MixerSettings :=
  mkMixerSettings (-18) (-14) (-1) 30 90 40 70 95 50.

(** ** Vocabulary of the chain builder's proofs *)

(** The filter node built for a band. *)
Definition eqNodeOf (band : MacroProcessor.EQBand) : AudioEffectsEngine.Node :=
  AudioEffectsEngine.EqNode
    (AudioEffectsEngine.biquadType (MacroProcessor.type band))
    (MacroProcessor.frequency band) (MacroProcessor.gain band) (MacroProcessor.q band).

Definition isEqNode (n : AudioEffectsEngine.Node) : bool :=
  match n with AudioEffectsEngine.EqNode _ _ _ _ => true | _ => false end.

Definition isCompressor (n : AudioEffectsEngine.Node) : bool :=
  match n with AudioEffectsEngine.Compressor _ _ _ _ => true | _ => false end.

Definition isSaturation (n : AudioEffectsEngine.Node) : bool :=
  match n with AudioEffectsEngine.SaturationNode _ _ => true | _ => false end.

Definition isStereoWidth (n : AudioEffectsEngine.Node) : bool :=
  match n with AudioEffectsEngine.StereoWidth _ => true | _ => false end.

(** The three nodes every chain ends with. *)
Definition chainTail (l : MacroProcessor.LimiterSettings) : list AudioEffectsEngine.Node :=
  [AudioEffectsEngine.GainCompensation;
   AudioEffectsEngine.Limiter (MacroProcessor.ceiling l) 20 0.001
                              (MacroProcessor.lim_release l / 1000);
   AudioEffectsEngine.OutputNode].

(** What an engine reached by calls always satisfies: the registry has one
    entry per stem id, and every chain created so far is either registered
    or disposed. *)
Definition balanced (e : AudioEffectsEngine.Engine) (n : nat) : Prop :=
  NoDup (map fst (AudioEffectsEngine.effectChains e)) /\
  n = (List.length (AudioEffectsEngine.effectChains e) + List.length (AudioEffectsEngine.disposed e))%nat.

(** A square root on the rationals for sample runs: exact on the squares
    of rationals, rounded down on the numerator otherwise. *)
Definition sampleSqrt (x : Q) : Q :=
  Qmake (Z.sqrt (Qnum x * Zpos (Qden x))) (Qden x).

(** ** Vocabulary of the ducker's proofs *)

(** Every automation call made on a gain so far aims at 0.1 or more and
    has a positive time constant. *)
Definition gain_ok (g : SidechainDucker.GainNode) : Prop :=
  Forall (fun e => 0.1 <= SidechainDucker.target e /\ 0 < SidechainDucker.timeConstant e) g.

Definition ducker_ok (d : SidechainDucker.Ducker) : Prop :=
  (forall g, SidechainDucker.targetStemNode d = Some g -> gain_ok g) /\
  0 <= SidechainDucker.sensitivity (SidechainDucker.envelopeFollower d) <= 1.

Definition activationEvents : list SidechainDucker.Event :=
  [SidechainDucker.EEnable; SidechainDucker.EConnectSource; SidechainDucker.EConnectTarget].

(** * Properties *)

(** ** Comparisons *)

Lemma Qltb_lt (a b : Q) : Qltb a b = true <-> a < b.
Proof.
  unfold Qltb. rewrite negb_true_iff. split; intro H.
  - apply Qnot_le_lt. intro Hle. apply Qle_bool_iff in Hle. congruence.
  - destruct (Qle_bool b a) eqn:E; [|reflexivity].
    apply Qle_bool_iff in E. exfalso. exact (Qlt_not_le _ _ H E).
Qed.

Lemma Qltb_ge (a b : Q) : Qltb a b = false <-> b <= a.
Proof.
  unfold Qltb. rewrite negb_false_iff. apply Qle_bool_iff.
Qed.

Lemma Qgtb_gt (a b : Q) : Qgtb a b = true <-> b < a.
Proof. apply Qltb_lt. Qed.

Lemma Qgtb_le (a b : Q) : Qgtb a b = false <-> a <= b.
Proof. apply Qltb_ge. Qed.

Lemma Qltb_reflect (a b : Q) : reflect (a < b) (Qltb a b).
Proof.
  destruct (Qltb a b) eqn:E; constructor.
  - now apply Qltb_lt.
  - intro H. apply Qltb_lt in H. congruence.
Qed.

#[global] Instance Qltb_comp : Proper (Qeq ==> Qeq ==> eq) Qltb.
Proof. intros a a' Ha b b' Hb. unfold Qltb. now rewrite Ha, Hb. Qed.

#[global] Instance Qgtb_comp : Proper (Qeq ==> Qeq ==> eq) Qgtb.
Proof. intros a a' Ha b b' Hb. unfold Qgtb. now rewrite Ha, Hb. Qed.

Lemma Qgtb_cases (a b : Q) : (Qgtb a b = true /\ b < a) \/ (Qgtb a b = false /\ a <= b).
Proof.
  destruct (Qgtb a b) eqn:E.
  - left. split; [reflexivity | now apply Qgtb_gt].
  - right. split; [reflexivity | now apply Qgtb_le].
Qed.

Lemma Qneqb_cases (a b : Q) : (Qneqb a b = true /\ ~ a == b) \/ (Qneqb a b = false /\ a == b).
Proof.
  unfold Qneqb. destruct (Qeq_bool a b) eqn:E.
  - right. split; [reflexivity | now apply Qeq_bool_iff].
  - left. split; [reflexivity | now apply Qeq_bool_neq].
Qed.

(** ** The parameter mapper *)

Section Mapper.

Import MacroProcessor.

#[local] Instance mapRange_comp :
  Proper (Qeq ==> Qeq ==> Qeq ==> Qeq ==> Qeq ==> Qeq) mapRange.
Proof.
  intros v v' Hv a a' Ha b b' Hb c c' Hc d d' Hd. unfold mapRange.
  now rewrite Hv, Ha, Hb, Hc, Hd.
Qed.

(** On the slider range [0,100] the interpolation is a plain scaling. *)
Lemma mapRange_0_100 (v lo hi : Q) :
  mapRange v 0 100 lo hi == lo + v * (hi - lo) / 100.
Proof. unfold mapRange. field. Qed.

Lemma mapRange_scaled (v lo hi : Q) :
  mapRange v 0 100 lo hi == lo + v * ((hi - lo) * (1 # 100)).
Proof. unfold mapRange. field. Qed.

Ltac step_cases :=
  unfold stepClarity, stepPunch, stepWarmth, stepWidth, stepAir, stepGlue,
    push, unshift, with_eqCurve, with_compression, with_saturation,
    with_stereoWidth;
  repeat match goal with
         | |- context [if ?b then _ else _] => destruct b
         end;
  try reflexivity.

(** Which step touches which field. *)
Lemma limiter_stepClarity s r : limiterSettings (stepClarity s r) = limiterSettings r.
Proof. step_cases. Qed.
Lemma limiter_stepPunch s role r : limiterSettings (stepPunch s role r) = limiterSettings r.
Proof. step_cases. Qed.
Lemma limiter_stepWarmth s r : limiterSettings (stepWarmth s r) = limiterSettings r.
Proof. step_cases. Qed.
Lemma limiter_stepWidth s r : limiterSettings (stepWidth s r) = limiterSettings r.
Proof. step_cases. Qed.
Lemma limiter_stepAir s r : limiterSettings (stepAir s r) = limiterSettings r.
Proof. step_cases. Qed.
Lemma limiter_stepGlue s r : limiterSettings (stepGlue s r) = limiterSettings r.
Proof. step_cases. Qed.

Lemma limiter_processSettingsToChain s role :
  limiterSettings (processSettingsToChain s role) = getDefaultLimiter.
Proof.
  unfold processSettingsToChain.
  now rewrite limiter_stepGlue, limiter_stepAir, limiter_stepWidth,
    limiter_stepWarmth, limiter_stepPunch, limiter_stepClarity.
Qed.

Lemma limiter_enhance chain s :
  limiterSettings (enhanceForKick chain s) = limiterSettings chain /\
  limiterSettings (enhanceForSnare chain s) = limiterSettings chain /\
  limiterSettings (enhanceForBass chain s) = limiterSettings chain /\
  limiterSettings (enhanceForVocal chain s) = limiterSettings chain /\
  limiterSettings (enhanceForDrums chain s) = limiterSettings chain.
Proof.
  unfold enhanceForKick, enhanceForSnare, enhanceForBass, enhanceForVocal,
    enhanceForDrums.
  repeat split; step_cases.
Qed.

Lemma limiter_getPerRoleChain role s :
  limiterSettings (getPerRoleChain role s) = getDefaultLimiter.
Proof.
  unfold getPerRoleChain.
  destruct (limiter_enhance (processSettingsToChain s (Some role)) s)
    as (Hk & Hs & Hb & Hv & Hd).
  destruct role;
    rewrite ?Hk, ?Hs, ?Hb, ?Hv, ?Hd; apply limiter_processSettingsToChain.
Qed.

(** What the mapper computes, field by field. *)
Lemma compression_steps s role r :
  compression (stepClarity s r) = compression r /\
  compression (stepWarmth s r) = compression r /\
  compression (stepWidth s r) = compression r /\
  compression (stepAir s r) = compression r /\
  compression (stepPunch s role r) =
    (if Qgtb (punch s) 0 then
       mkCompression
         (mapRange (punch s) 0 100 (-3) (-15))
         (mapRange (punch s) 0 100 1.3 2.1)
         (if isPercussive role
          then mapRange (punch s) 0 100 30 10
          else mapRange (punch s) 0 100 30 15)
         (mapRange (punch s) 0 100 50 150)
         (mapRange (punch s) 0 100 0 3)
         (Qgtb (punch s) 5)
     else compression r) /\
  compression (stepGlue s r) =
    (if Qgtb (punch s) 0 then
       mkCompression (threshold (compression r)) (ratio (compression r))
                     (Qmax (attack (compression r)) 20)
                     (Qmax (release (compression r)) 100)
                     (makeupGain (compression r)) (comp_enabled (compression r))
     else compression r).
Proof.
  repeat split.
  - unfold stepClarity.
    destruct (Qgtb (clarity s) 0); [destruct (Qgtb (clarity s) 50)|]; reflexivity.
  - unfold stepWarmth. destruct (Qgtb (warmth s) 0); reflexivity.
  - unfold stepWidth. destruct (Qneqb (width s) 0); reflexivity.
  - unfold stepAir. destruct (Qneqb (air s) 0); reflexivity.
  - unfold stepPunch. destruct (Qgtb (punch s) 0); reflexivity.
  - unfold stepGlue. destruct (Qgtb (punch s) 0); reflexivity.
Qed.

Lemma compression_processSettingsToChain s role :
  compression (processSettingsToChain s role) =
  if Qgtb (punch s) 0 then
    mkCompression
      (mapRange (punch s) 0 100 (-3) (-15))
      (mapRange (punch s) 0 100 1.3 2.1)
      (Qmax (if isPercussive role
             then mapRange (punch s) 0 100 30 10
             else mapRange (punch s) 0 100 30 15) 20)
      (Qmax (mapRange (punch s) 0 100 50 150) 100)
      (mapRange (punch s) 0 100 0 3)
      (Qgtb (punch s) 5)
  else getDefaultCompression.
Proof.
  unfold processSettingsToChain. cbv zeta.
  match goal with
  | |- compression (stepGlue s ?r) = _ =>
      destruct (compression_steps s role r) as (_ & _ & _ & _ & _ & ->)
  end.
  match goal with
  | |- context [compression (stepAir s ?r)] =>
      destruct (compression_steps s role r) as (_ & _ & _ & -> & _ & _)
  end.
  match goal with
  | |- context [compression (stepWidth s ?r)] =>
      destruct (compression_steps s role r) as (_ & _ & -> & _ & _ & _)
  end.
  match goal with
  | |- context [compression (stepWarmth s ?r)] =>
      destruct (compression_steps s role r) as (_ & -> & _ & _ & _ & _)
  end.
  match goal with
  | |- context [compression (stepPunch s role ?r)] =>
      destruct (compression_steps s role r) as (_ & _ & _ & _ & -> & _)
  end.
  destruct (Qgtb (punch s) 0); [reflexivity|].
  match goal with
  | |- context [compression (stepClarity s ?r)] =>
      destruct (compression_steps s role r) as (-> & _ & _ & _ & _ & _)
  end.
  reflexivity.
Qed.

Lemma saturation_steps s role r :
  saturation (stepClarity s r) = saturation r /\
  saturation (stepPunch s role r) = saturation r /\
  saturation (stepWidth s r) = saturation r /\
  saturation (stepAir s r) = saturation r /\
  saturation (stepWarmth s r) =
    (if Qgtb (warmth s) 0 then
       mkSaturation (mapRange (warmth s) 0 100 0 2) tube
                    (mapRange (warmth s) 0 100 0 25) (Qgtb (warmth s) 10)
     else saturation r) /\
  saturation (stepGlue s r) =
    (if Qgtb (punch s) 0 then
       mkSaturation (Qmax (drive (saturation r)) 0.5) tape
                    (mix (saturation r)) (sat_enabled (saturation r))
     else saturation r).
Proof.
  repeat split.
  - unfold stepClarity.
    destruct (Qgtb (clarity s) 0); [destruct (Qgtb (clarity s) 50)|]; reflexivity.
  - unfold stepPunch. destruct (Qgtb (punch s) 0); reflexivity.
  - unfold stepWidth. destruct (Qneqb (width s) 0); reflexivity.
  - unfold stepAir. destruct (Qneqb (air s) 0); reflexivity.
  - unfold stepWarmth. destruct (Qgtb (warmth s) 0); reflexivity.
  - unfold stepGlue. destruct (Qgtb (punch s) 0); reflexivity.
Qed.

Lemma saturation_processSettingsToChain s role :
  saturation (processSettingsToChain s role) =
  let warm :=
    if Qgtb (warmth s) 0 then
      mkSaturation (mapRange (warmth s) 0 100 0 2) tube
                   (mapRange (warmth s) 0 100 0 25) (Qgtb (warmth s) 10)
    else getDefaultSaturation in
  if Qgtb (punch s) 0 then
    mkSaturation (Qmax (drive warm) 0.5) tape (mix warm) (sat_enabled warm)
  else warm.
Proof.
  unfold processSettingsToChain. cbv zeta.
  match goal with
  | |- saturation (stepGlue s ?r) = _ =>
      destruct (saturation_steps s role r) as (_ & _ & _ & _ & _ & ->)
  end.
  match goal with
  | |- context [saturation (stepAir s ?r)] =>
      destruct (saturation_steps s role r) as (_ & _ & _ & -> & _ & _)
  end.
  match goal with
  | |- context [saturation (stepWidth s ?r)] =>
      destruct (saturation_steps s role r) as (_ & _ & -> & _ & _ & _)
  end.
  match goal with
  | |- context [saturation (stepWarmth s ?r)] =>
      destruct (saturation_steps s role r) as (_ & _ & _ & _ & -> & _)
  end.
  match goal with
  | |- context [saturation (stepPunch s role ?r)] =>
      destruct (saturation_steps s role r) as (_ & -> & _ & _ & _ & _)
  end.
  match goal with
  | |- context [saturation (stepClarity s ?r)] =>
      destruct (saturation_steps s role r) as (-> & _ & _ & _ & _ & _)
  end.
  reflexivity.
Qed.

Lemma stereoWidth_steps s role r :
  stereoWidth (stepClarity s r) = stereoWidth r /\
  stereoWidth (stepPunch s role r) = stereoWidth r /\
  stereoWidth (stepWarmth s r) = stereoWidth r /\
  stereoWidth (stepAir s r) = stereoWidth r /\
  stereoWidth (stepGlue s r) = stereoWidth r /\
  stereoWidth (stepWidth s r) =
    (if Qneqb (width s) 0 then
       mkStereoWidth (mapRange (width s) 0 100 50 150) 120 100 true
     else stereoWidth r).
Proof.
  repeat split.
  - unfold stepClarity.
    destruct (Qgtb (clarity s) 0); [destruct (Qgtb (clarity s) 50)|]; reflexivity.
  - unfold stepPunch. destruct (Qgtb (punch s) 0); reflexivity.
  - unfold stepWarmth. destruct (Qgtb (warmth s) 0); reflexivity.
  - unfold stepAir. destruct (Qneqb (air s) 0); reflexivity.
  - unfold stepGlue. destruct (Qgtb (punch s) 0); reflexivity.
  - unfold stepWidth. destruct (Qneqb (width s) 0); reflexivity.
Qed.

Lemma stereoWidth_processSettingsToChain s role :
  stereoWidth (processSettingsToChain s role) =
  if Qneqb (width s) 0 then
    mkStereoWidth (mapRange (width s) 0 100 50 150) 120 100 true
  else getDefaultStereoWidth.
Proof.
  unfold processSettingsToChain. cbv zeta.
  match goal with
  | |- stereoWidth (stepGlue s ?r) = _ =>
      destruct (stereoWidth_steps s role r) as (_ & _ & _ & _ & -> & _)
  end.
  match goal with
  | |- context [stereoWidth (stepAir s ?r)] =>
      destruct (stereoWidth_steps s role r) as (_ & _ & _ & -> & _ & _)
  end.
  match goal with
  | |- context [stereoWidth (stepWidth s ?r)] =>
      destruct (stereoWidth_steps s role r) as (_ & _ & _ & _ & _ & ->)
  end.
  match goal with
  | |- context [stereoWidth (stepWarmth s ?r)] =>
      destruct (stereoWidth_steps s role r) as (_ & _ & -> & _ & _ & _)
  end.
  match goal with
  | |- context [stereoWidth (stepPunch s role ?r)] =>
      destruct (stereoWidth_steps s role r) as (_ & -> & _ & _ & _ & _)
  end.
  match goal with
  | |- context [stereoWidth (stepClarity s ?r)] =>
      destruct (stereoWidth_steps s role r) as (-> & _ & _ & _ & _ & _)
  end.
  reflexivity.
Qed.

Lemma reverbSend_steps s role r :
  reverbSend (stepClarity s r) = reverbSend r /\
  reverbSend (stepPunch s role r) = reverbSend r /\
  reverbSend (stepWarmth s r) = reverbSend r /\
  reverbSend (stepWidth s r) = reverbSend r /\
  reverbSend (stepAir s r) = reverbSend r /\
  reverbSend (stepGlue s r) = reverbSend r.
Proof.
  repeat split.
  - unfold stepClarity.
    destruct (Qgtb (clarity s) 0); [destruct (Qgtb (clarity s) 50)|]; reflexivity.
  - unfold stepPunch. destruct (Qgtb (punch s) 0); reflexivity.
  - unfold stepWarmth. destruct (Qgtb (warmth s) 0); reflexivity.
  - unfold stepWidth. destruct (Qneqb (width s) 0); reflexivity.
  - unfold stepAir. destruct (Qneqb (air s) 0); reflexivity.
  - unfold stepGlue. destruct (Qgtb (punch s) 0); reflexivity.
Qed.

Lemma reverbSend_processSettingsToChain s role :
  reverbSend (processSettingsToChain s role) = reverb s.
Proof.
  unfold processSettingsToChain. cbv zeta.
  repeat match goal with
         | |- context [reverbSend (?step s ?r)] =>
             first [ rewrite (proj1 (reverbSend_steps s role r))
                   | rewrite (proj1 (proj2 (proj2 (reverbSend_steps s role r))))
                   | rewrite (proj1 (proj2 (proj2 (proj2 (reverbSend_steps s role r)))))
                   | rewrite (proj1 (proj2 (proj2 (proj2 (proj2 (reverbSend_steps s role r))))))
                   | rewrite (proj2 (proj2 (proj2 (proj2 (proj2 (reverbSend_steps s role r)))))) ]
         | |- context [reverbSend (stepPunch s role ?r)] =>
             rewrite (proj1 (proj2 (reverbSend_steps s role r)))
         end.
  reflexivity.
Qed.

(** C2, as stated, fails: with the application's initial settings
    (peakCeiling = -1) the limiter ceiling of the mapper's result is -0.1,
    not the settings' peakCeiling. *)
Lemma limiter_ceiling_ignores_peakCeiling :
  peakCeiling initialSettings == -1 /\
  ceiling (limiterSettings (processSettingsToChain initialSettings None)) == -0.1 /\
  ~ ceiling (limiterSettings (processSettingsToChain initialSettings None))
    == peakCeiling initialSettings.
Proof.
  repeat split; try reflexivity.
  intro H. vm_compute in H. discriminate.
Qed.

(** C2, amended: for every settings value and every optional stem role the
    limiter of the mapper's result, and of the per-role result, is the
    default limiter: enabled, ceiling -0.1 dBFS, release 50 ms, lookahead
    5 ms.  No field of the settings, neither a macro nor peakCeiling,
    reaches it. *)
Theorem limiter_always_default (s : MixerSettings) (role : option StemRole) :
  let result := processSettingsToChain s role in
  lim_enabled (limiterSettings result) = true /\
  ceiling (limiterSettings result) = -0.1 /\
  lim_release (limiterSettings result) = 50 /\
  lookahead (limiterSettings result) = 5 /\
  forall r : StemRole, limiterSettings (getPerRoleChain r s) = limiterSettings result.
Proof.
  cbv zeta. rewrite limiter_processSettingsToChain.
  repeat split. intro r. apply limiter_getPerRoleChain.
Qed.

(** *** The EQ curve *)

Lemma eqCurve_steps s role r :
  eqCurve (stepClarity s r) = eqCurve r ++ clarityBands s /\
  eqCurve (stepPunch s role r) = eqCurve r /\
  eqCurve (stepWarmth s r) = eqCurve r ++ warmthBands s /\
  eqCurve (stepWidth s r) = eqCurve r /\
  eqCurve (stepAir s r) = eqCurve r ++ airBands s /\
  eqCurve (stepGlue s r) = eqCurve r.
Proof.
  repeat split.
  - unfold stepClarity, clarityBands.
    destruct (Qgtb (clarity s) 0); [destruct (Qgtb (clarity s) 50)|];
      cbn [eqCurve push with_eqCurve]; rewrite <- ?app_assoc, ?app_nil_r; reflexivity.
  - unfold stepPunch. destruct (Qgtb (punch s) 0); reflexivity.
  - unfold stepWarmth, warmthBands.
    destruct (Qgtb (warmth s) 0);
      cbn [eqCurve push with_eqCurve with_saturation];
      rewrite <- ?app_assoc, ?app_nil_r; reflexivity.
  - unfold stepWidth. destruct (Qneqb (width s) 0); reflexivity.
  - unfold stepAir, airBands.
    destruct (Qneqb (air s) 0); cbn [eqCurve push with_eqCurve];
      rewrite ?app_nil_r; reflexivity.
  - unfold stepGlue. destruct (Qgtb (punch s) 0); reflexivity.
Qed.

(** The EQ curve of the base mapper: the clarity bands, then the warmth
    bands, then the air band. *)
Lemma eqCurve_processSettingsToChain s role :
  eqCurve (processSettingsToChain s role)
  = clarityBands s ++ warmthBands s ++ airBands s.
Proof.
  unfold processSettingsToChain. cbv zeta.
  match goal with
  | |- eqCurve (stepGlue s ?r) = _ =>
      destruct (eqCurve_steps s role r) as (_ & _ & _ & _ & _ & ->)
  end.
  match goal with
  | |- context [eqCurve (stepAir s ?r)] =>
      destruct (eqCurve_steps s role r) as (_ & _ & _ & _ & -> & _)
  end.
  match goal with
  | |- context [eqCurve (stepWidth s ?r)] =>
      destruct (eqCurve_steps s role r) as (_ & _ & _ & -> & _ & _)
  end.
  match goal with
  | |- context [eqCurve (stepWarmth s ?r)] =>
      destruct (eqCurve_steps s role r) as (_ & _ & -> & _ & _ & _)
  end.
  match goal with
  | |- context [eqCurve (stepPunch s role ?r)] =>
      destruct (eqCurve_steps s role r) as (_ & -> & _ & _ & _ & _)
  end.
  match goal with
  | |- context [eqCurve (stepClarity s ?r)] =>
      destruct (eqCurve_steps s role r) as (-> & _ & _ & _ & _ & _)
  end.
  cbn [eqCurve app]. rewrite <- app_assoc. reflexivity.
Qed.

Lemma clarityShelfGain_processSettingsToChain s role :
  clarityShelfGain (eqCurve (processSettingsToChain s role))
  = if Qgtb (clarity s) 0 then mapRange (clarity s) 0 100 0 4 else 0.
Proof.
  rewrite eqCurve_processSettingsToChain.
  unfold clarityShelfGain, clarityBands, warmthBands, airBands.
  destruct (Qgtb (clarity s) 0).
  - reflexivity.
  - destruct (Qgtb (warmth s) 0); destruct (Qneqb (air s) 0); reflexivity.
Qed.

Lemma airShelfGain_processSettingsToChain s role :
  airShelfGain (eqCurve (processSettingsToChain s role))
  = if Qneqb (air s) 0 then mapRange (air s) 0 100 0 3 else 0.
Proof.
  rewrite eqCurve_processSettingsToChain.
  unfold airShelfGain, clarityBands, warmthBands, airBands.
  destruct (Qgtb (clarity s) 0); [destruct (Qgtb (clarity s) 50)|];
    destruct (Qgtb (warmth s) 0); destruct (Qneqb (air s) 0); reflexivity.
Qed.

Lemma mix_processSettingsToChain s role :
  mix (saturation (processSettingsToChain s role))
  = if Qgtb (warmth s) 0 then mapRange (warmth s) 0 100 0 25 else 0.
Proof.
  rewrite saturation_processSettingsToChain. cbv zeta.
  destruct (Qgtb (punch s) 0); destruct (Qgtb (warmth s) 0); reflexivity.
Qed.

(** *** Clamping *)

Lemma spec_clampMacro_in_range (x : Q) : macro_in_range x -> spec_clampMacro x = x.
Proof.
  intros [H0 H100]. unfold spec_clampMacro, Qgtb.
  destruct (Qltb_reflect x 0) as [H|_].
  - exfalso. exact (Qlt_not_le _ _ H H0).
  - destruct (Qltb_reflect 100 x) as [H|_]; [|reflexivity].
    exfalso. exact (Qlt_not_le _ _ H H100).
Qed.

(** C4, as stated, fails: with punch = 200 the mapper's compressor
    threshold is -27 dB, while on the clamped settings (punch = 100) it is
    -15 dB, the end of the documented range. *)
Lemma mapper_does_not_clamp :
  threshold (compression (processSettingsToChain punch200 None)) == -27 /\
  threshold (compression (processSettingsToChain (spec_clampMacros punch200) None))
    == -15 /\
  ~ threshold (compression (processSettingsToChain punch200 None))
    == threshold (compression (processSettingsToChain (spec_clampMacros punch200) None)).
Proof.
  repeat split; try reflexivity.
  intro H. vm_compute in H. discriminate.
Qed.

(** The clamp moves a macro only when it is out of range. *)
Lemma spec_clampMacro_cases (x : Q) :
  (x < 0 /\ spec_clampMacro x = 0) \/
  (macro_in_range x /\ spec_clampMacro x = x) \/
  (100 < x /\ spec_clampMacro x = 100).
Proof.
  unfold spec_clampMacro, macro_in_range.
  destruct (Qltb_reflect x 0) as [H|H].
  - left. split; [exact H | reflexivity].
  - apply Qnot_lt_le in H. unfold Qgtb.
    destruct (Qltb_reflect 100 x) as [H'|H'].
    + right. right. split; [exact H' | reflexivity].
    + apply Qnot_lt_le in H'. right. left. split; [split; assumption | reflexivity].
Qed.

Lemma not_macro_in_range (x : Q) : ~ macro_in_range x -> x < 0 \/ 100 < x.
Proof.
  intros H. destruct (Qlt_le_dec x 0) as [H0|H0]; [left; exact H0|].
  destruct (Qlt_le_dec 100 x) as [H1|H1]; [right; exact H1|].
  exfalso. apply H. split; assumption.
Qed.

Lemma result_fields (r : MacroProcessingResult) :
  r = mkResult (eqCurve r) (compression r) (saturation r) (stereoWidth r)
               (limiterSettings r) (reverbSend r).
Proof. destruct r; reflexivity. Qed.

(** The guards [> 0] of punch, warmth and clarity make the mapper blind to
    how far below 0 these macros are: two settings that agree on air,
    width and reverb, and on each of punch, warmth and clarity unless both
    values are at most 0, are mapped to the same result. *)
Lemma mapper_blind_below_zero (s s' : MixerSettings) (role : option StemRole) :
  (punch s' = punch s \/ (punch s <= 0 /\ punch s' <= 0)) ->
  (warmth s' = warmth s \/ (warmth s <= 0 /\ warmth s' <= 0)) ->
  (clarity s' = clarity s \/ (clarity s <= 0 /\ clarity s' <= 0)) ->
  air s' = air s -> width s' = width s -> reverb s' = reverb s ->
  processSettingsToChain s' role = processSettingsToChain s role.
Proof.
  intros Hp Hw Hc Ha Hd Hr.
  rewrite (result_fields (processSettingsToChain s' role)).
  rewrite (result_fields (processSettingsToChain s role)).
  rewrite !eqCurve_processSettingsToChain, !compression_processSettingsToChain,
    !saturation_processSettingsToChain, !stereoWidth_processSettingsToChain,
    !limiter_processSettingsToChain, !reverbSend_processSettingsToChain.
  cbv zeta. unfold clarityBands, warmthBands, airBands.
  rewrite Ha, Hd, Hr.
  assert (Ec : (if Qgtb (clarity s') 0 then
                  mkEQBand 8000 (mapRange (clarity s') 0 100 0 4) 0.7 highshelf true
                  :: (if Qgtb (clarity s') 50 then
                        [mkEQBand 350 (mapRange (clarity s') 50 100 0 (-2)) 1.2 bell true]
                      else [])
                else [])
               = (if Qgtb (clarity s) 0 then
                    mkEQBand 8000 (mapRange (clarity s) 0 100 0 4) 0.7 highshelf true
                    :: (if Qgtb (clarity s) 50 then
                          [mkEQBand 350 (mapRange (clarity s) 50 100 0 (-2)) 1.2 bell true]
                        else [])
                  else [])).
  { destruct Hc as [->|[H H']]; [reflexivity|].
    apply Qgtb_le in H, H'. rewrite H, H'. reflexivity. }
  rewrite Ec. clear Ec.
  destruct Hw as [->|[Hw Hw']]; destruct Hp as [->|[Hp Hp']];
    try reflexivity;
    repeat match goal with
           | H : _ <= 0 |- _ => apply Qgtb_le in H; rewrite ?H
           end;
    reflexivity.
Qed.

(** C4, amended: the mapper never reports an out-of-range macro as an
    error, and it clamps only in part.  Its output equals its output on
    the settings with every macro clamped into [0,100] exactly when punch,
    warmth and clarity are at most 100 and air, width and reverb lie in
    [0,100]: a negative punch, warmth or clarity is treated as 0 by the
    guards, everything else out of range goes through the linear
    interpolation as it is.  Punch above 100 gives a threshold below
    -15 dB, warmth above 100 a saturation mix above 25 percent, clarity
    above 100 a shelf gain above 4 dB; air, width or reverb outside
    [0,100] give an air shelf gain, a stereo width or a reverb send other
    than on the clamped settings.  For any punch > 0 the threshold is
    -3 - 12*punch/100 dB and the ratio 1.3 + 0.8*punch/100, for any width
    other than 0 the stereo width is 50 + width percent, and reverbSend is
    the reverb value itself. *)
Theorem mapper_clamp_agreement (s : MixerSettings) (role : option StemRole) :
  let result := processSettingsToChain s role in
  let clamped := processSettingsToChain (spec_clampMacros s) role in
  (clamped = result <-> clamp_unobservable s) /\
  (100 < punch s ->
   threshold (compression result) < -15 /\ threshold (compression clamped) == -15) /\
  (100 < warmth s ->
   25 < mix (saturation result) /\ mix (saturation clamped) == 25) /\
  (100 < clarity s ->
   4 < clarityShelfGain (eqCurve result) /\ clarityShelfGain (eqCurve clamped) == 4) /\
  (~ macro_in_range (air s) ->
   ~ airShelfGain (eqCurve clamped) == airShelfGain (eqCurve result)) /\
  (~ macro_in_range (width s) ->
   ~ sw_width (stereoWidth clamped) == sw_width (stereoWidth result)) /\
  (~ macro_in_range (reverb s) -> ~ reverbSend clamped == reverbSend result) /\
  (0 < punch s ->
   threshold (compression result) == -3 - 12 * punch s / 100 /\
   ratio (compression result) == 1.3 + 0.8 * punch s / 100) /\
  (~ width s == 0 -> sw_width (stereoWidth result) == 50 + width s) /\
  reverbSend result = reverb s.
Proof.
  cbv zeta.
  assert (Hpunch : 100 < punch s ->
            threshold (compression (processSettingsToChain s role)) < -15 /\
            threshold (compression (processSettingsToChain (spec_clampMacros s) role))
            == -15).
  { intros H. rewrite !compression_processSettingsToChain.
    cbn [punch spec_clampMacros].
    destruct (spec_clampMacro_cases (punch s)) as [[H' _]|[[[_ H'] _]|[_ ->]]];
      try (exfalso; Lqa.lra).
    destruct (Qgtb_cases (punch s) 0) as [[-> _]|[_ H']]; [|exfalso; Lqa.lra].
    cbn [threshold]. split; [rewrite mapRange_scaled; Lqa.lra | reflexivity]. }
  assert (Hwarmth : 100 < warmth s ->
            25 < mix (saturation (processSettingsToChain s role)) /\
            mix (saturation (processSettingsToChain (spec_clampMacros s) role)) == 25).
  { intros H. rewrite !mix_processSettingsToChain.
    cbn [warmth spec_clampMacros].
    destruct (spec_clampMacro_cases (warmth s)) as [[H' _]|[[[_ H'] _]|[_ ->]]];
      try (exfalso; Lqa.lra).
    destruct (Qgtb_cases (warmth s) 0) as [[-> _]|[_ H']]; [|exfalso; Lqa.lra].
    split; [rewrite mapRange_scaled; Lqa.lra | reflexivity]. }
  assert (Hclarity : 100 < clarity s ->
            4 < clarityShelfGain (eqCurve (processSettingsToChain s role)) /\
            clarityShelfGain (eqCurve (processSettingsToChain (spec_clampMacros s) role))
            == 4).
  { intros H. rewrite !clarityShelfGain_processSettingsToChain.
    cbn [clarity spec_clampMacros].
    destruct (spec_clampMacro_cases (clarity s)) as [[H' _]|[[[_ H'] _]|[_ ->]]];
      try (exfalso; Lqa.lra).
    destruct (Qgtb_cases (clarity s) 0) as [[-> _]|[_ H']]; [|exfalso; Lqa.lra].
    split; [rewrite mapRange_scaled; Lqa.lra | reflexivity]. }
  assert (Hair : ~ macro_in_range (air s) ->
            ~ airShelfGain (eqCurve (processSettingsToChain (spec_clampMacros s) role))
              == airShelfGain (eqCurve (processSettingsToChain s role))).
  { intros H. rewrite !airShelfGain_processSettingsToChain.
    cbn [air spec_clampMacros].
    destruct (spec_clampMacro_cases (air s)) as [[H' ->]|[[H' _]|[H' ->]]];
      [| contradiction |];
      (destruct (Qneqb_cases (air s) 0) as [[-> _]|[_ H0]];
       [|exfalso; Lqa.lra]);
      [change (Qneqb 0 0) with false | change (Qneqb 100 0) with true];
      cbv iota; rewrite ?mapRange_scaled; intro E; Lqa.lra. }
  assert (Hwidth : ~ macro_in_range (width s) ->
            ~ sw_width (stereoWidth (processSettingsToChain (spec_clampMacros s) role))
              == sw_width (stereoWidth (processSettingsToChain s role))).
  { intros H. rewrite !stereoWidth_processSettingsToChain.
    cbn [width spec_clampMacros].
    destruct (spec_clampMacro_cases (width s)) as [[H' ->]|[[H' _]|[H' ->]]];
      [| contradiction |];
      (destruct (Qneqb_cases (width s) 0) as [[-> _]|[_ H0]];
       [|exfalso; Lqa.lra]);
      [change (Qneqb 0 0) with false | change (Qneqb 100 0) with true];
      cbv iota; cbn [sw_width getDefaultStereoWidth];
      rewrite ?mapRange_scaled; intro E; Lqa.lra. }
  assert (Hreverb : ~ macro_in_range (reverb s) ->
            ~ reverbSend (processSettingsToChain (spec_clampMacros s) role)
              == reverbSend (processSettingsToChain s role)).
  { intros H. rewrite !reverbSend_processSettingsToChain.
    cbn [reverb spec_clampMacros].
    destruct (spec_clampMacro_cases (reverb s)) as [[H' ->]|[[H' _]|[H' ->]]];
      [| contradiction |]; intro E; Lqa.lra. }
  split; [|split; [exact Hpunch|split; [exact Hwarmth|split; [exact Hclarity|
          split; [exact Hair|split; [exact Hwidth|split; [exact Hreverb|]]]]]]].
  - split.
    + intros E. rewrite E in Hpunch, Hwarmth, Hclarity, Hair, Hwidth, Hreverb.
      unfold clamp_unobservable.
      assert (Hdec : forall x, (~ macro_in_range x -> False) -> macro_in_range x).
      { intros x Hx. split.
        - destruct (Qlt_le_dec x 0) as [H0|H0]; [|exact H0].
          exfalso. apply Hx. intros [H1 _]. Lqa.lra.
        - destruct (Qlt_le_dec 100 x) as [H0|H0]; [|exact H0].
          exfalso. apply Hx. intros [_ H1]. Lqa.lra. }
      split; [|split; [|split; [|split; [|split]]]].
      * destruct (Qlt_le_dec 100 (punch s)) as [H|H]; [|exact H].
        destruct (Hpunch H). exfalso. Lqa.lra.
      * destruct (Qlt_le_dec 100 (warmth s)) as [H|H]; [|exact H].
        destruct (Hwarmth H). exfalso. Lqa.lra.
      * destruct (Qlt_le_dec 100 (clarity s)) as [H|H]; [|exact H].
        destruct (Hclarity H). exfalso. Lqa.lra.
      * apply Hdec. intros H. apply (Hair H). reflexivity.
      * apply Hdec. intros H. apply (Hwidth H). reflexivity.
      * apply Hdec. intros H. apply (Hreverb H). reflexivity.
    + intros (Hp & Hw & Hc & Ha & Hd & Hr).
      apply mapper_blind_below_zero; cbn [punch warmth clarity air width reverb
                                          spec_clampMacros].
      * destruct (spec_clampMacro_cases (punch s)) as [[H ->]|[[_ ->]|[H _]]];
          [right; split; Lqa.lra | left; reflexivity | exfalso; Lqa.lra].
      * destruct (spec_clampMacro_cases (warmth s)) as [[H ->]|[[_ ->]|[H _]]];
          [right; split; Lqa.lra | left; reflexivity | exfalso; Lqa.lra].
      * destruct (spec_clampMacro_cases (clarity s)) as [[H ->]|[[_ ->]|[H _]]];
          [right; split; Lqa.lra | left; reflexivity | exfalso; Lqa.lra].
      * now apply spec_clampMacro_in_range.
      * now apply spec_clampMacro_in_range.
      * now apply spec_clampMacro_in_range.
  - split; [|split].
    + intros H. rewrite compression_processSettingsToChain.
      apply Qgtb_gt in H. rewrite H. cbn [threshold ratio].
      rewrite !mapRange_0_100. split; field.
    + intros H. rewrite stereoWidth_processSettingsToChain.
      unfold Qneqb. destruct (Qeq_bool (width s) 0) eqn:E.
      * apply Qeq_bool_iff in E. contradiction.
      * cbn [negb sw_width]. rewrite mapRange_0_100. field.
    + apply reverbSend_processSettingsToChain.
Qed.

Lemma mapper_clamp_agreement_witness :
  clamp_unobservable negativeGated /\
  processSettingsToChain (spec_clampMacros negativeGated) (Some KICK)
  = processSettingsToChain negativeGated (Some KICK) /\
  100 < punch allMacros200 /\
  threshold (compression (processSettingsToChain allMacros200 None)) < -15 /\
  ~ macro_in_range (air allMacros200) /\
  ~ airShelfGain (eqCurve (processSettingsToChain (spec_clampMacros allMacros200) None))
    == airShelfGain (eqCurve (processSettingsToChain allMacros200 None)) /\
  0 < punch punch200 /\
  threshold (compression (processSettingsToChain punch200 None)) == -3 - 12 * 200 / 100.
Proof.
  assert (H : clamp_unobservable negativeGated).
  { unfold clamp_unobservable, macro_in_range, negativeGated; simpl.
    repeat split; unfold Qle; simpl; lia. }
  assert (H100 : 100 < punch allMacros200) by reflexivity.
  assert (Hair : ~ macro_in_range (air allMacros200)).
  { intros [_ Hle]. vm_compute in Hle. apply Hle. reflexivity. }
  assert (H200 : 0 < punch punch200) by reflexivity.
  pose proof (mapper_clamp_agreement negativeGated (Some KICK)) as P.
  pose proof (mapper_clamp_agreement allMacros200 None) as A.
  pose proof (mapper_clamp_agreement punch200 None) as T.
  cbv zeta in P, A, T.
  destruct P as ([_ P] & _).
  destruct A as (_ & A1 & _ & _ & A4 & _).
  destruct T as (_ & _ & _ & _ & _ & _ & _ & T1 & _).
  split; [exact H|]. split; [exact (P H)|]. split; [exact H100|].
  split; [exact (proj1 (A1 H100))|]. split; [exact Hair|].
  split; [exact (A4 Hair)|]. split; [exact H200|].
  exact (proj1 (T1 H200)).
Defined.

(** *** Warmth saturation and the glue rule *)

(** C5, as stated, fails: with warmth = 20 and punch = 40 the saturation is
    enabled, but the glue rule has made its character 'tape' and raised its
    drive from the mapped 0.4 to 0.5. *)
Lemma warmth_saturation_overridden_by_glue :
  10 < warmth warmAndPunchy /\
  character (saturation (processSettingsToChain warmAndPunchy None)) = tape /\
  character (saturation (processSettingsToChain warmAndPunchy None)) <> tube /\
  mapRange (warmth warmAndPunchy) 0 100 0 2 == 0.4 /\
  drive (saturation (processSettingsToChain warmAndPunchy None)) == 0.5.
Proof.
  repeat split; try reflexivity. discriminate.
Qed.

(** C5, amended: for every settings value with warmth > 10 the saturation
    of the base mapper's output is enabled with mix = 25*warmth/100
    (0 -> 0%, 100 -> 25%).  When punch is not above 0 its character is
    'tube' and its drive is 2*warmth/100 (0 -> 0, 100 -> 2).  When
    punch > 0 the glue rule makes the character 'tape' and the drive
    max(2*warmth/100, 0.5). *)
Theorem warmth_saturation (s : MixerSettings) (role : option StemRole) :
  10 < warmth s ->
  let sat := saturation (processSettingsToChain s role) in
  sat_enabled sat = true /\
  mix sat == 25 * warmth s / 100 /\
  (punch s <= 0 -> character sat = tube /\ drive sat == 2 * warmth s / 100) /\
  (0 < punch s ->
   character sat = tape /\ drive sat == Qmax (2 * warmth s / 100) 0.5).
Proof.
  intros Hw. cbv zeta. rewrite saturation_processSettingsToChain.
  assert (H0 : Qgtb (warmth s) 0 = true).
  { apply Qgtb_gt. apply Qlt_trans with 10; [reflexivity | assumption]. }
  assert (H10 : Qgtb (warmth s) 10 = true) by now apply Qgtb_gt.
  rewrite H0, H10. cbv zeta.
  assert (Hd : mapRange (warmth s) 0 100 0 2 == 2 * warmth s / 100)
    by (rewrite mapRange_0_100; field).
  assert (Hm : mapRange (warmth s) 0 100 0 25 == 25 * warmth s / 100)
    by (rewrite mapRange_0_100; field).
  destruct (Qgtb (punch s) 0) eqn:E;
    cbn [sat_enabled mix character drive].
  - apply Qgtb_gt in E.
    split; [reflexivity|]. split; [exact Hm|]. split.
    + intros Hle. exfalso. exact (Qlt_not_le _ _ E Hle).
    + intros _. split; [reflexivity|]. rewrite Hd. reflexivity.
  - apply Qgtb_le in E.
    split; [reflexivity|]. split; [exact Hm|]. split.
    + intros _. split; [reflexivity | exact Hd].
    + intros Hlt. exfalso. exact (Qlt_not_le _ _ Hlt E).
Qed.

Lemma warmth_saturation_witness :
  10 < warmth warmAndPunchy /\
  sat_enabled (saturation (processSettingsToChain warmAndPunchy (Some BASS))) = true.
Proof.
  assert (H : 10 < warmth warmAndPunchy) by reflexivity.
  split; [exact H|].
  exact (proj1 (warmth_saturation warmAndPunchy (Some BASS) H)).
Defined.

(** *** The per-role enhancer *)

Lemma compression_enhanceForKick chain s :
  compression (enhanceForKick chain s) =
  set_ratio (Qmax (ratio (compression chain)) 3)
            (set_attack (Qmin (attack (compression chain)) 5) (compression chain)).
Proof. unfold enhanceForKick. step_cases. Qed.

Lemma stereoWidth_enhanceForBass chain s :
  stereoWidth (enhanceForBass chain s) =
  set_width (Qmin (sw_width (stereoWidth chain)) 100) (stereoWidth chain).
Proof. unfold enhanceForBass. step_cases. Qed.

(** C6: for punch = 100 and role kick the per-role result has compressor
    attack at most 5 ms and ratio at least 3 (they are exactly 5 and 3).
    The kick override is applied after the base mapping: the punch mapping
    alone gives attack 10 ms and ratio 2.1 at punch 100, the glue rule
    raises the attack of the base result to 20 ms, and the enhancer then
    caps it at 5 ms. *)
Theorem kick_override_wins (s : MixerSettings) :
  punch s == 100 ->
  let base := processSettingsToChain s (Some KICK) in
  let result := getPerRoleChain KICK s in
  attack (compression result) <= 5 /\
  3 <= ratio (compression result) /\
  attack (compression result) == 5 /\
  ratio (compression result) == 3 /\
  mapRange (punch s) 0 100 30 10 == 10 /\
  attack (compression base) == 20 /\
  ratio (compression base) == 2.1.
Proof.
  intros Hp. cbv zeta.
  unfold getPerRoleChain. rewrite compression_enhanceForKick.
  rewrite compression_processSettingsToChain.
  assert (H0 : Qgtb (punch s) 0 = true) by (rewrite Hp; reflexivity).
  rewrite H0. cbn [isPercussive attack ratio set_ratio set_attack].
  assert (Ha : mapRange (punch s) 0 100 30 10 == 10) by (rewrite Hp; reflexivity).
  assert (Hr : mapRange (punch s) 0 100 1.3 2.1 == 2.1) by (rewrite Hp; reflexivity).
  assert (Hbase : Qmax (mapRange (punch s) 0 100 30 10) 20 == 20).
  { apply Q.max_r. rewrite Ha. discriminate. }
  assert (Hatt : Qmin (Qmax (mapRange (punch s) 0 100 30 10) 20) 5 == 5).
  { apply Q.min_r. rewrite Hbase. discriminate. }
  assert (Hrat : Qmax (mapRange (punch s) 0 100 1.3 2.1) 3 == 3).
  { apply Q.max_r. rewrite Hr. discriminate. }
  repeat split; try assumption.
  - apply Q.le_min_r.
  - apply Q.le_max_r.
Qed.

Lemma kick_override_wins_witness :
  punch clubReady == 100 /\
  attack (compression (getPerRoleChain KICK clubReady)) <= 5 /\
  3 <= ratio (compression (getPerRoleChain KICK clubReady)).
Proof.
  assert (H : punch clubReady == 100) by reflexivity.
  split; [exact H|].
  split.
  - exact (proj1 (kick_override_wins clubReady H)).
  - exact (proj1 (proj2 (kick_override_wins clubReady H))).
Defined.

(** C7: for role bass and every settings value, whatever the width macro
    is, the stereo width of the per-role result is at most 100. *)
Theorem bass_width_mono_safe (s : MixerSettings) :
  sw_width (stereoWidth (getPerRoleChain BASS s)) <= 100.
Proof.
  unfold getPerRoleChain. rewrite stereoWidth_enhanceForBass.
  cbn [sw_width set_width]. apply Q.le_min_r.
Qed.

(** The clamp of C7 at work: with width = 100 the base mapper gives 150,
    the bass result 100. *)
Example bass_width_at_full_width :
  let s := mkMixerSettings (-18) (-14) (-1) 0 0 0 0 100 0 in
  sw_width (stereoWidth (processSettingsToChain s (Some BASS))) == 150 /\
  sw_width (stereoWidth (getPerRoleChain BASS s)) == 100.
Proof. split; reflexivity. Qed.

End Mapper.

(** ** The masking analyzer *)

Section Masking.

Import MaskingAnalyzer.

Lemma lowStem_highStem_disjoint : disjoint_spectra lowStem highStem.
Proof.
  intros [|[|[|bin]]]; simpl; (left; reflexivity) || (right; reflexivity).
Qed.

(** C1, as stated, fails: for two stems with disjoint spectra the heatmap
    the analyzer returns has a non-zero entry (0.5, bass row, 100 Hz) and
    conflictLevel 'medium'. *)
Lemma masking_heatmap_not_zero_for_disjoint_stems :
  disjoint_spectra lowStem highStem /\
  nth 2 (nth 1 (maskingMatrix analyze) []) 0 == 0.5 /\
  ~ all_entries (fun x => x == 0) (maskingMatrix analyze) /\
  conflictLevel analyze <> low.
Proof.
  split; [exact lowStem_highStem_disjoint|].
  split; [reflexivity|].
  split; [|discriminate].
  intro H. unfold all_entries in H. simpl in H.
  inversion H as [|row rows Hrow _]; subst.
  inversion Hrow as [|x xs _ Hxs]; subst.
  inversion Hxs as [|y ys Hy _]; subst.
  vm_compute in Hy. discriminate.
Qed.

(** C1, amended: the masking analyzer takes no stems and reads no
    spectrum; it returns one fixed placeholder heatmap: stems kick, bass,
    vocal, ten frequencies, a 3 x 10 matrix whose entries all lie in
    [0,1], and conflictLevel 'medium'. *)
Theorem masking_analyzer_placeholder :
  stems analyze = ["kick"; "bass"; "vocal"]%string /\
  List.length (frequencies analyze) = 10%nat /\
  List.length (maskingMatrix analyze) = List.length (stems analyze) /\
  Forall (fun row => List.length row = List.length (frequencies analyze))
         (maskingMatrix analyze) /\
  all_entries (fun x => 0 <= x /\ x <= 1) (maskingMatrix analyze) /\
  conflictLevel analyze = medium.
Proof.
  repeat split; try reflexivity.
  - repeat constructor.
  - unfold all_entries. simpl.
    repeat (constructor; try (split; discriminate)).
Qed.

End Masking.

(** ** The stem role classifier *)

Section Classifier.

Import StemAnalyzer.

Lemma StemRole_eqb_eq (a b : StemRole) : StemRole_eqb a b = true <-> a = b.
Proof. destruct a, b; simpl; split; intro H; congruence. Qed.

Lemma add_score_keys role w scores :
  map fst (add_score role w scores) = map fst scores.
Proof.
  induction scores as [|[k v] rest IH]; simpl; [reflexivity|].
  destruct (StemRole_eqb k role); simpl; [reflexivity | now rewrite IH].
Qed.

Lemma add_score_ok role w scores :
  scored role -> 0.2 <= w ->
  Forall score_ok scores -> Forall score_ok (add_score role w scores).
Proof.
  intros Hrole Hw H. induction H as [|[k v] rest Hkv Hrest IH]; simpl.
  - constructor.
  - destruct (StemRole_eqb k role) eqn:E.
    + apply StemRole_eqb_eq in E. subst k. constructor; [|assumption].
      unfold scored in Hrole. cbn [In] in Hrole.
      unfold score_ok in *. cbn [fst snd] in *.
      destruct role; try (exfalso; intuition discriminate);
        right; destruct Hkv as [Hkv|Hkv]; Lqa.lra.
    + constructor; assumption.
Qed.

Lemma when_keys cond role w scores :
  map fst (when cond role w scores) = map fst scores.
Proof. unfold when. destruct cond; [apply add_score_keys | reflexivity]. Qed.

Lemma when_ok cond role w scores :
  scored role -> 0.2 <= w ->
  Forall score_ok scores -> Forall score_ok (when cond role w scores).
Proof. unfold when. destruct cond; [apply add_score_ok | trivial]. Qed.

Lemma initialScores_ok : Forall score_ok initialScores.
Proof.
  unfold initialScores.
  repeat constructor; unfold score_ok; simpl; try (left; reflexivity); reflexivity.
Qed.

Lemma computeScores_ok f : Forall score_ok (computeScores f).
Proof.
  unfold computeScores. cbv zeta.
  repeat (apply when_ok;
          [unfold scored; simpl; tauto | unfold Qle; simpl; lia | ]).
  apply initialScores_ok.
Qed.

Lemma computeScores_keys f :
  map fst (computeScores f) =
  [KICK; SNARE; HIHAT; BASS; VOCAL; LEAD; PAD; DRUMS; PERCUSSION; OTHER].
Proof.
  unfold computeScores. cbv zeta. rewrite !when_keys. reflexivity.
Qed.

(** The loop over the entries: the final maximum bounds every score, and
    the final role is the initial one, untouched, or the key of an entry
    whose score is the final maximum and exceeds the initial one. *)
Lemma fold_pick_spec (l : Scores) (m : Q) (r : StemRole) :
  let res := fold_left pick l (m, r) in
  m <= fst res /\
  Forall (fun entry => snd entry <= fst res) l /\
  (res = (m, r) \/ In (snd res, fst res) l /\ m < fst res).
Proof.
  revert m r. induction l as [|[k v] rest IH]; intros m r; simpl.
  - split; [apply Qle_refl|]. split; [constructor | left; reflexivity].
  - unfold Qgtb. destruct (Qltb_reflect m v) as [Hlt|Hge].
    + destruct (IH v k) as (Hle & Hall & Hres).
      split; [apply Qle_trans with v; [apply Qlt_le_weak|]; assumption|].
      split; [constructor; assumption|].
      right. destruct Hres as [Hres|[Hin Hlt']].
      * rewrite Hres. simpl. split; [left; reflexivity | assumption].
      * split; [right; assumption|]. apply Qlt_trans with v; assumption.
    + destruct (IH m r) as (Hle & Hall & Hres).
      split; [assumption|].
      split.
      * constructor; [|assumption]. simpl.
        apply Qle_trans with m; [|assumption]. now apply Qnot_lt_le.
      * destruct Hres as [Hres|[Hin Hlt']]; [left; assumption|].
        right. split; [right|]; assumption.
Qed.

Lemma computeScores_shape f :
  exists v1 v2 v3 v4 v5 v6 v7 v8 v9 v10 : Q,
    computeScores f =
    [(KICK, v1); (SNARE, v2); (HIHAT, v3); (BASS, v4); (VOCAL, v5); (LEAD, v6);
     (PAD, v7); (DRUMS, v8); (PERCUSSION, v9); (OTHER, v10)].
Proof.
  pose proof (computeScores_keys f) as H.
  destruct (computeScores f) as [|[k1 v1] l]; [discriminate|].
  repeat match goal with
         | H : map fst (_ :: ?l) = _ :: _ |- _ =>
             simpl in H; injection H as ? H; subst;
             destruct l as [|[? ?] ?]
         end;
    try discriminate.
  repeat eexists.
Qed.

(** C10: for every feature set the classifier returns one of kick, snare,
    hihat, bass, vocal, lead, pad, drums, other, and never percussion,
    arpeggio, harmony or fx.  No rule adds to those four: the score object
    has no key for arpeggio, harmony and fx, and the score of percussion
    is 0 after all rules have run.  Every rule weighs at least 0.2, above
    the 0.1 baseline of 'other': 'other' is returned exactly when every
    other score is 0, that is when no rule fired. *)
Theorem detectRole_never_unscored (f : AudioFeatures) :
  In (detectRole f) [KICK; SNARE; HIHAT; BASS; VOCAL; LEAD; PAD; DRUMS; OTHER] /\
  ~ In (detectRole f) [PERCUSSION; ARPEGGIO; HARMONY; FX] /\
  map fst (computeScores f) =
    [KICK; SNARE; HIHAT; BASS; VOCAL; LEAD; PAD; DRUMS; PERCUSSION; OTHER] /\
  (forall v, In (PERCUSSION, v) (computeScores f) -> v == 0) /\
  (forall k v, In (k, v) (computeScores f) -> v == 0 \/ v == 0.1 /\ k = OTHER \/ 0.2 <= v) /\
  (detectRole f = OTHER <->
   forall k v, In (k, v) (computeScores f) -> k <> OTHER -> v == 0).
Proof.
  pose proof (computeScores_ok f) as Hok.
  pose proof (computeScores_keys f) as Hkeys.
  pose proof (fold_pick_spec (computeScores f) 0 OTHER) as Hfold.
  assert (Hin : forall k v, In (k, v) (computeScores f) -> score_ok (k, v)).
  { intros k v H. rewrite Forall_forall in Hok. exact (Hok _ H). }
  assert (Hrange :
    In (detectRole f) [KICK; SNARE; HIHAT; BASS; VOCAL; LEAD; PAD; DRUMS; OTHER]).
  { unfold detectRole. cbv zeta in Hfold.
    destruct Hfold as (_ & _ & [Hres|[Hmem Hpos]]).
    - rewrite Hres. simpl. tauto.
    - apply Hin in Hmem. unfold score_ok in Hmem. cbn [fst snd] in Hmem.
      destruct (snd (fold_left pick (computeScores f) (0, OTHER)));
        cbn [In]; try tauto; try contradiction.
      rewrite Hmem in Hpos. discriminate. }
  split; [exact Hrange|].
  split.
  { intro Hbad. simpl in Hrange, Hbad.
    destruct (detectRole f); intuition discriminate. }
  split; [exact Hkeys|].
  split; [intros v H; exact (Hin _ _ H)|].
  split.
  { intros k v H. apply Hin in H. unfold score_ok in H. cbn [fst snd] in H.
    destruct k; try contradiction; tauto. }
  split.
  - (* 'other' is returned: its 0.1 is the maximum, so nothing reached 0.2 *)
    intros Hother k v Hmem Hk.
    unfold detectRole in Hother. cbv zeta in Hfold.
    destruct Hfold as (_ & Hall & Hres).
    assert (Hmax : fst (fold_left pick (computeScores f) (0, OTHER)) <= 0.1).
    { destruct Hres as [Hres|[Hmem' _]].
      - rewrite Hres. discriminate.
      - rewrite Hother in Hmem'. apply Hin in Hmem'.
        unfold score_ok in Hmem'. simpl in Hmem'. rewrite Hmem'. apply Qle_refl. }
    rewrite Forall_forall in Hall. specialize (Hall _ Hmem). simpl in Hall.
    specialize (Hin _ _ Hmem). unfold score_ok in Hin. simpl in Hin.
    destruct k; try contradiction; try assumption; try congruence;
      destruct Hin as [Hz|Hbig]; try assumption; exfalso; Lqa.lra.
  - (* every other score is 0: no entry beats the running maximum before
       'other' does *)
    intros Hzero.
    destruct (computeScores_shape f)
      as (v1 & v2 & v3 & v4 & v5 & v6 & v7 & v8 & v9 & v10 & Hs).
    unfold detectRole. rewrite Hs in *.
    assert (H10 : v10 == 0.1).
    { specialize (Hin OTHER v10). simpl in Hin. apply Hin. tauto. }
    assert (Hz : forall k v,
               In (k, v) [(KICK, v1); (SNARE, v2); (HIHAT, v3); (BASS, v4);
                          (VOCAL, v5); (LEAD, v6); (PAD, v7); (DRUMS, v8);
                          (PERCUSSION, v9)] -> Qgtb v 0 = false).
    { intros k v Hmem. apply Qgtb_le.
      assert (Hv : v == 0).
      { apply (Hzero k); simpl in Hmem |- *.
        - intuition.
        - intuition congruence. }
      rewrite Hv. apply Qle_refl. }
    assert (Hg : Qgtb v10 0 = true) by (rewrite H10; reflexivity).
    cbn [fold_left].
    repeat match goal with
           | |- context [pick (?m, ?r) (?k, ?v)] =>
               change (pick (m, r) (k, v))
                 with (if Qgtb v m then (v, k) else (m, r));
               first [ rewrite (Hz k v) by (cbn [In]; tauto) | rewrite Hg ]
           end.
    reflexivity.
Qed.

End Classifier.

Example detectRole_kickFeatures :
  StemAnalyzer.detectRole kickFeatures = KICK /\
  StemAnalyzer.calculateConfidence kickFeatures KICK == 1.
Proof. split; reflexivity. Qed.

Example detectRole_silentFeatures : StemAnalyzer.detectRole silentFeatures = OTHER.
Proof. reflexivity. Qed.

Example detectRole_defaultFeatures :
  StemAnalyzer.detectRole StemAnalyzer.getDefaultFeatures = VOCAL.
Proof. reflexivity. Qed.

(** ** Stem analysis: a failing extraction stays local *)

Section AnalysisFailure.

Import StemAnalyzer.

Variable AudioBuffer : Type.
Variable Error : Type.
Variable extractAudioFeatures : AudioBuffer -> Error + AudioFeatures.
Variable toFixed : nat -> Q -> string.

Let analyzeOne := analyzeStem extractAudioFeatures toFixed.
Let analyzeAll := analyzeStems extractAudioFeatures toFixed.

Lemma push_loop_map (stems : list (Stem AudioBuffer)) (results : list StemAnalysisResult) :
  fold_left (fun results stem => results ++ [analyzeOne stem]) stems results
  = results ++ map analyzeOne stems.
Proof.
  revert results. induction stems as [|stem rest IH]; intros results; simpl.
  - now rewrite app_nil_r.
  - rewrite IH, <- app_assoc. reflexivity.
Qed.

Lemma analyzeStems_map (stems : list (Stem AudioBuffer)) :
  analyzeAll stems = map analyzeOne stems.
Proof. unfold analyzeAll, analyzeStems. apply (push_loop_map stems []). Qed.

(** C9: when feature extraction throws for a stem, the analysis does not
    fail: the result at that stem's position carries the stem's id, role
    'other', confidence 0.1, the default feature set and the reasoning
    'Analysis failed, assigned generic role'; there is one result per
    stem, in order, and every stem whose extraction succeeds gets its
    regular result. *)
Theorem analyzeStems_isolates_failure
        (audioBuffers : list (Stem AudioBuffer)) (i : nat)
        (stem : Stem AudioBuffer) (error : Error) :
  nth_error audioBuffers i = Some stem ->
  extractAudioFeatures (buffer stem) = inl error ->
  nth_error (analyzeAll audioBuffers) i
  = Some (mkAnalysis (id stem) OTHER 0.1 getDefaultFeatures
                     "Analysis failed, assigned generic role") /\
  List.length (analyzeAll audioBuffers) = List.length audioBuffers /\
  forall (j : nat) (other : Stem AudioBuffer) (f : AudioFeatures),
    nth_error audioBuffers j = Some other ->
    extractAudioFeatures (buffer other) = inr f ->
    nth_error (analyzeAll audioBuffers) j
    = Some (mkAnalysis (id other) (detectRole f)
                       (calculateConfidence f (detectRole f)) f
                       (generateReasoning toFixed f (detectRole f))).
Proof.
  intros Hi Hfail. rewrite analyzeStems_map.
  split; [|split].
  - rewrite nth_error_map, Hi. simpl.
    unfold analyzeOne, analyzeStem. rewrite Hfail. reflexivity.
  - apply length_map.
  - intros j other f Hj Hok.
    rewrite nth_error_map, Hj. simpl.
    unfold analyzeOne, analyzeStem. rewrite Hok. reflexivity.
Qed.

End AnalysisFailure.

Lemma analyzeStems_isolates_failure_witness :
  nth_error (StemAnalyzer.analyzeStems sampleExtract sampleToFixed sampleStems) 1%nat
  = Some (StemAnalyzer.mkAnalysis "stem-2" OTHER 0.1 StemAnalyzer.getDefaultFeatures
                                  "Analysis failed, assigned generic role") /\
  List.length (StemAnalyzer.analyzeStems sampleExtract sampleToFixed sampleStems) = 3%nat.
Proof.
  pose proof (analyzeStems_isolates_failure
                (list Q) string sampleExtract sampleToFixed sampleStems 1%nat
                (StemAnalyzer.mkStem "stem-2" []) "empty channel data"%string
                eq_refl eq_refl) as H.
  split; [exact (proj1 H) | exact (proj1 (proj2 H))].
Defined.

(** The default feature set substituted on failure. *)
Example getDefaultFeatures_values :
  let f := StemAnalyzer.getDefaultFeatures in
  StemAnalyzer.spectralCentroid f = 1000 /\
  StemAnalyzer.spectralRolloff f = 5000 /\
  StemAnalyzer.zeroCrossingRate f = 0.1 /\
  List.length (StemAnalyzer.mfcc f) = 13%nat /\
  List.length (StemAnalyzer.chromaFeatures f) = 12%nat /\
  StemAnalyzer.tempoPeaks f = [] /\
  StemAnalyzer.dynamicRange f = 20 /\
  StemAnalyzer.fundamentalFreq f = 440 /\
  StemAnalyzer.energyDistribution f = StemAnalyzer.mkEnergy 0.1 0.15 0.15 0.25 0.15 0.1 0.1.
Proof. repeat split. Qed.

(** ** The sidechain ducker *)

Section Ducking.

Import SidechainDucker.

(** [disable()] schedules the restoration: an exponential approach
    ([setTargetAtTime], not a jump) to gain 1 with a 50 ms time constant,
    on top of whatever was scheduled before. *)
Lemma disable_schedules_restore (now : Q) (d : Ducker) (g : GainNode) :
  targetStemNode d = Some g ->
  targetStemNode (disable now d) = Some (mkSetTarget 1 now 0.05 :: g) /\
  enabled (settings (disable now d)) = false /\
  isActive (disable now d) = false.
Proof. intros H. unfold disable. rewrite H. repeat split. Qed.

(** [disable()] leaves the follower's callback in place. *)
Lemma disable_keeps_callback (now : Q) (d : Ducker) :
  onLevelChange (envelopeFollower (disable now d)) = onLevelChange (envelopeFollower d).
Proof. reflexivity. Qed.

(** So the next timer tick after [disable()] schedules a ducked gain
    again, whenever the source still has level. *)
Lemma monitor_after_disable_ducks (now later rms : Q) (d : Ducker) (g : GainNode) :
  onLevelChange (envelopeFollower d) = Some duckTarget ->
  targetStemNode d = Some g ->
  0 < rms * sensitivity (envelopeFollower d) * assistantValue (settings d) ->
  exists gain : Q,
    targetStemNode (monitor later rms (disable now d))
    = Some (mkSetTarget gain later 0.01 :: mkSetTarget 1 now 0.05 :: g) /\
    gain < 1.
Proof.
  intros Hcb Htarget Hlevel.
  unfold monitor. rewrite disable_keeps_callback, Hcb.
  unfold levelChanged.
  destruct (disable_schedules_restore now d g Htarget) as (Ht & _ & _).
  rewrite Ht. eexists. split; [reflexivity|].
  cbn [settings disable set_enabled assistantValue envelopeFollower].
  apply Q.max_lub_lt; [reflexivity|]. Lqa.lra.
Qed.

(** C8 on the sample session: the ducker is ducking to 0.68; [disable()]
    at time 1 schedules the approach to gain 1 with time constant 0.05;
    the follower's tick at time 1.01 measures 0.5 again and schedules
    gain 0.68 with time constant 0.01 on top of it.  The ducker is
    disabled and reports itself inactive, and the target's gain is heading
    for 0.68, not for 1. *)
Theorem disable_does_not_stop_ducking :
  let disabled := disable 1 duckingDucker in
  let ticked := monitor 1.01 0.5 disabled in
  (exists ducked : Q,
     option_map headingFor (targetStemNode duckingDucker) = Some ducked /\
     ducked == 0.68) /\
  targetStemNode disabled
  = option_map (cons (mkSetTarget 1 1 0.05)) (targetStemNode duckingDucker) /\
  option_map headingFor (targetStemNode disabled) = Some 1 /\
  enabled (settings ticked) = false /\
  isActive ticked = false /\
  (exists gain : Q,
     targetStemNode ticked
     = option_map (cons (mkSetTarget gain 1.01 0.01)) (targetStemNode disabled) /\
     option_map headingFor (targetStemNode ticked) = Some gain /\
     gain == 0.68 /\ gain < 1).
Proof.
  cbv zeta.
  split.
  { exists (Qmax 0.1 (1 - 0.5 * 0.8 * 0.8)). split; reflexivity. }
  split; [reflexivity|]. split; [reflexivity|].
  split; [reflexivity|]. split; [reflexivity|].
  exists (Qmax 0.1 (1 - 0.5 * 0.8 * 0.8)).
  split; [reflexivity|]. split; [reflexivity|]. split; reflexivity.
Qed.

End Ducking.

(** ** The saturation curve *)

Section Saturation.

Import EffectChain.

Local Open Scope R_scope.

Lemma samples_value : INR samples = 44100.
Proof.
  unfold samples. rewrite INR_IZR_INZ, Z2Nat.id by lia. reflexivity.
Qed.

Lemma samples_pos : (0 < samples)%nat.
Proof. unfold samples. apply Nat2Z.inj_lt. rewrite Z2Nat.id; simpl; lia. Qed.

Lemma sample_x_first : sample_x 0 = -1.
Proof. unfold sample_x. rewrite samples_value. simpl. Lra.lra. Qed.

(** The sampled abscissae run from -1 up to, not including, 1. *)
Lemma sample_x_range (i : nat) : (i < samples)%nat -> -1 <= sample_x i < 1.
Proof.
  intros Hi. unfold sample_x. rewrite samples_value.
  assert (H0 : 0 <= INR i) by apply pos_INR.
  assert (H1 : INR i < 44100).
  { rewrite <- samples_value. now apply lt_INR. }
  split; Lra.lra.
Qed.

Lemma createSaturationCurve_nth (drive : R) (character : string) (i : nat) :
  (i < samples)%nat ->
  nth i (createSaturationCurve drive character) 0 = curve_at drive character i.
Proof.
  intros Hi. unfold createSaturationCurve.
  rewrite nth_indep with (d' := curve_at drive character 0%nat)
    by (rewrite length_map, length_seq; exact Hi).
  rewrite map_nth, seq_nth by exact Hi. reflexivity.
Qed.

Lemma createSaturationCurve_length (drive : R) (character : string) :
  List.length (createSaturationCurve drive character) = samples.
Proof. unfold createSaturationCurve. now rewrite length_map, length_seq. Qed.

(** *** Facts on [tanh] *)

Lemma cosh_pos (x : R) : 0 < cosh x.
Proof.
  unfold cosh. pose proof (exp_pos x). pose proof (exp_pos (- x)). Lra.lra.
Qed.

Lemma tanh_0 : tanh 0 = 0.
Proof. unfold tanh. rewrite sinh_0, cosh_0. Lra.lra. Qed.

Lemma tanh_opp (x : R) : tanh (- x) = - tanh x.
Proof.
  unfold tanh, sinh, cosh. rewrite Ropp_involutive.
  pose proof (exp_pos x). pose proof (exp_pos (- x)). field. Lra.lra.
Qed.

Lemma tanh_lt_1 (x : R) : tanh x < 1.
Proof.
  unfold tanh. pose proof (cosh_pos x) as Hc.
  apply Rmult_lt_reg_r with (cosh x); [exact Hc|].
  unfold Rdiv. rewrite Rmult_assoc, Rinv_l, Rmult_1_r, Rmult_1_l by Lra.lra.
  unfold sinh, cosh. pose proof (exp_pos (- x)). Lra.lra.
Qed.

(** Below the diagonal on the positive side: [tanh x < x] for [0 < x],
    because [x * cosh x - sinh x] vanishes at 0 and has derivative
    [x * sinh x]. *)
Lemma tanh_lt_id (x : R) : 0 < x -> tanh x < x.
Proof.
  intros Hx.
  pose (g := (id * cosh - sinh)%F).
  pose (g' := fun c : R => 1 * cosh c + id c * sinh c - cosh c).
  assert (Hd : forall c, 0 <= c <= x -> derivable_pt_lim g c (g' c)).
  { intros c _. unfold g, g'.
    apply derivable_pt_lim_minus.
    - apply derivable_pt_lim_mult.
      + apply derivable_pt_lim_id.
      + apply derivable_pt_lim_cosh.
    - apply derivable_pt_lim_sinh. }
  destruct (MVT_cor2 g g' 0 x Hx Hd) as (c & Hc & Hc0 & Hcx).
  assert (Hs : 0 < sinh c).
  { rewrite <- sinh_0. apply sinh_lt. exact Hc0. }
  assert (Hg : 0 < g x).
  { assert (H0 : g 0 = 0).
    { unfold g, mult_fct, minus_fct, id. rewrite sinh_0. Lra.lra. }
    assert (Hpos : 0 < g' c * (x - 0)).
    { unfold g', id.
      replace (1 * cosh c + c * sinh c - cosh c) with (c * sinh c) by Lra.lra.
      apply Rmult_lt_0_compat; [apply Rmult_lt_0_compat; assumption | Lra.lra]. }
    Lra.lra. }
  unfold g, mult_fct, minus_fct, id in Hg.
  unfold tanh. pose proof (cosh_pos x) as Hcosh.
  apply Rmult_lt_reg_r with (cosh x); [exact Hcosh|].
  unfold Rdiv. rewrite Rmult_assoc, Rinv_l, Rmult_1_r by Lra.lra.
  Lra.lra.
Qed.

Lemma tanh_pos (x : R) : 0 < x -> 0 < tanh x.
Proof.
  intros Hx. unfold tanh. apply Rdiv_lt_0_compat; [|apply cosh_pos].
  rewrite <- sinh_0. now apply sinh_lt.
Qed.

(** [tanh] meets the identity at 0 only. *)
Lemma tanh_fixpoint (x : R) : tanh x = x <-> x = 0.
Proof.
  split.
  - intros H. destruct (Rtotal_order x 0) as [Hneg|[Hz|Hp]]; [|exact Hz|].
    + exfalso. assert (Hp : 0 < - x) by Lra.lra.
      pose proof (tanh_lt_id (- x) Hp) as Hlt. rewrite tanh_opp in Hlt. Lra.lra.
    + exfalso. pose proof (tanh_lt_id x Hp). Lra.lra.
  - intros ->. apply tanh_0.
Qed.

Lemma tanh_1_bound : tanh 1 <= 0.8.
Proof.
  unfold tanh, sinh, cosh.
  pose proof exp_le_3 as H3. pose proof (exp_pos 1) as Hp.
  assert (Hn : 0 < exp (Ropp 1)) by apply exp_pos.
  assert (Hinv : exp 1 * exp (Ropp 1) = 1).
  { rewrite <- exp_plus. replace (1 + Ropp 1) with 0 by Lra.lra. apply exp_0. }
  revert H3 Hp Hn Hinv.
  generalize (exp 1) (exp (Ropp 1)). intros a b H3 Hp Hn Hinv.
  assert (H9 : a * a <= 9).
  { apply Rle_trans with (3 * 3); [apply Rmult_le_compat|]; Lra.lra. }
  assert (H : a <= 9 * b).
  { apply Rle_trans with (a * a * b).
    - right. rewrite Rmult_assoc, Hinv. ring.
    - apply Rmult_le_compat_r; [Lra.lra | exact H9]. }
  replace ((a - b) / 2 / ((a + b) / 2)) with ((a - b) / (a + b))
    by (field; Lra.lra).
  apply Rmult_le_reg_r with (a + b); [Lra.lra|].
  replace ((a - b) / (a + b) * (a + b)) with (a - b) by (field; Lra.lra).
  Lra.lra.
Qed.

(** *** The curve at drive 0 *)

Lemma sign_abs_tanh (x : R) : sign x * tanh (Rabs x) = tanh x.
Proof.
  unfold sign.
  destruct (Rlt_dec 0 x) as [Hp|Hnp].
  - rewrite Rabs_pos_eq by Lra.lra. Lra.lra.
  - destruct (Rlt_dec x 0) as [Hn|Hnn].
    + rewrite Rabs_left by exact Hn. rewrite tanh_opp. Lra.lra.
    + assert (Hz : x = 0) by Lra.lra. subst x. rewrite tanh_0. Lra.lra.
Qed.

Lemma sign_abs (x : R) : sign x * Rabs x = x.
Proof.
  unfold sign.
  destruct (Rlt_dec 0 x) as [Hp|Hnp].
  - rewrite Rabs_pos_eq by Lra.lra. Lra.lra.
  - destruct (Rlt_dec x 0) as [Hn|Hnn].
    + rewrite Rabs_left by exact Hn. Lra.lra.
    + assert (Hz : x = 0) by Lra.lra. subst x. Lra.lra.
Qed.

Lemma curve_at_tube_zero_drive (i : nat) : curve_at 0 "tube" i = tanh (sample_x i).
Proof.
  unfold curve_at.
  change (String.eqb "tube" "tube") with true. cbv iota.
  replace (Rabs (sample_x i) * (1 + 0 * 0.5)) with (Rabs (sample_x i)) by Lra.lra.
  apply sign_abs_tanh.
Qed.

Lemma curve_at_tape_zero_drive (i : nat) : curve_at 0 "tape" i = tanh (sample_x i).
Proof.
  unfold curve_at.
  change (String.eqb "tape" "tube") with false.
  change (String.eqb "tape" "tape") with true. cbv iota.
  replace (sample_x i * (1 + 0 * 0.3)) with (sample_x i) by Lra.lra.
  reflexivity.
Qed.

Lemma curve_at_transistor_zero_drive (i : nat) :
  curve_at 0 "transistor" i = sign (sample_x i) * Rmin (Rabs (sample_x i)) 0.95.
Proof.
  unfold curve_at.
  change (String.eqb "transistor" "tube") with false.
  change (String.eqb "transistor" "tape") with false.
  change (String.eqb "transistor" "transistor") with true. cbv iota.
  replace (Rabs (sample_x i) * (1 + 0 * 0.8)) with (Rabs (sample_x i)) by Lra.lra.
  reflexivity.
Qed.

(** C3, as stated, fails: at drive 0 the first sample, x = -1, is mapped
    to -0.95 by the transistor curve and to -tanh 1, which is at least
    -0.8, by the tube and tape curves; no tolerance of a thousandth makes
    the three curves the identity on the sampled points. *)
Lemma saturation_curve_zero_drive_not_identity :
  (0 < samples)%nat /\
  sample_x 0 = -1 /\
  nth 0 (createSaturationCurve 0 "transistor") 0 = -0.95 /\
  nth 0 (createSaturationCurve 0 "tube") 0 = - tanh 1 /\
  nth 0 (createSaturationCurve 0 "tape") 0 = - tanh 1 /\
  0.2 <= - tanh 1 - sample_x 0 /\
  ~ (forall character : string,
       In character ["tube"; "tape"; "transistor"]%string ->
       forall i : nat, (i < samples)%nat ->
         Rabs (nth i (createSaturationCurve 0 character) 0 - sample_x i) <= 0.001).
Proof.
  pose proof samples_pos as Hpos.
  pose proof sample_x_first as Hx.
  assert (Htr : nth 0 (createSaturationCurve 0 "transistor") 0 = -0.95).
  { rewrite createSaturationCurve_nth by exact Hpos.
    rewrite curve_at_transistor_zero_drive, Hx.
    unfold sign.
    destruct (Rlt_dec 0 (-1)) as [H|_]; [Lra.lra|].
    destruct (Rlt_dec (-1) 0) as [_|H]; [|Lra.lra].
    rewrite Rabs_left by Lra.lra.
    rewrite Rmin_right by Lra.lra. Lra.lra. }
  assert (Htanh : tanh (-1) = - tanh 1).
  { replace (-1) with (Ropp 1) by Lra.lra. apply tanh_opp. }
  split; [exact Hpos|]. split; [exact Hx|]. split; [exact Htr|].
  split.
  { rewrite createSaturationCurve_nth by exact Hpos.
    now rewrite curve_at_tube_zero_drive, Hx. }
  split.
  { rewrite createSaturationCurve_nth by exact Hpos.
    now rewrite curve_at_tape_zero_drive, Hx. }
  split.
  { rewrite Hx. pose proof tanh_1_bound. Lra.lra. }
  intros Hall.
  specialize (Hall "transistor"%string).
  assert (Hin : In "transistor"%string ["tube"; "tape"; "transistor"]%string)
    by (cbn [In]; tauto).
  specialize (Hall Hin 0%nat Hpos).
  rewrite Htr, Hx in Hall.
  replace (-0.95 - -1) with 0.05 in Hall by Lra.lra.
  rewrite Rabs_pos_eq in Hall by Lra.lra. Lra.lra.
Qed.

(** C3, amended: at drive 0, at every sampled point x (which lies in
    [-1, 1)), the tube curve and the tape curve are y = tanh x, which
    equals x at x = 0 only; the transistor curve is y = x where
    |x| <= 0.95 and is clipped to 0.95 above and to -0.95 below. *)
Theorem saturation_curve_zero_drive (i : nat) :
  (i < samples)%nat ->
  let x := sample_x i in
  -1 <= x < 1 /\
  nth i (createSaturationCurve 0 "tube") 0 = tanh x /\
  nth i (createSaturationCurve 0 "tape") 0 = tanh x /\
  (tanh x = x <-> x = 0) /\
  (Rabs x <= 0.95 -> nth i (createSaturationCurve 0 "transistor") 0 = x) /\
  (0.95 < x -> nth i (createSaturationCurve 0 "transistor") 0 = 0.95) /\
  (x < -0.95 -> nth i (createSaturationCurve 0 "transistor") 0 = -0.95).
Proof.
  intros Hi. cbv zeta.
  rewrite !createSaturationCurve_nth by exact Hi.
  rewrite curve_at_tube_zero_drive, curve_at_tape_zero_drive,
    curve_at_transistor_zero_drive.
  split; [now apply sample_x_range|].
  split; [reflexivity|]. split; [reflexivity|].
  split; [apply tanh_fixpoint|].
  generalize (sample_x i). intros x.
  split; [|split].
  - intros Hx. rewrite Rmin_left by exact Hx. apply sign_abs.
  - intros Hx. unfold sign.
    destruct (Rlt_dec 0 x) as [_|H]; [|exfalso; Lra.lra].
    rewrite Rabs_pos_eq by Lra.lra. rewrite Rmin_right by Lra.lra. Lra.lra.
  - intros Hx. unfold sign.
    destruct (Rlt_dec 0 x) as [H|_]; [exfalso; Lra.lra|].
    destruct (Rlt_dec x 0) as [_|H]; [|exfalso; Lra.lra].
    rewrite Rabs_left by Lra.lra. rewrite Rmin_right by Lra.lra. Lra.lra.
Qed.

Lemma saturation_curve_zero_drive_witness :
  (0 < samples)%nat /\
  nth 0 (createSaturationCurve 0 "tube") 0 = tanh (sample_x 0) /\
  (sample_x 0 < -0.95 -> nth 0 (createSaturationCurve 0 "transistor") 0 = -0.95).
Proof.
  pose proof (saturation_curve_zero_drive 0 samples_pos) as H.
  cbv zeta in H.
  split; [exact samples_pos|].
  split; [exact (proj1 (proj2 H))|].
  exact (proj2 (proj2 (proj2 (proj2 (proj2 (proj2 H)))))).
Defined.

End Saturation.

(** * Further properties of the code *)

(** ** Reasoning on [Math.max] and [Math.min] *)

Ltac q_minmax :=
  repeat match goal with
         | |- context [Qmax ?a ?b] =>
             let H := fresh "Hmax" in
             let m := fresh "m" in
             pose proof (Q.max_spec a b) as H;
             remember (Qmax a b) as m in *;
             match goal with E : m = _ |- _ => clear E end
         | |- context [Qmin ?a ?b] =>
             let H := fresh "Hmin" in
             let m := fresh "m" in
             pose proof (Q.min_spec a b) as H;
             remember (Qmin a b) as m in *;
             match goal with E : m = _ |- _ => clear E end
         | H : context [Qmax ?a ?b] |- _ =>
             let H' := fresh "Hmax" in
             let m := fresh "m" in
             pose proof (Q.max_spec a b) as H';
             remember (Qmax a b) as m in *;
             match goal with E : m = _ |- _ => clear E end
         | H : context [Qmin ?a ?b] |- _ =>
             let H' := fresh "Hmin" in
             let m := fresh "m" in
             pose proof (Q.min_spec a b) as H';
             remember (Qmin a b) as m in *;
             match goal with E : m = _ |- _ => clear E end
         end;
  repeat match goal with
         | H : _ /\ _ \/ _ /\ _ |- _ => destruct H as [[? ?]|[? ?]]
         end;
  try Lqa.lra.

(** ** The parameter mapper, continued *)

Section MapperRanges.

Import MacroProcessor.

(** X1: the gain compensation always lies in [-6, 6] dB; it never boosts
    when the four macros it reads are not negative; and raising any of
    those macros never raises it. *)
Theorem calculateGainCompensation_bounds (s : MixerSettings) :
  -6 <= calculateGainCompensation s /\
  calculateGainCompensation s <= 6 /\
  (0 <= clarity s -> 0 <= warmth s -> 0 <= air s -> 0 <= punch s ->
   calculateGainCompensation s <= 0) /\
  (forall s' : MixerSettings,
     clarity s <= clarity s' -> warmth s <= warmth s' ->
     air s <= air s' -> punch s <= punch s' ->
     calculateGainCompensation s' <= calculateGainCompensation s).
Proof.
  unfold calculateGainCompensation. cbv zeta.
  split; [|split; [|split]].
  - q_minmax.
  - q_minmax.
  - intros Hc Hw Ha Hp. q_minmax.
  - intros s' Hc Hw Ha Hp. q_minmax.
Qed.

Lemma calculateGainCompensation_bounds_witness :
  calculateGainCompensation clubReady <= 0 /\
  calculateGainCompensation clubReady <= calculateGainCompensation initialSettings.
Proof.
  pose proof (calculateGainCompensation_bounds clubReady) as (_ & _ & H0 & _).
  pose proof (calculateGainCompensation_bounds initialSettings) as (_ & _ & _ & Hm).
  split.
  - apply H0; discriminate.
  - apply (Hm clubReady); discriminate.
Defined.

(** The interpolation with the division written as a scaling. *)
Lemma mapRange_scaled_from (v a lo hi : Q) :
  a < 100 ->
  mapRange v a 100 lo hi == lo + (v - a) * ((hi - lo) * / (100 - a)).
Proof. intros Ha. unfold mapRange. field. Lqa.lra. Qed.

(** X2: with every macro in [0,100] the base mapper's parameters stay in
    their ranges: threshold in [-15, 0] dB, ratio in [1, 2.1], attack in
    [20, 30] ms, release in [100, 150] ms, makeup gain in [0, 3] dB,
    saturation drive in [0, 2] and mix in [0, 25] percent, stereo width in
    [50, 150] percent, at most five EQ bands, each enabled with a gain in
    [-3, 4] dB. *)
Theorem mapper_output_ranges (s : MixerSettings) (role : option StemRole) :
  macros_in_range s ->
  let result := processSettingsToChain s role in
  (-15 <= threshold (compression result) <= 0) /\
  (1 <= ratio (compression result) <= 2.1) /\
  (20 <= attack (compression result) <= 30) /\
  (100 <= release (compression result) <= 150) /\
  (0 <= makeupGain (compression result) <= 3) /\
  (0 <= drive (saturation result) <= 2) /\
  (0 <= mix (saturation result) <= 25) /\
  (50 <= sw_width (stereoWidth result) <= 150) /\
  (List.length (eqCurve result) <= 5)%nat /\
  Forall (fun band => eq_enabled band = true /\ -3 <= gain band <= 4) (eqCurve result).
Proof.
  intros ((Hp0 & Hp1) & (Hw0 & Hw1) & (Hc0 & Hc1) & (Ha0 & Ha1) & (Hd0 & Hd1) & _).
  cbv zeta.
  rewrite compression_processSettingsToChain, saturation_processSettingsToChain,
    stereoWidth_processSettingsToChain, eqCurve_processSettingsToChain.
  cbv zeta.
  assert (Hcomp :
    let c := if Qgtb (punch s) 0 then
               mkCompression
                 (mapRange (punch s) 0 100 (-3) (-15))
                 (mapRange (punch s) 0 100 1.3 2.1)
                 (Qmax (if isPercussive role
                        then mapRange (punch s) 0 100 30 10
                        else mapRange (punch s) 0 100 30 15) 20)
                 (Qmax (mapRange (punch s) 0 100 50 150) 100)
                 (mapRange (punch s) 0 100 0 3)
                 (Qgtb (punch s) 5)
             else getDefaultCompression in
    (-15 <= threshold c <= 0) /\ (1 <= ratio c <= 2.1) /\
    (20 <= attack c <= 30) /\ (100 <= release c <= 150) /\
    (0 <= makeupGain c <= 3)).
  { cbv zeta. destruct (Qgtb_cases (punch s) 0) as [[-> Hp]|[-> _]].
    - cbn [threshold ratio attack release makeupGain].
      destruct (isPercussive role);
        rewrite !mapRange_scaled; repeat split; q_minmax.
    - cbn. repeat split; discriminate. }
  cbv zeta in Hcomp.
  destruct Hcomp as (Ht & Hr & Hat & Hrel & Hmk).
  split; [exact Ht|]. split; [exact Hr|]. split; [exact Hat|].
  split; [exact Hrel|]. split; [exact Hmk|].
  assert (Hsat :
    let warm :=
      if Qgtb (warmth s) 0 then
        mkSaturation (mapRange (warmth s) 0 100 0 2) tube
                     (mapRange (warmth s) 0 100 0 25) (Qgtb (warmth s) 10)
      else getDefaultSaturation in
    (0 <= drive warm <= 2) /\ (0 <= mix warm <= 25)).
  { cbv zeta. destruct (Qgtb_cases (warmth s) 0) as [[-> Hw]|[-> _]].
    - cbn [drive mix]. rewrite !mapRange_scaled. repeat split; Lqa.lra.
    - cbn. repeat split; discriminate. }
  cbv zeta in Hsat. destruct Hsat as (Hdr & Hmx).
  split.
  { destruct (Qgtb (punch s) 0); [|exact Hdr].
    cbn [drive]. split; q_minmax. }
  split.
  { destruct (Qgtb (punch s) 0); [|exact Hmx]. exact Hmx. }
  split.
  { destruct (Qneqb (width s) 0).
    - cbn [sw_width]. rewrite mapRange_scaled. split; Lqa.lra.
    - cbn. split; discriminate. }
  split.
  { rewrite !length_app. unfold clarityBands, warmthBands, airBands.
    destruct (Qgtb (clarity s) 0); [destruct (Qgtb (clarity s) 50)|];
      destruct (Qgtb (warmth s) 0); destruct (Qneqb (air s) 0);
      cbn [List.length]; lia. }
  rewrite !Forall_app. split; [|split].
  - unfold clarityBands.
    destruct (Qgtb_cases (clarity s) 0) as [[-> H0]|[-> _]]; [|constructor].
    constructor.
    + cbn [eq_enabled gain]. rewrite mapRange_scaled.
      split; [reflexivity|]. split; Lqa.lra.
    + destruct (Qgtb_cases (clarity s) 50) as [[-> H50]|[-> _]]; [|constructor].
      constructor; [|constructor].
      cbn [eq_enabled gain].
      rewrite (mapRange_scaled_from (clarity s) 50 0 (-2)) by reflexivity.
      setoid_replace (/ (100 - 50)) with (1 # 50) by reflexivity.
      split; [reflexivity|]. split; Lqa.lra.
  - unfold warmthBands.
    destruct (Qgtb_cases (warmth s) 0) as [[-> H0]|[-> _]]; [|constructor].
    constructor; [|constructor; [|constructor]];
      cbn [eq_enabled gain]; rewrite mapRange_scaled;
      (split; [reflexivity|]); split; Lqa.lra.
  - unfold airBands.
    destruct (Qneqb (air s) 0); [|constructor].
    constructor; [|constructor].
    cbn [eq_enabled gain]. rewrite mapRange_scaled.
    split; [reflexivity|]. split; Lqa.lra.
Qed.

Lemma warmAndWide_in_range : macros_in_range warmAndWide.
Proof.
  unfold macros_in_range, macro_in_range, warmAndWide. cbn.
  repeat split; discriminate.
Qed.

Lemma mapper_output_ranges_witness :
  macros_in_range warmAndWide /\
  (50 <= sw_width (stereoWidth (processSettingsToChain warmAndWide (Some PAD))) <= 150).
Proof.
  split; [exact warmAndWide_in_range|].
  pose proof (mapper_output_ranges warmAndWide (Some PAD) warmAndWide_in_range) as H.
  cbv zeta in H.
  exact (proj1 (proj2 (proj2 (proj2 (proj2 (proj2 (proj2 (proj2 H)))))))).
Defined.

(** X3: monotonicity of the base mapper.  Raising clarity never lowers the
    gain of the 8000 Hz shelf, and raising punch never lowers the
    compressor ratio, whatever the other settings and the roles are. *)
Theorem mapper_monotone (s1 s2 : MixerSettings) (role1 role2 : option StemRole) :
  (clarity s1 <= clarity s2 ->
   clarityShelfGain (eqCurve (processSettingsToChain s1 role1))
   <= clarityShelfGain (eqCurve (processSettingsToChain s2 role2))) /\
  (punch s1 <= punch s2 ->
   ratio (compression (processSettingsToChain s1 role1))
   <= ratio (compression (processSettingsToChain s2 role2))).
Proof.
  split; intros Hle.
  - rewrite !clarityShelfGain_processSettingsToChain.
    destruct (Qgtb_cases (clarity s1) 0) as [[-> H1]|[-> H1]];
      destruct (Qgtb_cases (clarity s2) 0) as [[-> H2]|[-> H2]];
      rewrite ?mapRange_scaled; Lqa.lra.
  - rewrite !compression_processSettingsToChain.
    destruct (Qgtb_cases (punch s1) 0) as [[-> H1]|[-> H1]];
      destruct (Qgtb_cases (punch s2) 0) as [[-> H2]|[-> H2]];
      cbn [ratio getDefaultCompression]; rewrite ?mapRange_scaled; Lqa.lra.
Qed.

Lemma mapper_monotone_witness :
  clarity initialSettings <= clarity clubReady /\
  clarityShelfGain (eqCurve (processSettingsToChain initialSettings None))
  <= clarityShelfGain (eqCurve (processSettingsToChain clubReady (Some KICK))).
Proof.
  assert (H : clarity initialSettings <= clarity clubReady) by discriminate.
  split; [exact H|].
  exact (proj1 (mapper_monotone initialSettings clubReady None (Some KICK)) H).
Defined.

Lemma mapper_neutral_result (s : MixerSettings) (role : option StemRole) :
  allMacrosZero s ->
  processSettingsToChain s role
  = mkResult [] getDefaultCompression getDefaultSaturation getDefaultStereoWidth
             getDefaultLimiter (reverb s).
Proof.
  intros (Hp & Hw & Hc & Ha & Hd & _).
  assert (Ep : Qgtb (punch s) 0 = false) by (rewrite Hp; reflexivity).
  assert (Ew : Qgtb (warmth s) 0 = false) by (rewrite Hw; reflexivity).
  assert (Ec : Qgtb (clarity s) 0 = false) by (rewrite Hc; reflexivity).
  assert (Ea : Qneqb (air s) 0 = false).
  { unfold Qneqb. apply Qeq_bool_iff in Ha. now rewrite Ha. }
  assert (Ed : Qneqb (width s) 0 = false).
  { unfold Qneqb. apply Qeq_bool_iff in Hd. now rewrite Hd. }
  unfold processSettingsToChain, stepClarity, stepPunch, stepWarmth, stepWidth,
    stepAir, stepGlue.
  rewrite Ep, Ew, Ec, Ea, Ed. reflexivity.
Qed.

(** X4: with all six macros at 0 the base mapper returns, for every role
    and whatever the loudness targets are, no EQ band, the default
    (disabled) compressor, saturation and stereo width, the default
    (enabled) limiter and a reverb send equal to the reverb value. *)
Theorem mapper_neutral (s : MixerSettings) (role : option StemRole) :
  allMacrosZero s ->
  processSettingsToChain s role
  = mkResult [] getDefaultCompression getDefaultSaturation getDefaultStereoWidth
             getDefaultLimiter (reverb s) /\
  comp_enabled getDefaultCompression = false /\
  sat_enabled getDefaultSaturation = false /\
  sw_enabled getDefaultStereoWidth = false /\
  lim_enabled getDefaultLimiter = true.
Proof.
  intros Hzero.
  split; [exact (mapper_neutral_result s role Hzero)|].
  repeat split.
Qed.

Lemma mapper_neutral_witness :
  allMacrosZero initialSettings /\
  eqCurve (processSettingsToChain initialSettings (Some VOCAL)) = [].
Proof.
  assert (H : allMacrosZero initialSettings) by (repeat split).
  split; [exact H|].
  rewrite (proj1 (mapper_neutral initialSettings (Some VOCAL) H)). reflexivity.
Defined.

(** The base mapper looks at the role only to tell percussive stems from
    the others. *)
Lemma mapper_role_dependence (s : MixerSettings) (role1 role2 : option StemRole) :
  isPercussive role1 = isPercussive role2 ->
  processSettingsToChain s role1 = processSettingsToChain s role2.
Proof.
  intros H. unfold processSettingsToChain, stepPunch. rewrite H. reflexivity.
Qed.

(** *** The enhancers, field by field *)

Lemma enhanceForKick_fields chain s :
  enhanceForKick chain s =
  mkResult
    (mkEQBand 60 (mapRange (punch s) 0 100 0 2) 1.0 bell true
     :: eqCurve chain
     ++ (if Qgtb (clarity s) 50
         then [mkEQBand 4000 (mapRange (clarity s) 50 100 0 1.5) 1.5 bell true]
         else []))
    (set_ratio (Qmax (ratio (compression chain)) 3)
               (set_attack (Qmin (attack (compression chain)) 5) (compression chain)))
    (saturation chain) (stereoWidth chain) (limiterSettings chain) (reverbSend chain).
Proof.
  unfold enhanceForKick. destruct (Qgtb (clarity s) 50);
    cbn; rewrite ?app_nil_r; reflexivity.
Qed.

Lemma enhanceForSnare_fields chain s :
  enhanceForSnare chain s =
  mkResult
    (mkEQBand 250 (mapRange (punch s) 0 100 0 2) 1.2 bell true
     :: eqCurve chain
     ++ (if Qgtb (clarity s) 30
         then [mkEQBand 5000 (mapRange (clarity s) 30 100 0 3) 2.0 bell true]
         else []))
    (compression chain) (saturation chain) (stereoWidth chain)
    (limiterSettings chain) (reverbSend chain).
Proof.
  unfold enhanceForSnare. destruct (Qgtb (clarity s) 30);
    cbn; rewrite ?app_nil_r; reflexivity.
Qed.

Lemma enhanceForBass_fields chain s :
  enhanceForBass chain s =
  mkResult
    (mkEQBand 100 (mapRange (warmth s) 0 100 0 2) 1.0 bell true
     :: eqCurve chain
     ++ (if Qgtb (clarity s) 40
         then [mkEQBand 800 (mapRange (clarity s) 40 100 0 1.5) 1.0 bell true]
         else []))
    (compression chain) (saturation chain)
    (set_width (Qmin (sw_width (stereoWidth chain)) 100) (stereoWidth chain))
    (limiterSettings chain) (reverbSend chain).
Proof.
  unfold enhanceForBass. destruct (Qgtb (clarity s) 40);
    cbn; rewrite ?app_nil_r; reflexivity.
Qed.

Lemma enhanceForVocal_fields chain s :
  enhanceForVocal chain s =
  mkResult
    (mkEQBand 3000 (mapRange (clarity s) 0 100 0 3) 1.2 bell (Qgtb (clarity s) 20)
     :: eqCurve chain
     ++ (if Qgtb (clarity s) 70
         then [mkEQBand 7000 (-1.5) 2.0 bell true]
         else []))
    (set_attack (Qmax (attack (compression chain)) 5)
       (set_ratio (Qmin (ratio (compression chain)) 3)
          (set_threshold (Qmax (threshold (compression chain)) (-12))
                         (compression chain))))
    (saturation chain) (stereoWidth chain) (limiterSettings chain) (reverbSend chain).
Proof.
  unfold enhanceForVocal. destruct (Qgtb (clarity s) 70);
    cbn; rewrite ?app_nil_r; reflexivity.
Qed.

Lemma enhanceForDrums_fields chain s :
  enhanceForDrums chain s =
  mkResult
    (eqCurve chain
     ++ (if Qgtb (air s) 60 then [mkEQBand 10000 (-1) 1.5 bell true] else []))
    (if Qgtb (punch s) 50
     then set_attack (Qmin (attack (compression chain)) 3) (compression chain)
     else compression chain)
    (saturation chain) (stereoWidth chain) (limiterSettings chain) (reverbSend chain).
Proof.
  unfold enhanceForDrums.
  destruct (Qgtb (punch s) 50); destruct (Qgtb (air s) 60);
    cbn; rewrite ?app_nil_r; destruct chain; reflexivity.
Qed.

Lemma enhancer_curve_kept (role : StemRole) (s : MixerSettings) :
  exists pre post : list EQBand,
    eqCurve (getPerRoleChain role s)
    = pre ++ eqCurve (processSettingsToChain s (Some role)) ++ post /\
    (List.length pre <= 1)%nat /\ (List.length post <= 1)%nat.
Proof.
  unfold getPerRoleChain.
  generalize (processSettingsToChain s (Some role)). intros base.
  destruct role;
    rewrite ?enhanceForKick_fields, ?enhanceForSnare_fields, ?enhanceForBass_fields,
      ?enhanceForVocal_fields, ?enhanceForDrums_fields;
    cbn [eqCurve].
  all: try (exists [], []; rewrite app_nil_r; repeat split; cbn; lia).
  all: try (eexists [_], _; split; [reflexivity|]; split; [cbn; lia|];
            match goal with
            | |- context [if ?b then _ else _] => destruct b
            end; cbn; lia).
  eexists [], _. split; [reflexivity|]. split; [cbn; lia|].
  destruct (Qgtb (air s) 60); cbn; lia.
Qed.

Lemma enhancer_fields_kept (role : StemRole) (s : MixerSettings) :
  let base := processSettingsToChain s (Some role) in
  let result := getPerRoleChain role s in
  saturation result = saturation base /\
  limiterSettings result = limiterSettings base /\
  reverbSend result = reverbSend base /\
  comp_enabled (compression result) = comp_enabled (compression base) /\
  release (compression result) = release (compression base) /\
  makeupGain (compression result) = makeupGain (compression base) /\
  sw_enabled (stereoWidth result) = sw_enabled (stereoWidth base).
Proof.
  cbv zeta. unfold getPerRoleChain.
  generalize (processSettingsToChain s (Some role)). intros base.
  destruct role;
    rewrite ?enhanceForKick_fields, ?enhanceForSnare_fields, ?enhanceForBass_fields,
      ?enhanceForVocal_fields, ?enhanceForDrums_fields;
    cbn [saturation limiterSettings reverbSend compression stereoWidth
         comp_enabled release makeupGain sw_enabled set_ratio set_attack
         set_threshold set_width];
    repeat split; try reflexivity; destruct (Qgtb (punch s) 50); reflexivity.
Qed.

(** X5: the per-role enhancer never removes or reorders what the base
    mapper produced: the per-role EQ curve is the base curve with at most
    one band put in front and at most one appended, and the saturation,
    the limiter, the reverb send, the enable flags of compressor and
    stereo width, the compressor's release and makeup gain are those of
    the base result. *)
Theorem enhancer_keeps_base (role : StemRole) (s : MixerSettings) :
  let base := processSettingsToChain s (Some role) in
  let result := getPerRoleChain role s in
  (exists pre post : list EQBand,
     eqCurve result = pre ++ eqCurve base ++ post /\
     (List.length pre <= 1)%nat /\ (List.length post <= 1)%nat) /\
  saturation result = saturation base /\
  limiterSettings result = limiterSettings base /\
  reverbSend result = reverbSend base /\
  comp_enabled (compression result) = comp_enabled (compression base) /\
  release (compression result) = release (compression base) /\
  makeupGain (compression result) = makeupGain (compression base) /\
  sw_enabled (stereoWidth result) = sw_enabled (stereoWidth base).
Proof.
  cbv zeta. split.
  - destruct (enhancer_curve_kept role s) as (pre & post & H).
    exists pre, post. exact H.
  - exact (enhancer_fields_kept role s).
Qed.

(** X6: a stem whose role has no enhancer and is not percussive (pad,
    arpeggio, harmony, fx, other) gets exactly the parameters of a stem
    without a role; hihat and percussion get the base mapping for a
    percussive stem; vocal and lead get the same parameters. *)
Theorem perRoleChain_roles (s : MixerSettings) :
  (forall role, In role [PAD; ARPEGGIO; HARMONY; FX; OTHER] ->
     getPerRoleChain role s = processSettingsToChain s None) /\
  (forall role, In role [HIHAT; PERCUSSION] ->
     getPerRoleChain role s = processSettingsToChain s (Some KICK)) /\
  getPerRoleChain VOCAL s = getPerRoleChain LEAD s.
Proof.
  split; [|split].
  - intros role Hrole. cbn [In] in Hrole.
    destruct Hrole as [<-|[<-|[<-|[<-|[<-|[]]]]]];
      unfold getPerRoleChain; now apply mapper_role_dependence.
  - intros role Hrole. cbn [In] in Hrole.
    destruct Hrole as [<-|[<-|[]]];
      unfold getPerRoleChain; now apply mapper_role_dependence.
  - unfold getPerRoleChain.
    now rewrite (mapper_role_dependence s (Some VOCAL) (Some LEAD)).
Qed.

Lemma perRoleChain_roles_witness :
  In PAD [PAD; ARPEGGIO; HARMONY; FX; OTHER] /\
  getPerRoleChain PAD clubReady = processSettingsToChain clubReady None.
Proof.
  assert (H : In PAD [PAD; ARPEGGIO; HARMONY; FX; OTHER]) by (cbn; tauto).
  split; [exact H|].
  exact (proj1 (perRoleChain_roles clubReady) PAD H).
Defined.

(** X7: for a vocal or lead stem, whatever the settings are, the
    compressor is gentle: threshold at least -12 dB, ratio at most 3,
    attack at least 5 ms.  With punch > 0 the attack is in fact at least
    the 20 ms of the glue rule, which the vocal enhancer never lowers. *)
Theorem vocal_compression_gentle (role : StemRole) (s : MixerSettings) :
  In role [VOCAL; LEAD] ->
  let c := compression (getPerRoleChain role s) in
  -12 <= threshold c /\ ratio c <= 3 /\ 5 <= attack c /\
  (0 < punch s -> 20 <= attack c).
Proof.
  intros Hrole. cbv zeta.
  assert (E : getPerRoleChain role s
              = enhanceForVocal (processSettingsToChain s (Some role)) s).
  { cbn [In] in Hrole. destruct Hrole as [<-|[<-|[]]]; reflexivity. }
  rewrite E, enhanceForVocal_fields.
  cbn [compression threshold ratio attack set_attack set_ratio set_threshold].
  split; [apply Q.le_max_r|]. split; [apply Q.le_min_r|].
  split; [apply Q.le_max_r|].
  intros Hp. rewrite compression_processSettingsToChain.
  apply Qgtb_gt in Hp. rewrite Hp. cbn [attack].
  apply Qle_trans with
    (Qmax (if isPercussive (Some role)
           then mapRange (punch s) 0 100 30 10
           else mapRange (punch s) 0 100 30 15) 20);
    [apply Q.le_max_r | apply Q.le_max_l].
Qed.

Lemma vocal_compression_gentle_witness :
  In LEAD [VOCAL; LEAD] /\
  -12 <= threshold (compression (getPerRoleChain LEAD clubReady)).
Proof.
  assert (H : In LEAD [VOCAL; LEAD]) by (cbn; tauto).
  split; [exact H|].
  exact (proj1 (vocal_compression_gentle LEAD clubReady H)).
Defined.

(** X8: for a drums stem the attack is capped at 3 ms as soon as
    punch > 50, although the glue rule put the base attack at 20 ms or
    more; up to punch = 50 the drums chain keeps the base compressor. *)
Theorem drums_attack (s : MixerSettings) :
  (50 < punch s ->
   attack (compression (getPerRoleChain DRUMS s)) <= 3 /\
   20 <= attack (compression (processSettingsToChain s (Some DRUMS)))) /\
  (punch s <= 50 ->
   compression (getPerRoleChain DRUMS s)
   = compression (processSettingsToChain s (Some DRUMS))).
Proof.
  unfold getPerRoleChain. rewrite enhanceForDrums_fields. cbn [compression].
  split.
  - intros Hp. assert (E : Qgtb (punch s) 50 = true) by now apply Qgtb_gt.
    rewrite E. cbn [attack set_attack].
    split; [apply Q.le_min_r|].
    rewrite compression_processSettingsToChain.
    assert (E0 : Qgtb (punch s) 0 = true).
    { apply Qgtb_gt. apply Qlt_trans with 50; [reflexivity | exact Hp]. }
    rewrite E0. cbn [attack]. apply Q.le_max_r.
  - intros Hp. assert (E : Qgtb (punch s) 50 = false) by now apply Qgtb_le.
    rewrite E. reflexivity.
Qed.

Lemma drums_attack_witness :
  50 < punch clubReady /\
  attack (compression (getPerRoleChain DRUMS clubReady)) <= 3.
Proof.
  assert (H : 50 < punch clubReady) by reflexivity.
  split; [exact H|].
  exact (proj1 (proj1 (drums_attack clubReady) H)).
Defined.

(** Which stages are switched on is decided by the macros alone, for
    every role. *)
Lemma stage_enable_flags (role : StemRole) (s : MixerSettings) :
  let result := getPerRoleChain role s in
  (comp_enabled (compression result) = true <-> 5 < punch s) /\
  (sat_enabled (saturation result) = true <-> 10 < warmth s) /\
  (sw_enabled (stereoWidth result) = true <-> ~ width s == 0) /\
  lim_enabled (limiterSettings result) = true.
Proof.
  cbv zeta.
  destruct (enhancer_fields_kept role s) as (Hs & Hl & _ & Hc & _ & _ & Hw).
  cbv zeta in Hs, Hl, Hc, Hw.
  rewrite Hs, Hl, Hc, Hw.
  rewrite compression_processSettingsToChain, saturation_processSettingsToChain,
    stereoWidth_processSettingsToChain, limiter_processSettingsToChain.
  cbv zeta.
  split; [|split; [|split; [|reflexivity]]].
  - destruct (Qgtb_cases (punch s) 0) as [[-> H0]|[-> H0]]; cbn [comp_enabled].
    + apply Qgtb_gt.
    + cbn. split; [discriminate|]. intros H5. exfalso. Lqa.lra.
  - destruct (Qgtb_cases (warmth s) 0) as [[-> H0]|[-> H0]];
      destruct (Qgtb (punch s) 0); cbn [sat_enabled].
    + apply Qgtb_gt.
    + apply Qgtb_gt.
    + cbn. split; [discriminate|]. intros H10. exfalso. Lqa.lra.
    + cbn. split; [discriminate|]. intros H10. exfalso. Lqa.lra.
  - destruct (Qneqb_cases (width s) 0) as [[-> H0]|[-> H0]]; cbn.
    + tauto.
    + split; [discriminate|]. intros H. contradiction.
Qed.

End MapperRanges.

(** ** The preview engine's use of the mapper *)

Section Preview.

Import MacroProcessor PreviewEngine.

(** X9: gain matching only moves the makeup gain.  With gain matching on
    the makeup gain handed to the effects engine is the mapper's makeup
    gain plus the (non-positive, at least -6 dB) compensation, so for
    macros in [0,100] it lies in [-6, 3] dB; every other field (the EQ
    curve, the rest of the compressor, saturation, stereo width, limiter
    and reverb send) is the mapper's.  With gain matching off the mapper's
    result is handed over unchanged. *)
Theorem preview_gain_match (role : option StemRole) (reference : Q) (s : MixerSettings) :
  let mapped :=
    match role with
    | Some r => getPerRoleChain r s
    | None => processSettingsToChain s None
    end in
  let result := stemProcessingResult role reference s in
  (reference <= 0 -> result = mapped) /\
  (0 < reference ->
   makeupGain (compression result)
   == makeupGain (compression mapped) + calculateGainCompensation s /\
   eqCurve result = eqCurve mapped /\
   threshold (compression result) = threshold (compression mapped) /\
   ratio (compression result) = ratio (compression mapped) /\
   attack (compression result) = attack (compression mapped) /\
   release (compression result) = release (compression mapped) /\
   comp_enabled (compression result) = comp_enabled (compression mapped) /\
   saturation result = saturation mapped /\
   stereoWidth result = stereoWidth mapped /\
   limiterSettings result = limiterSettings mapped /\
   reverbSend result = reverbSend mapped /\
   (macros_in_range s ->
    -6 <= makeupGain (compression result) <= 3)).
Proof.
  cbv zeta. unfold stemProcessingResult. split.
  - intros H. apply Qgtb_le in H. rewrite H. reflexivity.
  - intros H. apply Qgtb_gt in H. rewrite H.
    cbn [compression with_compression set_makeupGain makeupGain eqCurve threshold
         ratio attack release comp_enabled saturation stereoWidth limiterSettings
         reverbSend].
    repeat (split; [reflexivity|]).
    intros Hrange.
    destruct Hrange as ((Hp0 & Hp1) & (Hw0 & _) & (Hc0 & _) & (Ha0 & _) & _).
    assert (Hbase : forall r0 : option StemRole,
               0 <= makeupGain (compression (processSettingsToChain s r0)) <= 3).
    { intros r0. rewrite compression_processSettingsToChain.
      destruct (Qgtb_cases (punch s) 0) as [[-> Hp]|[-> _]]; cbn [makeupGain].
      - rewrite mapRange_scaled. split; Lqa.lra.
      - cbn. split; discriminate. }
    assert (Hmk : 0 <= makeupGain (compression
                    match role with
                    | Some r => getPerRoleChain r s
                    | None => processSettingsToChain s None
                    end) <= 3).
    { destruct role as [r|].
      - destruct (enhancer_fields_kept r s) as (_ & _ & _ & _ & _ & -> & _).
        apply Hbase.
      - apply Hbase. }
    assert (Hgc : -6 <= calculateGainCompensation s <= 0).
    { unfold calculateGainCompensation. cbv zeta. split; q_minmax. }
    revert Hmk Hgc.
    generalize (calculateGainCompensation s).
    generalize (makeupGain (compression
                  match role with
                  | Some r => getPerRoleChain r s
                  | None => processSettingsToChain s None
                  end)).
    intros m g Hmk Hgc. split; Lqa.lra.
Qed.

Lemma preview_gain_match_witness :
  0 < 1 /\ macros_in_range warmAndWide /\
  -6 <= makeupGain (compression (stemProcessingResult (Some BASS) 1 warmAndWide)) <= 3.
Proof.
  assert (H : 0 < 1) by reflexivity.
  split; [exact H|]. split; [exact warmAndWide_in_range|].
  pose proof (preview_gain_match (Some BASS) 1 warmAndWide) as P.
  cbv zeta in P. destruct P as (_ & P).
  exact (proj2 (proj2 (proj2 (proj2 (proj2 (proj2 (proj2 (proj2 (proj2 (proj2
           (proj2 (P H)))))))))))
           warmAndWide_in_range).
Defined.

End Preview.

(** ** The chain builder *)

Section ChainBuilder.

Import MacroProcessor AudioEffectsEngine.

Lemma buildEQChain_filter (path : Path) (curve : list EQBand) :
  buildEQChain path curve = path ++ map eqNodeOf (filter eq_enabled curve).
Proof.
  unfold buildEQChain. revert path.
  induction curve as [|band rest IH]; intros path; cbn [fold_left filter].
  - now rewrite app_nil_r.
  - rewrite IH. destruct (eq_enabled band); [|reflexivity].
    cbn [map]. rewrite <- app_assoc. reflexivity.
Qed.

(** The nodes between the filters and the gain compensation. *)
Lemma buildChain_structure (r : MacroProcessingResult) :
  exists comp sat wid : Path,
    buildChain r
    = InputNode :: map eqNodeOf (filter eq_enabled (eqCurve r))
      ++ comp ++ sat ++ wid ++ chainTail (limiterSettings r) /\
    (Forall (fun n => isEqNode n = false) (comp ++ sat ++ wid)) /\
    existsb isCompressor (comp ++ sat ++ wid) = comp_enabled (compression r) /\
    existsb isSaturation (comp ++ sat ++ wid) = sat_enabled (saturation r) /\
    existsb isStereoWidth (comp ++ sat ++ wid) = sw_enabled (stereoWidth r).
Proof.
  exists (if comp_enabled (compression r)
          then buildCompressor [] (compression r) else []),
         (if sat_enabled (saturation r)
          then buildSaturation [] (saturation r) else []),
         (if sw_enabled (stereoWidth r)
          then buildStereoWidth [] (stereoWidth r) else []).
  unfold buildChain, buildLimiter, chainTail. cbv zeta.
  rewrite buildEQChain_filter.
  unfold buildCompressor, buildSaturation, buildStereoWidth.
  destruct (comp_enabled (compression r));
    destruct (sat_enabled (saturation r));
    destruct (sw_enabled (stereoWidth r));
    destruct (Qneqb (makeupGain (compression r)) 0);
    destruct (Qltb (mix (saturation r)) 100);
    cbn [app]; rewrite <- ?app_assoc; cbn [app];
    (split; [reflexivity|]);
    (split; [repeat constructor|]);
    repeat split.
Qed.

(** Which nodes a chain has. *)
Lemma buildChain_nodes (r : MacroProcessingResult) :
  filter isEqNode (buildChain r) = map eqNodeOf (filter eq_enabled (eqCurve r)) /\
  existsb isCompressor (buildChain r) = comp_enabled (compression r) /\
  existsb isSaturation (buildChain r) = sat_enabled (saturation r) /\
  existsb isStereoWidth (buildChain r) = sw_enabled (stereoWidth r).
Proof.
  destruct (buildChain_structure r) as (comp & sat & wid & E & Hno & Hc & Hs & Hw).
  rewrite E.
  assert (Heq : forall l : list EQBand,
             filter isEqNode (map eqNodeOf l) = map eqNodeOf l).
  { induction l as [|b l IH]; cbn; [reflexivity | now rewrite IH]. }
  assert (Hnone : forall (f : Node -> bool) (l : list EQBand),
             (forall b, f (eqNodeOf b) = false) -> existsb f (map eqNodeOf l) = false).
  { intros f l Hf. induction l as [|b l IH]; cbn; [reflexivity | now rewrite Hf, IH]. }
  assert (Hfil : filter isEqNode (comp ++ sat ++ wid) = []).
  { revert Hno. generalize (comp ++ sat ++ wid). intros l Hl.
    induction Hl as [|n l Hn _ IH]; cbn; [reflexivity | now rewrite Hn]. }
  assert (R : comp ++ sat ++ wid ++ chainTail (limiterSettings r)
              = (comp ++ sat ++ wid) ++ chainTail (limiterSettings r))
    by (now rewrite <- !app_assoc).
  rewrite R.
  split.
  { cbn [filter isEqNode]. rewrite filter_app, Heq, filter_app, Hfil. cbn.
    now rewrite app_nil_r. }
  split.
  { cbn [existsb isCompressor]. rewrite existsb_app, Hnone, existsb_app, Hc by reflexivity.
    cbn. now rewrite orb_false_r. }
  split.
  { cbn [existsb isSaturation]. rewrite existsb_app, Hnone, existsb_app, Hs by reflexivity.
    cbn. now rewrite orb_false_r. }
  cbn [existsb isStereoWidth]. rewrite existsb_app, Hnone, existsb_app, Hw by reflexivity.
  cbn. now rewrite orb_false_r.
Qed.

(** X10: whatever result it is given, [buildChain] puts on the path, in
    this order, one filter per enabled EQ band (in the order of the
    bands, with the band's frequency, gain and Q, a bell as a peaking
    filter), then the dynamics stages, then the gain compensation, the
    limiter (threshold at the result's ceiling, ratio 20, attack 1 ms) and
    the output.  A disabled band or stage contributes no node, an enabled
    one does; the limiter is never left out. *)
Theorem buildChain_stage_order (r : MacroProcessingResult) :
  let path := buildChain r in
  filter isEqNode path = map eqNodeOf (filter eq_enabled (eqCurve r)) /\
  existsb isCompressor path = comp_enabled (compression r) /\
  existsb isSaturation path = sat_enabled (saturation r) /\
  existsb isStereoWidth path = sw_enabled (stereoWidth r) /\
  (exists stages : Path,
     path = InputNode :: map eqNodeOf (filter eq_enabled (eqCurve r))
            ++ stages ++ chainTail (limiterSettings r) /\
     Forall (fun n => isEqNode n = false) stages).
Proof.
  cbv zeta.
  destruct (buildChain_nodes r) as (Hf & Hc & Hs & Hw).
  split; [exact Hf|]. split; [exact Hc|]. split; [exact Hs|]. split; [exact Hw|].
  destruct (buildChain_structure r) as (comp & sat & wid & E & Hno & _).
  exists (comp ++ sat ++ wid). split; [|exact Hno].
  rewrite E, <- !app_assoc. reflexivity.
Qed.

Lemma base_curve_length (s : MixerSettings) (role : option StemRole) :
  (List.length (eqCurve (processSettingsToChain s role)) <= 5)%nat.
Proof.
  rewrite eqCurve_processSettingsToChain, !length_app.
  unfold clarityBands, warmthBands, airBands.
  destruct (Qgtb (clarity s) 0); [destruct (Qgtb (clarity s) 50)|];
    destruct (Qgtb (warmth s) 0); destruct (Qneqb (air s) 0);
    cbn [List.length]; lia.
Qed.

(** X11: the chain built for a stem from the settings.  For every role
    and every settings value it has a compressor exactly when punch > 5,
    a saturator exactly when warmth > 10, a stereo-width network exactly
    when width is not 0, at most seven filters, and it ends with the gain
    compensation, the limiter at -0.1 dBFS (ratio 20, attack 1 ms,
    release 50 ms) and the output.  With all macros at 0 and no role it is
    input, gain compensation, limiter, output and nothing else. *)
Theorem chain_of_settings (role : StemRole) (s : MixerSettings) :
  let path := buildChain (getPerRoleChain role s) in
  (existsb isCompressor path = true <-> 5 < punch s) /\
  (existsb isSaturation path = true <-> 10 < warmth s) /\
  (existsb isStereoWidth path = true <-> ~ width s == 0) /\
  (List.length (filter isEqNode path) <= 7)%nat /\
  (exists stages : Path,
     path = InputNode :: stages
            ++ [GainCompensation; Limiter (-0.1) 20 0.001 (50 / 1000); OutputNode]) /\
  (allMacrosZero s ->
   buildChain (processSettingsToChain s None)
   = [InputNode; GainCompensation; Limiter (-0.1) 20 0.001 (50 / 1000); OutputNode]).
Proof.
  cbv zeta.
  destruct (buildChain_nodes (getPerRoleChain role s)) as (Hf & Hc & Hs & Hw).
  destruct (buildChain_structure (getPerRoleChain role s))
    as (comp & sat & wid & Hpath & _).
  destruct (stage_enable_flags role s) as (Fc & Fs & Fw & _).
  cbv zeta in Fc, Fs, Fw.
  rewrite Hc, Hs, Hw.
  split; [exact Fc|]. split; [exact Fs|]. split; [exact Fw|].
  split.
  { rewrite Hf, length_map.
    apply Nat.le_trans with (List.length (eqCurve (getPerRoleChain role s)));
      [apply filter_length_le|].
    destruct (enhancer_curve_kept role s) as (pre & post & E & Hpre & Hpost).
    rewrite E, !length_app.
    pose proof (base_curve_length s (Some role)). lia. }
  split.
  { rewrite limiter_getPerRoleChain in Hpath.
    exists (map eqNodeOf (filter eq_enabled (eqCurve (getPerRoleChain role s)))
            ++ comp ++ sat ++ wid).
    rewrite Hpath, <- !app_assoc. reflexivity. }
  intros Hzero.
  rewrite (mapper_neutral_result s None Hzero). reflexivity.
Qed.

Lemma chain_of_settings_witness :
  allMacrosZero initialSettings /\
  buildChain (processSettingsToChain initialSettings None)
  = [InputNode; GainCompensation; Limiter (-0.1) 20 0.001 (50 / 1000); OutputNode].
Proof.
  assert (H : allMacrosZero initialSettings) by (repeat split).
  split; [exact H|].
  pose proof (chain_of_settings KICK initialSettings) as P. cbv zeta in P.
  exact (proj2 (proj2 (proj2 (proj2 (proj2 P)))) H).
Defined.

(** *** The mid/side network *)

(** X12: what the stereo-width network does to a stereo sample.  It keeps
    the mid signal: the sum of the two outputs is the sum of the two
    inputs; it scales the side signal: the difference of the outputs is
    width/100 times the difference of the inputs.  At width 100 the sample
    passes unchanged, at width 0 both outputs are the mean of the inputs. *)
Theorem stereoWidth_mid_side (settings : StereoWidthSettings) (l r : Q) :
  let out := stereoWidthSample settings l r in
  fst out + snd out == l + r /\
  fst out - snd out == sw_width settings / 100 * (l - r) /\
  (sw_width settings == 100 -> fst out == l /\ snd out == r) /\
  (sw_width settings == 0 -> fst out == (l + r) / 2 /\ snd out == (l + r) / 2).
Proof.
  cbv zeta. unfold stereoWidthSample. cbn [fst snd].
  generalize (sw_width settings). intros w.
  split; [field|]. split; [field|]. split; intros H; rewrite H; split; field.
Qed.

Lemma stereoWidth_mid_side_witness :
  sw_width getDefaultStereoWidth == 100 /\
  fst (stereoWidthSample getDefaultStereoWidth 0.5 (-0.25)) == 0.5.
Proof.
  assert (H : sw_width getDefaultStereoWidth == 100) by reflexivity.
  split; [exact H|].
  pose proof (stereoWidth_mid_side getDefaultStereoWidth 0.5 (-0.25)) as P.
  cbv zeta in P.
  exact (proj1 (proj1 (proj2 (proj2 P)) H)).
Defined.

(** X13: bass stays mono-safe through the network.  For a bass stem and a
    width macro in [0,100], the network fed with the per-role width never
    widens the image: the difference of the outputs is at most the
    difference of the inputs in absolute value, and the mid signal is
    kept. *)
Theorem bass_never_widened (s : MixerSettings) (l r : Q) :
  macro_in_range (width s) ->
  let out := stereoWidthSample (stereoWidth (getPerRoleChain BASS s)) l r in
  Qabs (fst out - snd out) <= Qabs (l - r) /\
  fst out + snd out == l + r.
Proof.
  intros (H0 & H100). cbv zeta.
  assert (Hsum :
    fst (stereoWidthSample (stereoWidth (getPerRoleChain BASS s)) l r)
    + snd (stereoWidthSample (stereoWidth (getPerRoleChain BASS s)) l r) == l + r).
  { unfold stereoWidthSample. cbn [fst snd]. field. }
  assert (Hdiff :
    fst (stereoWidthSample (stereoWidth (getPerRoleChain BASS s)) l r)
    - snd (stereoWidthSample (stereoWidth (getPerRoleChain BASS s)) l r)
    == sw_width (stereoWidth (getPerRoleChain BASS s)) / 100 * (l - r)).
  { unfold stereoWidthSample. cbn [fst snd]. field. }
  split; [|exact Hsum].
  rewrite Hdiff, Qabs_Qmult.
  assert (Hw : 0 <= sw_width (stereoWidth (getPerRoleChain BASS s)) <= 100).
  { unfold getPerRoleChain. rewrite enhanceForBass_fields.
    cbn [stereoWidth sw_width set_width].
    rewrite stereoWidth_processSettingsToChain.
    destruct (Qneqb (width s) 0); cbn [sw_width getDefaultStereoWidth];
      rewrite ?mapRange_scaled; split; q_minmax. }
  revert Hw. generalize (sw_width (stereoWidth (getPerRoleChain BASS s))).
  intros w (Hw0 & Hw1).
  assert (Hk : 0 <= w / 100 <= 1).
  { unfold Qdiv. setoid_replace (/ 100) with (1 # 100) by reflexivity.
    split; Lqa.lra. }
  rewrite (Qabs_pos (w / 100)) by apply Hk.
  pose proof (Qabs_nonneg (l - r)) as Hd.
  revert Hk Hd. generalize (w / 100) (Qabs (l - r)). intros k d (Hk0 & Hk1) Hd.
  setoid_replace d with (1 * d) at 2 by ring.
  apply Qmult_le_compat_r; assumption.
Qed.

Lemma bass_never_widened_witness :
  macro_in_range (width warmAndWide) /\
  Qabs (fst (stereoWidthSample (stereoWidth (getPerRoleChain BASS warmAndWide)) 1 (-1))
        - snd (stereoWidthSample (stereoWidth (getPerRoleChain BASS warmAndWide)) 1 (-1)))
  <= Qabs (1 - -1).
Proof.
  assert (H : macro_in_range (width warmAndWide)) by (split; discriminate).
  split; [exact H|].
  exact (proj1 (bass_never_widened warmAndWide 1 (-1) H)).
Defined.

End ChainBuilder.

(** ** The saturation curve for any drive *)

Section SaturationBounds.

Import EffectChain.

Local Open Scope R_scope.

Lemma tanh_nonneg (y : R) : 0 <= y -> 0 <= tanh y < 1.
Proof.
  intros Hy. split; [|apply tanh_lt_1].
  destruct Hy as [Hy|<-]; [left; now apply tanh_pos | rewrite tanh_0; Lra.lra].
Qed.

Lemma tanh_nonpos (y : R) : y <= 0 -> -1 < tanh y <= 0.
Proof.
  intros Hy. assert (H : 0 <= - y) by Lra.lra.
  apply tanh_nonneg in H. rewrite tanh_opp in H. Lra.lra.
Qed.

Lemma sign_times (x m : R) :
  0 <= m <= 1 -> -1 <= sign x * m <= 1 /\ 0 <= sign x * m * x.
Proof.
  intros (Hm0 & Hm1). unfold sign.
  destruct (Rlt_dec 0 x) as [Hp|Hnp].
  - split; [Lra.lra|]. rewrite Rmult_1_l. apply Rmult_le_pos; Lra.lra.
  - destruct (Rlt_dec x 0) as [Hn|Hnn].
    + split; [Lra.lra|].
      replace (-1 * m * x) with (m * - x) by ring. apply Rmult_le_pos; Lra.lra.
    + split; Lra.lra.
Qed.

(** X14: for every drive that is not negative and every character name,
    known or not, the curve has 44100 samples, every sample lies in
    [-1, 1], and no sample has the opposite sign of its input: the
    waveshaper never exceeds full scale and never flips polarity. *)
Theorem saturation_curve_bounded (drive : R) (character : string) (i : nat) :
  0 <= drive -> (i < samples)%nat ->
  let y := nth i (createSaturationCurve drive character) 0 in
  -1 <= y <= 1 /\
  0 <= y * sample_x i /\
  List.length (createSaturationCurve drive character) = Z.to_nat 44100.
Proof.
  intros Hd Hi. cbv zeta.
  rewrite createSaturationCurve_nth by exact Hi.
  rewrite createSaturationCurve_length.
  pose proof (sample_x_range i Hi) as Hx.
  unfold curve_at. revert Hx. generalize (sample_x i). intros x Hx.
  pose proof (Rabs_pos x) as Habs.
  destruct (String.eqb character "tube").
  { assert (Hk : 0 <= Rabs x * (1 + drive * 0.5)).
    { apply Rmult_le_pos; Lra.lra. }
    pose proof (tanh_nonneg _ Hk) as Ht.
    destruct (sign_times x (tanh (Rabs x * (1 + drive * 0.5)))) as (Hb & Hs);
      [Lra.lra|].
    repeat split; try Lra.lra. }
  destruct (String.eqb character "tape").
  { assert (Hk : 0 < 1 + drive * 0.3) by Lra.lra.
    destruct (Rle_dec 0 x) as [Hpos|Hneg].
    - assert (Hy : 0 <= x * (1 + drive * 0.3)) by (apply Rmult_le_pos; Lra.lra).
      pose proof (tanh_nonneg _ Hy) as Ht.
      repeat split; try Lra.lra. apply Rmult_le_pos; Lra.lra.
    - assert (Hy : x * (1 + drive * 0.3) <= 0).
      { replace (x * (1 + drive * 0.3)) with (- (- x * (1 + drive * 0.3))) by ring.
        assert (0 <= - x * (1 + drive * 0.3)) by (apply Rmult_le_pos; Lra.lra).
        Lra.lra. }
      pose proof (tanh_nonpos _ Hy) as Ht.
      repeat split; try Lra.lra.
      replace (tanh (x * (1 + drive * 0.3)) * x)
        with (- tanh (x * (1 + drive * 0.3)) * - x) by ring.
      apply Rmult_le_pos; Lra.lra. }
  destruct (String.eqb character "transistor").
  { assert (Hk : 0 <= Rabs x * (1 + drive * 0.8)).
    { apply Rmult_le_pos; Lra.lra. }
    assert (Hm : 0 <= Rmin (Rabs x * (1 + drive * 0.8)) 0.95 <= 1).
    { split; [apply Rmin_glb; Lra.lra|].
      apply Rle_trans with 0.95; [apply Rmin_r | Lra.lra]. }
    destruct (sign_times x _ Hm) as (Hb & Hs).
    repeat split; try Lra.lra. }
  repeat split; try Lra.lra.
  destruct (Rle_dec 0 x) as [Hpos|Hneg].
  - apply Rmult_le_pos; Lra.lra.
  - replace (x * x) with (- x * - x) by ring. apply Rmult_le_pos; Lra.lra.
Qed.

Lemma saturation_curve_bounded_witness :
  0 <= 2 /\ (0 < samples)%nat /\
  -1 <= nth 0 (createSaturationCurve 2 "tape") 0 <= 1.
Proof.
  assert (H : 0 <= 2) by Lra.lra.
  split; [exact H|]. split; [exact samples_pos|].
  exact (proj1 (saturation_curve_bounded 2 "tape" 0 H samples_pos)).
Defined.

End SaturationBounds.

(** ** The engine's registry of effect chains *)

Section Registry.

Import MacroProcessor AudioEffectsEngine.

Lemma map_get_none (key : string) (m : list (string * Chain)) :
  map_get key m = None <-> ~ In key (map fst m).
Proof.
  induction m as [|[k v] rest IH]; cbn [map_get map fst In].
  - tauto.
  - destruct (String.eqb_spec k key) as [->|Hne].
    + split; [discriminate | tauto].
    + rewrite IH. tauto.
Qed.

Lemma map_get_set (key key' : string) (value : Chain) (m : list (string * Chain)) :
  map_get key' (map_set key value m)
  = if String.eqb key key' then Some value else map_get key' m.
Proof.
  induction m as [|[k v] rest IH]; cbn [map_get map_set].
  - reflexivity.
  - destruct (String.eqb_spec k key) as [->|Hne]; cbn [map_get].
    + destruct (String.eqb key key'); reflexivity.
    + rewrite IH. destruct (String.eqb_spec k key') as [->|Hne'].
      * destruct (String.eqb_spec key key') as [->|_]; [contradiction | reflexivity].
      * reflexivity.
Qed.

Lemma map_set_keys (key : string) (value : Chain) (m : list (string * Chain)) :
  map fst (map_set key value m)
  = match map_get key m with
    | Some _ => map fst m
    | None => map fst m ++ [key]
    end.
Proof.
  induction m as [|[k v] rest IH]; cbn [map_get map_set map fst app].
  - reflexivity.
  - destruct (String.eqb k key); cbn [map fst]; [reflexivity|].
    rewrite IH. destruct (map_get key rest); reflexivity.
Qed.

Lemma map_delete_keys (key : string) (m : list (string * Chain)) :
  NoDup (map fst m) ->
  NoDup (map fst (map_delete key m)) /\
  ~ In key (map fst (map_delete key m)) /\
  (forall key', key' <> key -> map_get key' (map_delete key m) = map_get key' m) /\
  (forall chain, map_get key m = Some chain ->
     S (List.length (map_delete key m)) = List.length m).
Proof.
  induction m as [|[k v] rest IH]; cbn [map_get map_delete map fst]; intros Hnd.
  - repeat split; [constructor | tauto | discriminate].
  - inversion Hnd as [|? ? Hk Hrest]; subst.
    destruct (IH Hrest) as (IH1 & IH2 & IH3 & IH4).
    destruct (String.eqb_spec k key) as [->|Hne].
    + repeat split; try assumption.
      intros key' Hne. cbn [map_get].
      destruct (String.eqb_spec key key'); [congruence | reflexivity].
    + cbn [map fst map_get In List.length]. repeat split.
      * constructor; [|assumption]. intro Hin. apply Hk.
        clear - Hin. induction rest as [|[k' v'] rest IHr]; cbn in *; [tauto|].
        destruct (String.eqb k' key); cbn in *; tauto.
      * tauto.
      * intros key' Hne'. destruct (String.eqb k key'); [reflexivity | now apply IH3].
      * intros chain Hget. f_equal. now apply (IH4 chain).
Qed.

Lemma call_balanced (e : Engine) (n : nat) (c : Call) :
  balanced e n ->
  balanced (call e c)
           (match c with CreateEffectChain _ _ => S n | _ => n end).
Proof.
  intros (Hnd & Hn). destruct c as [stemId r|stemId|]; cbn [call].
  - unfold createEffectChain, balanced. cbn [effectChains disposed].
    rewrite map_set_keys.
    assert (Hlen : List.length (map_set stemId r (effectChains e))
                   = List.length (map fst (map_set stemId r (effectChains e))))
      by (now rewrite length_map).
    rewrite Hlen, map_set_keys.
    destruct (map_get stemId (effectChains e)) eqn:E.
    + split; [assumption|]. rewrite length_map. cbn [List.length]. lia.
    + split.
      * apply map_get_none in E. apply NoDup_app; repeat split.
        -- assumption.
        -- constructor; [tauto | constructor].
        -- intros k Hin [<-|[]]. contradiction.
      * rewrite length_app, length_map. cbn [List.length]. lia.
  - unfold removeEffectChain.
    destruct (map_get stemId (effectChains e)) eqn:E.
    + destruct (map_delete_keys stemId (effectChains e) Hnd) as (H1 & _ & _ & H4).
      specialize (H4 _ E).
      split; cbn [effectChains disposed List.length]; [assumption | lia].
    + split; assumption.
  - unfold dispose, balanced. cbn [effectChains disposed map List.length].
    split; [constructor|].
    rewrite length_app, length_rev, length_map. lia.
Qed.

Lemma calls_balanced_from (cs : list Call) (e : Engine) (n : nat) :
  balanced e n -> balanced (fold_left call cs e) (n + created cs).
Proof.
  revert e n. induction cs as [|c cs IH]; intros e n H; cbn [fold_left].
  - unfold created. cbn. now rewrite Nat.add_0_r.
  - apply call_balanced with (c := c) in H. apply IH in H.
    unfold created in *. cbn [filter].
    destruct c; cbn [List.length] in *;
      [replace (n + S (List.length
          (filter (fun c => match c with CreateEffectChain _ _ => true | _ => false end) cs)))%nat
         with (S n + List.length
          (filter (fun c => match c with CreateEffectChain _ _ => true | _ => false end) cs))%nat
         by lia|..]; exact H.
Qed.

(** X15: no chain is lost.  After any sequence of calls on a new engine
    the registry holds at most one chain per stem id, and the number of
    chains created equals the number still registered plus the number
    disposed; right after [dispose()] every chain ever created has been
    disposed and the registry is empty. *)
Theorem engine_disposes_every_chain (cs : list Call) :
  NoDup (map fst (effectChains (calls cs))) /\
  created cs
  = (List.length (effectChains (calls cs)) + List.length (disposed (calls cs)))%nat /\
  effectChains (dispose (calls cs)) = [] /\
  List.length (disposed (dispose (calls cs))) = created cs.
Proof.
  assert (H0 : balanced emptyEngine 0) by (split; [constructor | reflexivity]).
  pose proof (calls_balanced_from cs emptyEngine 0 H0) as (Hnd & Hn).
  fold (calls cs) in Hnd, Hn. cbn [Nat.add] in Hn.
  split; [exact Hnd|]. split; [exact Hn|]. split; [reflexivity|].
  unfold dispose. cbn [disposed].
  rewrite length_app, length_rev, length_map. lia.
Qed.

(** X16: the registry as a map.  On an engine reached by any calls,
    creating a chain for a stem makes it the stem's chain, disposes the
    chain the stem had and leaves the other stems' chains alone; removing
    a stem's chain disposes it, leaves the stem without chain and the
    others alone; removing a chain that is not there changes nothing. *)
Theorem engine_registry_laws (cs : list Call) (stemId : string)
        (r : MacroProcessingResult) :
  let e := calls cs in
  getEffectChain stemId (createEffectChain stemId r e) = Some r /\
  (forall other, other <> stemId ->
     getEffectChain other (createEffectChain stemId r e) = getEffectChain other e) /\
  (forall old, getEffectChain stemId e = Some old ->
     disposed (createEffectChain stemId r e) = old :: disposed e) /\
  getEffectChain stemId (removeEffectChain stemId e) = None /\
  (forall other, other <> stemId ->
     getEffectChain other (removeEffectChain stemId e) = getEffectChain other e) /\
  (forall old, getEffectChain stemId e = Some old ->
     disposed (removeEffectChain stemId e) = old :: disposed e) /\
  (getEffectChain stemId e = None -> removeEffectChain stemId e = e).
Proof.
  cbv zeta.
  assert (H0 : balanced emptyEngine 0) by (split; [constructor | reflexivity]).
  pose proof (calls_balanced_from cs emptyEngine 0 H0) as (Hnd & _).
  fold (calls cs) in Hnd.
  generalize dependent (calls cs). intros e Hnd.
  unfold getEffectChain, createEffectChain, removeEffectChain.
  split; [|split; [|split; [|split; [|split; [|split]]]]].
  - cbn [effectChains]. rewrite map_get_set, String.eqb_refl. reflexivity.
  - intros other Hne. cbn [effectChains]. rewrite map_get_set.
    destruct (String.eqb_spec stemId other); [congruence | reflexivity].
  - intros old Hold. rewrite Hold. reflexivity.
  - destruct (map_get stemId (effectChains e)) eqn:E; cbn [effectChains].
    + apply map_get_none. apply (map_delete_keys stemId _ Hnd).
    + exact E.
  - intros other Hne.
    destruct (map_get stemId (effectChains e)) eqn:E; cbn [effectChains];
      [|reflexivity].
    apply (map_delete_keys stemId _ Hnd). exact Hne.
  - intros old Hold. rewrite Hold. reflexivity.
  - intros Hnone. rewrite Hnone. reflexivity.
Qed.

End Registry.

(** ** The classifier, continued *)

Section ClassifierOrder.

Import StemAnalyzer.

(** The loop over the entries picks the first entry that carries the
    maximum, if any entry exceeds the initial maximum. *)
Lemma fold_pick_first_max (l : Scores) (m : Q) (r : StemRole) :
  let res := fold_left pick l (m, r) in
  (res = (m, r) /\ Forall (fun entry => snd entry <= m) l) \/
  (exists l1 l2 : Scores,
     l = l1 ++ (snd res, fst res) :: l2 /\
     Forall (fun entry => snd entry < fst res) l1 /\
     Forall (fun entry => snd entry <= fst res) l2 /\
     m < fst res).
Proof.
  cbv zeta.
  revert m r. induction l as [|[k v] rest IH]; intros m r; cbn [fold_left].
  - left. split; [reflexivity | constructor].
  - change (pick (m, r) (k, v)) with (if Qltb m v then (v, k) else (m, r)).
    destruct (Qltb_reflect m v) as [Hlt|Hge]; cbv iota.
    + right. destruct (IH v k) as [(Hres & Hall)|(l1 & l2 & Hl & H1 & H2 & Hm)].
      * rewrite Hres. cbn [fst snd]. exists [], rest.
        repeat split; [constructor | exact Hall | exact Hlt].
      * exists ((k, v) :: l1), l2. rewrite Hl at 1.
        repeat split; try assumption.
        -- constructor; assumption.
        -- apply Qlt_trans with v; assumption.
    + apply Qnot_lt_le in Hge.
      destruct (IH m r) as [(Hres & Hall)|(l1 & l2 & Hl & H1 & H2 & Hm)].
      * left. split; [exact Hres | constructor; assumption].
      * right. exists ((k, v) :: l1), l2. rewrite Hl at 1.
        repeat split; try assumption.
        constructor; [|assumption]. cbn [snd].
        apply Qle_lt_trans with m; assumption.
Qed.

(** X17: the classifier returns the first role, in the order kick, snare,
    hihat, bass, vocal, lead, pad, drums, percussion, other, whose score
    is the maximum: its score is at least the 0.1 of 'other', every role
    before it has a strictly smaller score and no role after it has a
    larger one.  Ties go to the earlier role. *)
Theorem detectRole_first_maximum (f : AudioFeatures) :
  exists (score : Q) (before after : Scores),
    computeScores f = before ++ (detectRole f, score) :: after /\
    0.1 <= score /\
    Forall (fun entry => snd entry < score) before /\
    Forall (fun entry => snd entry <= score) after.
Proof.
  pose proof (fold_pick_first_max (computeScores f) 0 OTHER) as H.
  cbv zeta in H. unfold detectRole.
  destruct (computeScores_shape f)
    as (v1 & v2 & v3 & v4 & v5 & v6 & v7 & v8 & v9 & v10 & Hs).
  pose proof (computeScores_ok f) as Hok. rewrite Forall_forall in Hok.
  assert (Hother : In (OTHER, v10) (computeScores f)).
  { rewrite Hs. cbn [In]. tauto. }
  assert (H10 : v10 == 0.1) by exact (Hok _ Hother).
  destruct H as [(_ & Hall)|(l1 & l2 & Hl & H1 & H2 & _)].
  - exfalso. rewrite Forall_forall in Hall. specialize (Hall _ Hother).
    cbn [snd] in Hall. Lqa.lra.
  - exists (fst (fold_left pick (computeScores f) (0, OTHER))), l1, l2.
    split; [exact Hl|]. split; [|split; assumption].
    assert (Hle : forall entry, In entry (computeScores f) ->
              snd entry <= fst (fold_left pick (computeScores f) (0, OTHER))).
    { intros entry Hin. rewrite Hl in Hin. apply in_app_or in Hin.
      rewrite Forall_forall in H1, H2.
      destruct Hin as [Hin|[<-|Hin]].
      - apply Qlt_le_weak. now apply H1.
      - apply Qle_refl.
      - now apply H2. }
    specialize (Hle _ Hother). cbn [snd] in Hle. now rewrite <- H10.
Qed.

(** X18: the confidence is always between 0.3 and 1; it is at least 0.5
    for kick, snare, bass and vocal, and exactly 0.3 for every other
    role, so a stem detected as hihat, lead, pad or drums never reaches
    a confidence above 0.3. *)
Theorem calculateConfidence_range (f : AudioFeatures) (role : StemRole) :
  0.3 <= calculateConfidence f role <= 1 /\
  (In role [KICK; SNARE; BASS; VOCAL] -> 0.5 <= calculateConfidence f role) /\
  (~ In role [KICK; SNARE; BASS; VOCAL] -> calculateConfidence f role == 0.3).
Proof.
  unfold calculateConfidence. cbv zeta.
  split; [|split].
  - destruct role;
      repeat match goal with
             | |- context [if ?b then _ else _] => destruct b
             end; split; q_minmax.
  - intros Hrole. cbn [In] in Hrole.
    destruct Hrole as [<-|[<-|[<-|[<-|[]]]]];
      repeat match goal with
             | |- context [if ?b then _ else _] => destruct b
             end; q_minmax.
  - intros Hrole. cbn [In] in Hrole.
    destruct role; try (exfalso; tauto); q_minmax.
Qed.

Lemma calculateConfidence_range_witness :
  In KICK [KICK; SNARE; BASS; VOCAL] /\
  0.5 <= calculateConfidence kickFeatures KICK.
Proof.
  assert (H : In KICK [KICK; SNARE; BASS; VOCAL]) by (cbn; tauto).
  split; [exact H|].
  exact (proj1 (proj2 (calculateConfidence_range kickFeatures KICK)) H).
Defined.

End ClassifierOrder.

(** ** Stem analysis, continued *)

Section AnalysisResults.

Import StemAnalyzer.

Lemma detectRole_scored_or_other (f : AudioFeatures) :
  In (detectRole f) [KICK; SNARE; HIHAT; BASS; VOCAL; LEAD; PAD; DRUMS; OTHER].
Proof.
  pose proof (computeScores_ok f) as Hok. rewrite Forall_forall in Hok.
  pose proof (fold_pick_spec (computeScores f) 0 OTHER) as Hfold.
  unfold detectRole. cbv zeta in Hfold.
  destruct Hfold as (_ & _ & [Hres|[Hmem Hpos]]).
  - rewrite Hres. cbn. tauto.
  - apply Hok in Hmem. unfold score_ok in Hmem. cbn [fst snd] in Hmem.
    destruct (snd (fold_left pick (computeScores f) (0, OTHER)));
      cbn [In]; try tauto; try contradiction.
    exfalso. Lqa.lra.
Qed.

Lemma calculateConfidence_bounds (f : AudioFeatures) (role : StemRole) :
  0.3 <= calculateConfidence f role <= 1.
Proof.
  unfold calculateConfidence. cbv zeta.
  destruct role;
    repeat match goal with
           | |- context [if ?b then _ else _] => destruct b
           end; split; q_minmax.
Qed.

Variable AudioBuffer : Type.
Variable Error : Type.
Variable extractAudioFeatures : AudioBuffer -> Error + AudioFeatures.
Variable toFixed : nat -> Q -> string.

(** X19: the results of a stem analysis, whatever the stems are.  There
    is one result per stem, in the order of the stems and under the
    stem's id; every confidence lies in [0.1, 1] and every role is one of
    kick, snare, hihat, bass, vocal, lead, pad, drums, other; and a result
    has confidence 0.1 exactly when the extraction failed for its stem: an
    analysis that succeeded reports at least 0.3. *)
Theorem analyzeStems_results (audioBuffers : list (Stem AudioBuffer)) :
  let results := analyzeStems extractAudioFeatures toFixed audioBuffers in
  map stemId results = map id audioBuffers /\
  Forall (fun result =>
            0.1 <= confidence result <= 1 /\
            In (detectedRole result)
               [KICK; SNARE; HIHAT; BASS; VOCAL; LEAD; PAD; DRUMS; OTHER])
         results /\
  Forall2 (fun stem result =>
             confidence result == 0.1 <->
             exists error, extractAudioFeatures (buffer stem) = inl error)
          audioBuffers results.
Proof.
  cbv zeta. rewrite analyzeStems_map.
  induction audioBuffers as [|stem rest (IHid & IHall & IHfail)]; cbn [map].
  - repeat split; constructor.
  - assert (Hone :
      stemId (analyzeStem extractAudioFeatures toFixed stem) = id stem /\
      (0.1 <= confidence (analyzeStem extractAudioFeatures toFixed stem) <= 1 /\
       In (detectedRole (analyzeStem extractAudioFeatures toFixed stem))
          [KICK; SNARE; HIHAT; BASS; VOCAL; LEAD; PAD; DRUMS; OTHER]) /\
      (confidence (analyzeStem extractAudioFeatures toFixed stem) == 0.1 <->
       exists error, extractAudioFeatures (buffer stem) = inl error)).
    { unfold analyzeStem.
      destruct (extractAudioFeatures (buffer stem)) as [error|f] eqn:E.
      - cbn. split; [reflexivity|]. split.
        + split; [split; discriminate | tauto].
        + split; [intros _; now exists error | reflexivity].
      - unfold analyzed. cbn [stemId confidence detectedRole].
        pose proof (calculateConfidence_bounds f (detectRole f)) as (Hlo & Hhi).
        split; [reflexivity|]. split.
        + split; [split; [Lqa.lra | exact Hhi] | apply detectRole_scored_or_other].
        + split.
          * intros Heq. exfalso. Lqa.lra.
          * intros (error & Herr). discriminate. }
    destruct Hone as (Hid & Hwf & Hfail).
    split; [now rewrite Hid, IHid|].
    split; constructor; assumption.
Qed.

End AnalysisResults.

(** ** Feature extraction helpers *)

Section ZeroCrossings.

Import StemAnalyzer.

Lemma countCrossings_le (prev : Q) (rest : list Q) :
  (countCrossings prev rest <= List.length rest)%nat.
Proof.
  revert prev. induction rest as [|x rest IH]; intros prev; cbn [countCrossings List.length].
  - lia.
  - specialize (IH x). destruct (Bool.eqb (Qgeb x 0) (Qgeb prev 0)); lia.
Qed.

Lemma countCrossings_same_side (side : bool) (prev : Q) (rest : list Q) :
  Qgeb prev 0 = side -> Forall (fun x => Qgeb x 0 = side) rest ->
  countCrossings prev rest = 0%nat.
Proof.
  intros Hprev Hrest. revert prev Hprev.
  induction Hrest as [|x rest Hx _ IH]; intros prev Hprev; cbn [countCrossings].
  - reflexivity.
  - rewrite Hx, Hprev, Bool.eqb_reflx, (IH x Hx). reflexivity.
Qed.

(** X20: on a window that is not empty the zero-crossing rate lies in
    [0, 1), the number of crossings being at most the number of samples
    minus one; it is 0 when no sample is negative and when every sample
    is negative. *)
Theorem zeroCrossingRate_range (data : list Q) :
  data <> [] ->
  0 <= calculateZeroCrossingRate data /\
  calculateZeroCrossingRate data < 1 /\
  (Forall (fun x => 0 <= x) data \/ Forall (fun x => x < 0) data ->
   calculateZeroCrossingRate data == 0).
Proof.
  intros Hne. destruct data as [|first rest]; [congruence|].
  unfold calculateZeroCrossingRate.
  pose proof (countCrossings_le first rest) as Hle.
  assert (Hn : 0 < inject_Z (Z.of_nat (List.length (first :: rest)))).
  { change 0 with (inject_Z 0). rewrite <- Zlt_Qlt. cbn [List.length]. lia. }
  split; [|split].
  - apply Qle_shift_div_l; [exact Hn|].
    rewrite Qmult_0_l. change 0 with (inject_Z 0). rewrite <- Zle_Qle. lia.
  - apply Qlt_shift_div_r; [exact Hn|].
    rewrite Qmult_1_l. rewrite <- Zlt_Qlt. cbn [List.length]. lia.
  - intros Hside.
    assert (Hzero : countCrossings first rest = 0%nat).
    { destruct Hside as [Hpos|Hneg].
      - apply (countCrossings_same_side true).
        + inversion Hpos; subst. now apply Qle_bool_iff.
        + inversion Hpos as [|? ? _ Hrest]; subst.
          eapply Forall_impl; [|exact Hrest]. intros x Hx. now apply Qle_bool_iff.
      - assert (Hf : forall x, x < 0 -> Qgeb x 0 = false).
        { intros x Hx. unfold Qgeb. destruct (Qle_bool 0 x) eqn:E; [|reflexivity].
          apply Qle_bool_iff in E. exfalso. Lqa.lra. }
        apply (countCrossings_same_side false).
        + inversion Hneg; subst. now apply Hf.
        + inversion Hneg as [|? ? _ Hrest]; subst.
          eapply Forall_impl; [|exact Hrest]. exact Hf. }
    rewrite Hzero. cbn [Z.of_nat]. unfold Qdiv. apply Qmult_0_l.
Qed.

Lemma zeroCrossingRate_range_witness :
  [0.5; -0.5; 0.25] <> [] /\
  calculateZeroCrossingRate [0.5; -0.5; 0.25] < 1.
Proof.
  assert (H : [0.5; -0.5; 0.25] <> []) by discriminate.
  split; [exact H|].
  exact (proj1 (proj2 (zeroCrossingRate_range [0.5; -0.5; 0.25] H))).
Defined.

End ZeroCrossings.

Section SpectralFeatures.

Import StemAnalyzer.

(** [Math.sqrt] enters only through this: the square root of a number
    that is not negative is not negative. *)
Variable sqrt : Q -> Q.
Hypothesis sqrt_nonneg : forall x : Q, 0 <= x -> 0 <= sqrt x.

Lemma magnitudeAt_nonneg (fft : list Q) (i : nat) : 0 <= magnitudeAt sqrt fft i.
Proof.
  unfold magnitudeAt. apply sqrt_nonneg.
  generalize (nth (i * 2) fft 0) (nth (i * 2 + 1) fft 0). intros a b.
  Lqa.nra.
Qed.

Lemma addToBand_nonneg (bands : EnergyDistribution) (frequency magnitude : Q) :
  Forall (fun v => 0 <= v) (values bands) -> 0 <= magnitude ->
  Forall (fun v => 0 <= v) (values (addToBand bands frequency magnitude)).
Proof.
  intros Hb Hm. unfold values in Hb.
  repeat match goal with
         | H : Forall _ (_ :: _) |- _ => inversion H; subst; clear H
         end.
  unfold addToBand.
  repeat match goal with
         | |- context [if ?b then _ else _] => destruct b
         end;
    unfold values; cbn [subBass bass lowMid mid highMid presence brilliance];
    repeat constructor; Lqa.lra.
Qed.

Lemma band_loop_nonneg (fft : list Q) (binSize : Q) (indices : list nat)
      (bands : EnergyDistribution) :
  Forall (fun v => 0 <= v) (values bands) ->
  Forall (fun v => 0 <= v)
    (values
       (fold_left
          (fun (bands : EnergyDistribution) (i : nat) =>
             addToBand bands (inject_Z (Z.of_nat i) * binSize) (magnitudeAt sqrt fft i))
          indices bands)).
Proof.
  revert bands. induction indices as [|i rest IH]; intros bands Hb; cbn [fold_left].
  - exact Hb.
  - apply IH. apply addToBand_nonneg; [exact Hb | apply magnitudeAt_nonneg].
Qed.

(** X21: the energy distribution of a window is normalised.  Each of the
    seven bands lies in [0, 1]; the seven bands sum to 1, unless the
    window carries no energy at all, in which case every band is 0. *)
Theorem energyDistribution_normalised (data : list Q) (sampleRate : Q) :
  let e := calculateEnergyDistribution sqrt data sampleRate in
  Forall (fun v => 0 <= v <= 1) (values e) /\
  (subBass e + bass e + lowMid e + mid e + highMid e + presence e + brilliance e == 1 \/
   Forall (fun v => v == 0) (values e)).
Proof.
  cbv zeta. unfold calculateEnergyDistribution. cbv zeta.
  match goal with
  | |- context [fold_left ?f ?l (mkEnergy 0 0 0 0 0 0 0)] =>
      assert (Hb : Forall (fun v => 0 <= v)
                     (values (fold_left f l (mkEnergy 0 0 0 0 0 0 0))));
      [ apply band_loop_nonneg; unfold values; cbn; repeat constructor; discriminate
      | remember (fold_left f l (mkEnergy 0 0 0 0 0 0 0)) as bands eqn:Ebands ]
  end.
  clear Ebands.
  unfold values in Hb.
  repeat match goal with
         | H : Forall _ (_ :: _) |- _ => inversion H; subst; clear H
         end.
  change (fold_left (fun sum val : Q => sum + val) (values bands) 0)
    with (0 + subBass bands + bass bands + lowMid bands + mid bands
          + highMid bands + presence bands + brilliance bands).
  remember (0 + subBass bands + bass bands + lowMid bands + mid bands
            + highMid bands + presence bands + brilliance bands) as total eqn:Htotal.
  assert (Hsum : total == subBass bands + bass bands + lowMid bands + mid bands
                 + highMid bands + presence bands + brilliance bands)
    by (rewrite Htotal; ring).
  clear Htotal.
  destruct (Qgtb_cases total 0) as [[-> Hpos]|[-> Hzero]].
  - assert (Hdiv : forall v, 0 <= v -> v <= total -> 0 <= v / total <= 1).
    { intros v Hv Hvt. split.
      - apply Qle_shift_div_l; [exact Hpos | Lqa.lra].
      - apply Qle_shift_div_r; [exact Hpos | Lqa.lra]. }
    split.
    + unfold values. cbn [subBass bass lowMid mid highMid presence brilliance].
      repeat constructor; apply Hdiv; Lqa.lra.
    + left. cbn [subBass bass lowMid mid highMid presence brilliance].
      setoid_replace (subBass bands / total + bass bands / total + lowMid bands / total
                      + mid bands / total + highMid bands / total
                      + presence bands / total + brilliance bands / total)
        with ((subBass bands + bass bands + lowMid bands + mid bands
               + highMid bands + presence bands + brilliance bands) / total)
        by (field; Lqa.lra).
      rewrite <- Hsum. field. Lqa.lra.
  - assert (Hall : Forall (fun v => v == 0) (values bands)).
    { unfold values. repeat constructor; Lqa.lra. }
    split; [|right; exact Hall].
    unfold values. repeat constructor; Lqa.lra.
Qed.

Lemma centroid_loop (fft : list Q) (sampleRate : Q) (indices : list nat) (acc : Q * Q) :
  0 <= sampleRate ->
  Forall (fun i => (2 * i <= List.length fft)%nat) indices ->
  (0 < List.length fft)%nat ->
  0 <= snd acc /\ 0 <= fst acc /\ fst acc <= sampleRate * (1 # 2) * snd acc ->
  let sums :=
    fold_left
      (fun (acc : Q * Q) (i : nat) =>
         (fst acc
          + (inject_Z (Z.of_nat i) * sampleRate) / inject_Z (Z.of_nat (List.length fft))
            * magnitudeAt sqrt fft i,
          snd acc + magnitudeAt sqrt fft i))
      indices acc in
  0 <= snd sums /\ 0 <= fst sums /\ fst sums <= sampleRate * (1 # 2) * snd sums.
Proof.
  intros Hsr Hidx Hlen. cbv zeta. revert acc.
  induction Hidx as [|i rest Hi _ IH]; intros acc Hacc; cbn [fold_left].
  - exact Hacc.
  - apply IH. cbn [fst snd]. destruct Hacc as (Hm & Hw0 & Hw).
    pose proof (magnitudeAt_nonneg fft i) as Hmag.
    assert (Hn : 0 < inject_Z (Z.of_nat (List.length fft))).
    { change 0 with (inject_Z 0). rewrite <- Zlt_Qlt. lia. }
    assert (Hi0 : 0 <= inject_Z (Z.of_nat i)).
    { change 0 with (inject_Z 0). rewrite <- Zle_Qle. lia. }
    assert (Hi2 : 2 * inject_Z (Z.of_nat i) <= inject_Z (Z.of_nat (List.length fft))).
    { change 2 with (inject_Z 2). rewrite <- inject_Z_mult, <- Zle_Qle. lia. }
    assert (Hf : 0 <= (inject_Z (Z.of_nat i) * sampleRate)
                      / inject_Z (Z.of_nat (List.length fft))
                 <= sampleRate * (1 # 2)).
    { split.
      - apply Qle_shift_div_l; [exact Hn|]. rewrite Qmult_0_l.
        apply Qmult_le_0_compat; assumption.
      - apply Qle_shift_div_r; [exact Hn|].
        revert Hi0 Hi2 Hn.
        generalize (inject_Z (Z.of_nat i)) (inject_Z (Z.of_nat (List.length fft))).
        intros a n Ha Ha2 Hn. Lqa.nra. }
    revert Hf Hmag.
    generalize ((inject_Z (Z.of_nat i) * sampleRate)
                / inject_Z (Z.of_nat (List.length fft)))
               (magnitudeAt sqrt fft i).
    intros fr mg (Hf0 & Hf1) Hmg.
    split; [Lqa.lra|]. split; Lqa.nra.
Qed.

(** X22: for a sample rate that is not negative, the spectral centroid of
    any window, an empty one included, lies between 0 and half the sample
    rate. *)
Theorem spectralCentroid_range (data : list Q) (sampleRate : Q) :
  0 <= sampleRate ->
  0 <= calculateSpectralCentroid sqrt data sampleRate <= sampleRate / 2.
Proof.
  intros Hsr. unfold calculateSpectralCentroid. cbv zeta.
  assert (Hhalf : sampleRate / 2 == sampleRate * (1 # 2)) by field.
  destruct (Nat.eq_dec (List.length (performFFT data)) 0) as [Hz|Hnz].
  - rewrite Hz. cbn. rewrite Hhalf. split; Lqa.lra.
  - pose proof (centroid_loop (performFFT data) sampleRate
                  (seq 0 (List.length (performFFT data) / 2)) (0, 0) Hsr) as Hloop.
    cbv zeta in Hloop.
    assert (Hidx : Forall (fun i => (2 * i <= List.length (performFFT data))%nat)
                     (seq 0 (List.length (performFFT data) / 2))).
    { apply Forall_forall. intros i Hi. apply in_seq in Hi.
      pose proof (Nat.div_mod_eq (List.length (performFFT data)) 2). lia. }
    specialize (Hloop Hidx ltac:(lia)).
    assert (H0 : 0 <= snd (0, 0) /\ 0 <= fst (0, 0)
                 /\ fst (0, 0) <= sampleRate * (1 # 2) * snd (0, 0)).
    { cbn [fst snd]. repeat split; Lqa.lra. }
    specialize (Hloop H0). clear H0.
    match type of Hloop with
    | 0 <= snd ?sums /\ _ => generalize dependent sums
    end.
    intros sums (Hm & Hw0 & Hw).
    destruct (Qgtb_cases (snd sums) 0) as [[-> Hpos]|[-> _]].
    + split.
      * apply Qle_shift_div_l; [exact Hpos | Lqa.lra].
      * apply Qle_shift_div_r; [exact Hpos|]. rewrite Hhalf. exact Hw.
    + rewrite Hhalf. split; Lqa.lra.
Qed.

End SpectralFeatures.

Lemma sampleSqrt_nonneg (x : Q) : 0 <= x -> 0 <= sampleSqrt x.
Proof.
  intros _. unfold sampleSqrt, Qle. cbn [Qnum Qden].
  rewrite Z.mul_0_l, Z.mul_1_r. apply Z.sqrt_nonneg.
Qed.

Lemma energyDistribution_normalised_witness :
  let e := StemAnalyzer.calculateEnergyDistribution sampleSqrt [0.5; -0.5; 0.25] 44100 in
  Forall (fun v => 0 <= v <= 1) (StemAnalyzer.values e).
Proof.
  exact (proj1 (energyDistribution_normalised sampleSqrt sampleSqrt_nonneg
                  [0.5; -0.5; 0.25] 44100)).
Defined.

Lemma spectralCentroid_range_witness :
  0 <= 44100 /\
  0 <= StemAnalyzer.calculateSpectralCentroid sampleSqrt [0.5; -0.5; 0.25] 44100
    <= 44100 / 2.
Proof.
  assert (H : 0 <= 44100) by discriminate.
  split; [exact H|].
  exact (spectralCentroid_range sampleSqrt sampleSqrt_nonneg [0.5; -0.5; 0.25] 44100 H).
Defined.

(** ** The sidechain ducker, continued *)

Section DuckerInvariants.

Import SidechainDucker.

Lemma updateDucking_fields (d : Ducker) :
  targetStemNode (updateDucking d) = targetStemNode d /\
  sourceStemNode (updateDucking d) = sourceStemNode d /\
  settings (updateDucking d) = settings d /\
  sensitivity (envelopeFollower (updateDucking d)) = sensitivity (envelopeFollower d).
Proof.
  unfold updateDucking.
  destruct (enabled (settings d)) eqn:Ee;
    destruct (sourceStemNode d) eqn:Es;
    destruct (targetStemNode d) eqn:Et;
    cbn [targetStemNode sourceStemNode settings envelopeFollower sensitivity];
    rewrite ?Es, ?Et; repeat split.
Qed.

Lemma act_ok (d : Ducker) (a : Action) : ducker_ok d -> ducker_ok (act d a).
Proof.
  intros (Hg & Hs). destruct a as [[| | | |now|now rms]|p]; cbn [act step].
  - unfold connectSource.
    match goal with
    | |- ducker_ok (updateDucking ?x) =>
        destruct (updateDucking_fields x) as (Et & _ & _ & Es)
    end.
    split; [|rewrite Es; destruct (sourceStemNode d); exact Hs].
    intros g. rewrite Et. cbn [targetStemNode].
    destruct (sourceStemNode d); cbn [disconnect targetStemNode];
      [discriminate | apply Hg].
  - unfold connectTarget.
    match goal with
    | |- ducker_ok (updateDucking ?x) =>
        destruct (updateDucking_fields x) as (Et & _ & _ & Es)
    end.
    split; [|rewrite Es; exact Hs].
    intros g. rewrite Et. cbn [targetStemNode]. intros [= <-]. constructor.
  - unfold enable.
    match goal with
    | |- ducker_ok (updateDucking ?x) =>
        destruct (updateDucking_fields x) as (Et & _ & _ & Es)
    end.
    split; [|rewrite Es; exact Hs].
    intros g. rewrite Et. apply Hg.
  - split; [|exact Hs]. intros g. cbn. discriminate.
  - split; [|exact Hs]. intros g. unfold disable. cbn [targetStemNode].
    destruct (targetStemNode d) as [g0|] eqn:E; [|discriminate].
    intros [= <-]. constructor; [|now apply Hg].
    cbn [target timeConstant]. split; [discriminate | reflexivity].
  - unfold monitor.
    destruct (onLevelChange (envelopeFollower d)) as [[]|]; [|split; assumption].
    unfold levelChanged.
    destruct (targetStemNode d) as [g0|] eqn:E; [|split; [rewrite E|]; assumption].
    split; [|exact Hs]. cbn [targetStemNode]. intros g [= <-].
    constructor; [|now apply Hg].
    cbn [target timeConstant]. split; [apply Q.le_max_l | reflexivity].
  - unfold configure. split; [exact Hg|].
    cbn [envelopeFollower setSensitivity sensitivity]. split; q_minmax.
Qed.

Lemma perform_ok (actions : list Action) (d : Ducker) :
  ducker_ok d -> ducker_ok (perform d actions).
Proof.
  unfold perform. revert d.
  induction actions as [|a rest IH]; intros d Hd; cbn [fold_left];
    [exact Hd | apply IH, act_ok, Hd].
Qed.

Lemma constructor_ok (initialSettings : DuckingSettings) :
  ducker_ok (constructor initialSettings).
Proof.
  split; [intros g; cbn; discriminate|].
  cbn. split; discriminate.
Qed.

(** X23: the ducker never mutes and never jumps.  Whatever the initial
    settings and whatever is done to the ducker afterwards (connecting,
    enabling, disabling, configuring, timer ticks at any measured level),
    every automation call it has made on the target's gain aims at a gain
    of at least 0.1 and has a positive time constant, and the follower's
    sensitivity stays in [0, 1]. *)
Theorem ducker_gain_floor (initialSettings : DuckingSettings) (actions : list Action) :
  let d := perform (constructor initialSettings) actions in
  (forall g, targetStemNode d = Some g ->
     Forall (fun e => 0.1 <= target e /\ 0 < timeConstant e) g) /\
  0 <= sensitivity (envelopeFollower d) <= 1.
Proof.
  cbv zeta.
  exact (perform_ok actions _ (constructor_ok initialSettings)).
Qed.

(** X24: connecting a source while a source is connected disconnects the
    target as well: afterwards the ducker has the new source, no target,
    is not active, and timer ticks schedule nothing, until [connectTarget]
    is called again.  The first connection of a source leaves the target
    in place. *)
Theorem connectSource_again_drops_target (d : Ducker) :
  (sourceStemNode d <> None ->
   targetStemNode (connectSource d) = None /\
   sourceStemNode (connectSource d) = Some [] /\
   isActive (connectSource d) = false /\
   duckingActive (connectSource d) = false /\
   forall now rms, monitor now rms (connectSource d) = connectSource d) /\
  (sourceStemNode d = None ->
   targetStemNode (connectSource d) = targetStemNode d).
Proof.
  split; intros Hsrc.
  - destruct (sourceStemNode d) as [src|] eqn:E; [clear Hsrc | congruence].
    assert (Hd : connectSource d
                 = mkDucker (settings d) (Some []) None (envelopeFollower d) false).
    { unfold connectSource. rewrite E. cbn [disconnect settings targetStemNode
        envelopeFollower isActive sourceStemNode].
      unfold updateDucking. cbn [settings sourceStemNode targetStemNode].
      destruct (enabled (settings d)); reflexivity. }
    rewrite Hd. cbn [targetStemNode sourceStemNode isActive].
    repeat split.
    intros now rms. unfold monitor, levelChanged.
    cbn [envelopeFollower targetStemNode].
    destruct (onLevelChange (envelopeFollower d)) as [[]|]; reflexivity.
  - unfold connectSource. rewrite Hsrc.
    match goal with
    | |- targetStemNode (updateDucking ?x) = _ =>
        rewrite (proj1 (updateDucking_fields x))
    end.
    reflexivity.
Qed.

Lemma connectSource_again_drops_target_witness :
  sourceStemNode duckingDucker <> None /\
  targetStemNode (connectSource duckingDucker) = None.
Proof.
  assert (H : sourceStemNode duckingDucker <> None) by discriminate.
  split; [exact H|].
  exact (proj1 (proj1 (connectSource_again_drops_target duckingDucker) H)).
Defined.

(** X25: ducking starts as soon as the ducker is enabled and has a source
    and a target, in whatever order the three calls come; after any two
    of them it is not active. *)
Theorem activation_order_independent (initialSettings : DuckingSettings)
        (e1 e2 e3 : Event) :
  enabled initialSettings = false ->
  In e1 activationEvents -> In e2 activationEvents -> In e3 activationEvents ->
  isActive (run (constructor initialSettings) [e1; e2]) = false /\
  (e1 <> e2 -> e1 <> e3 -> e2 <> e3 ->
   let d := run (constructor initialSettings) [e1; e2; e3] in
   isActive d = true /\
   duckingActive d = true /\
   onLevelChange (envelopeFollower d) = Some duckTarget).
Proof.
  intros Hen H1 H2 H3.
  destruct initialSettings as [en fmin fmax tgt src av th ra at_ re].
  cbn [enabled] in Hen. subst en.
  unfold activationEvents in *. cbn [In] in H1, H2, H3.
  destruct H1 as [<-|[<-|[<-|[]]]];
    destruct H2 as [<-|[<-|[<-|[]]]];
    destruct H3 as [<-|[<-|[<-|[]]]];
    (split; [reflexivity|]);
    intros N12 N13 N23; try congruence;
    cbv zeta; repeat split.
Qed.

Lemma activation_order_independent_witness :
  enabled createDefaultDucking = false /\
  isActive (run (constructor createDefaultDucking)
                [EConnectTarget; EEnable; EConnectSource]) = true.
Proof.
  assert (H : enabled createDefaultDucking = false) by reflexivity.
  split; [exact H|].
  refine (proj1 (proj2 (activation_order_independent createDefaultDucking
                          EConnectTarget EEnable EConnectSource H _ _ _) _ _ _));
    unfold activationEvents; cbn [In]; try tauto; discriminate.
Defined.

(** X26: the depth of the ducking.  On a ducker reached by any actions,
    with the callback installed and a target connected, a timer tick
    that measures a level that is not negative, under an assistant value
    that is not negative, schedules a gain between 0.1 and 1 with a 10 ms
    time constant on top of the earlier calls; a silent source (level 0)
    schedules gain 1. *)
Theorem monitor_gain_range (initialSettings : DuckingSettings) (actions : list Action)
        (now rms : Q) (g : GainNode) :
  let d := perform (constructor initialSettings) actions in
  onLevelChange (envelopeFollower d) = Some duckTarget ->
  targetStemNode d = Some g ->
  0 <= rms -> 0 <= assistantValue (settings d) ->
  exists gain : Q,
    targetStemNode (monitor now rms d) = Some (mkSetTarget gain now 0.01 :: g) /\
    0.1 <= gain <= 1 /\
    (rms == 0 -> gain == 1).
Proof.
  cbv zeta. intros Hcb Ht Hrms Hav.
  pose proof (perform_ok actions _ (constructor_ok initialSettings)) as (_ & Hs0 & Hs1).
  revert Hcb Ht Hav Hs0 Hs1.
  generalize (perform (constructor initialSettings) actions). intros d Hcb Ht Hav Hs0 Hs1.
  unfold monitor. rewrite Hcb. unfold levelChanged. rewrite Ht.
  eexists. split; [reflexivity|].
  assert (Hprod : 0 <= rms * sensitivity (envelopeFollower d) * assistantValue (settings d)).
  { apply Qmult_le_0_compat; [apply Qmult_le_0_compat|]; assumption. }
  revert Hprod.
  generalize (sensitivity (envelopeFollower d)) (assistantValue (settings d)).
  intros sens av Hprod.
  split; [split; q_minmax|].
  intros Hz. rewrite Hz.
  setoid_replace (1 - 0 * sens * av) with 1 by ring.
  apply Q.max_r. discriminate.
Qed.

Lemma monitor_gain_range_witness :
  exists gain : Q,
    targetStemNode (monitor 1.01 0.5 (perform (constructor enabledDucking)
                                             (map AEvent duckerSession)))
    = Some (mkSetTarget gain 1.01 0.01 :: [mkSetTarget (Qmax 0.1 (1 - 0.5 * 0.8 * 0.8)) 0.99 0.01]) /\
    0.1 <= gain <= 1.
Proof.
  destruct (monitor_gain_range enabledDucking (map AEvent duckerSession) 1.01 0.5
              [mkSetTarget (Qmax 0.1 (1 - 0.5 * 0.8 * 0.8)) 0.99 0.01])
    as (gain & Hg & Hr & _).
  - reflexivity.
  - reflexivity.
  - discriminate.
  - discriminate.
  - exists gain. split; [exact Hg | exact Hr].
Defined.

End DuckerInvariants.

(** ** Construction of the processing chain manager *)

Section ManagerConstruction.

Import ProcessingChainManager.

(** X27: the constructor of the processing chain manager never completes:
    it builds the default chain, whose snapshots copy the modules of
    [this.chain], before [this.chain] has been assigned, and throws.
    Called on a manager that has a chain, [createDefaultChain] completes
    with the six default modules and three snapshots 'snapshot_a',
    'snapshot_b', 'snapshot_c' that copy the modules of the existing
    chain. *)
Theorem manager_constructor_throws (now : Q) :
  (exists error, constructor now = Throw error) /\
  (forall chain : ProcessingChain,
   exists created : ProcessingChain,
     createDefaultChain (Some chain) now = Normal created /\
     map module_id (modules created)
     = ["hpf"; "eq"; "compressor"; "saturator"; "stereo_width"; "limiter"]%string /\
     map snapshot_id (snapshots (globalSettings created))
     = ["snapshot_a"; "snapshot_b"; "snapshot_c"]%string /\
     Forall (fun snapshot => snapshot_chain snapshot = modules chain)
            (snapshots (globalSettings created))) /\
  (forall (chain : option ProcessingChain) (created : ProcessingChain),
     createDefaultChain chain now = Normal created -> chain <> None).
Proof.
  split; [|split].
  - eexists. reflexivity.
  - intros chain. eexists. split; [reflexivity|].
    split; [reflexivity|]. split; [reflexivity|].
    repeat constructor.
  - intros [chain|] created H; [discriminate|].
    cbn in H. discriminate.
Qed.

End ManagerConstruction.

(** ** The fundamental frequency estimate *)

Section Fundamental.

Import StemAnalyzer.

Lemma periodLoop_range (lo hi : nat) (data : list Q) :
  forall (fuel period maxPeriod : nat) (best : nat * Q),
    (lo <= fst best <= hi)%nat -> (lo <= period)%nat -> (maxPeriod <= hi)%nat ->
    (lo <= fst (periodLoop fuel period maxPeriod data best) <= hi)%nat.
Proof.
  induction fuel as [|fuel IH]; intros period maxPeriod best Hbest Hperiod Hmax;
    cbn [periodLoop]; [exact Hbest|].
  destruct ((period <=? maxPeriod)%nat) eqn:Ele; cbn [andb]; [|exact Hbest].
  destruct ((2 * period <? List.length data)%nat); [|exact Hbest].
  apply Nat.leb_le in Ele.
  apply IH; [|lia|exact Hmax].
  destruct (Qgtb (autocorrelation data period) (snd best)); cbn [fst]; [lia | exact Hbest].
Qed.

Lemma autocorrelation_silent (data : list Q) (period : nat) :
  Forall (fun x => x == 0) data -> autocorrelation data period == 0.
Proof.
  intros Hzero. unfold autocorrelation.
  assert (Hnth : forall i, nth i data 0 == 0).
  { intros i. destruct (Nat.lt_ge_cases i (List.length data)) as [Hlt|Hge].
    - rewrite Forall_forall in Hzero. apply Hzero. now apply nth_In.
    - rewrite nth_overflow by exact Hge. reflexivity. }
  generalize (seq 0 (List.length data - period)). intros indices.
  assert (Hgen : forall acc, acc == 0 ->
            fold_left
              (fun correlation i => correlation + nth i data 0 * nth (i + period) data 0)
              indices acc == 0).
  { induction indices as [|i rest IH]; intros acc Hacc; cbn [fold_left];
      [exact Hacc|].
    apply IH. rewrite Hacc, (Hnth i). ring. }
  apply Hgen. reflexivity.
Qed.

Lemma periodLoop_silent (data : list Q) :
  Forall (fun x => x == 0) data ->
  forall (fuel period maxPeriod : nat) (best : nat * Q),
    snd best == 0 ->
    fst (periodLoop fuel period maxPeriod data best) = fst best.
Proof.
  intros Hzero. induction fuel as [|fuel IH]; intros period maxPeriod best Hbest;
    cbn [periodLoop]; [reflexivity|].
  destruct (((period <=? maxPeriod) && (2 * period <? List.length data))%nat);
    [|reflexivity].
  assert (E : Qgtb (autocorrelation data period) (snd best) = false).
  { apply Qgtb_le. rewrite Hbest, (autocorrelation_silent data period Hzero).
    apply Qle_refl. }
  rewrite E. now apply IH.
Qed.

(** X28: for a sample rate of at least 800 the estimated fundamental lies
    between 50 Hz and sampleRate / floor(sampleRate / 800), the frequency
    of the shortest period tried (for 44100 that is 801.8 Hz, a little
    above 800); and a window of silence is reported at that top of the
    range, because the shortest period is the initial best one. *)
Theorem fundamental_range (data : list Q) (sampleRate : Q) :
  800 <= sampleRate ->
  let top := sampleRate / inject_Z (Qfloor (sampleRate / 800)) in
  50 <= estimateFundamentalFreq data sampleRate <= top /\
  (Forall (fun x => x == 0) data -> estimateFundamentalFreq data sampleRate == top).
Proof.
  intros Hsr. cbv zeta. unfold estimateFundamentalFreq. cbv zeta.
  set (zmin := Qfloor (sampleRate / 800)).
  set (zmax := Qfloor (sampleRate / 50)).
  assert (Hzmin : (1 <= zmin)%Z).
  { unfold zmin. rewrite <- (Qfloor_Z 1). apply Qfloor_resp_le.
    change (inject_Z 1) with 1.
    apply Qle_shift_div_l; [reflexivity | Lqa.lra]. }
  assert (Hzz : (zmin <= zmax)%Z).
  { unfold zmin, zmax. apply Qfloor_resp_le.
    unfold Qdiv. setoid_replace (/ 800) with (1 # 800) by reflexivity.
    setoid_replace (/ 50) with (1 # 50) by reflexivity. Lqa.lra. }
  assert (Hmaxle : inject_Z zmax <= sampleRate / 50) by apply Qfloor_le.
  pose proof (periodLoop_range (Z.to_nat zmin) (Z.to_nat zmax) data
                (S (Z.to_nat zmax) - Z.to_nat zmin) (Z.to_nat zmin) (Z.to_nat zmax)
                (Z.to_nat zmin, 0)) as Hrange.
  cbn [fst] in Hrange.
  specialize (Hrange ltac:(lia) ltac:(lia) ltac:(lia)).
  split.
  - revert Hrange.
    generalize (fst (periodLoop (S (Z.to_nat zmax) - Z.to_nat zmin) (Z.to_nat zmin)
                       (Z.to_nat zmax) data (Z.to_nat zmin, 0))).
    intros best (Hlo & Hhi).
    assert (Hb1 : inject_Z zmin <= inject_Z (Z.of_nat best)).
    { rewrite <- Zle_Qle. lia. }
    assert (Hb2 : inject_Z (Z.of_nat best) <= inject_Z zmax).
    { rewrite <- Zle_Qle. lia. }
    assert (H1 : 1 <= inject_Z zmin).
    { change 1 with (inject_Z 1). now rewrite <- Zle_Qle. }
    assert (Hmax50 : 50 * inject_Z zmax <= sampleRate).
    { unfold Qdiv in Hmaxle. setoid_replace (/ 50) with (1 # 50) in Hmaxle by reflexivity.
      Lqa.lra. }
    revert Hb1 Hb2 H1 Hmax50.
    generalize (inject_Z (Z.of_nat best)) (inject_Z zmin) (inject_Z zmax).
    intros b mn mx Hb1 Hb2 H1 Hmax50.
    split.
    + apply Qle_shift_div_l; Lqa.lra.
    + apply Qle_shift_div_r; [Lqa.lra|].
      setoid_replace (sampleRate / mn * b) with (sampleRate * (b / mn))
        by (field; Lqa.lra).
      assert (Hq : 1 <= b / mn) by (apply Qle_shift_div_l; Lqa.lra).
      revert Hq. generalize (b / mn). intros q Hq. Lqa.nra.
  - intros Hzero.
    rewrite (periodLoop_silent data Hzero) by reflexivity.
    cbn [fst]. rewrite Z2Nat.id by lia. reflexivity.
Qed.

Lemma fundamental_range_witness :
  800 <= 44100 /\
  50 <= estimateFundamentalFreq [0.5; -0.5; 0.25] 44100.
Proof.
  assert (H : 800 <= 44100) by discriminate.
  split; [exact H|].
  exact (proj1 (proj1 (fundamental_range [0.5; -0.5; 0.25] 44100 H))).
Defined.

End Fundamental.
